(** * Portfolio dashboard: the data-derivation pipeline of [src/utils.ts]

    A shallow embedding of [parseCSV] and [calculateMonthlyGrowth] together
    with the parts of the ECMAScript built-ins they call (string trimming and
    splitting, the tokenizing regular expression, [Number], [parseInt],
    [parseFloat], the [Date] constructor and its calendar getters,
    [Array.prototype.sort]), and the properties of the pipeline.  Then the
    values the components [App] and [StockCharts] derive from the two
    arrays: the date range of the chart and the points it shows, the bars
    of the months, the table of the current month, the key metrics.

    Conventions of the embedding.
    - A string is the list of its UTF-16 code units ([jsstring]).
    - A [number] is an IEEE 754 binary64 value, in the executable
      specification of the Standard Library ([spec_float], precision 53,
      maximal exponent 1024).
    - A [Date] object is its time value: an integer number of milliseconds,
      or invalid (time value NaN).  The host time zone is taken to be a fixed
      offset from UTC, so that the local calendar fields of a date built from
      local fields are those fields again, and the difference of two
      [getTime()] results is the difference of the local time values.
    - An exception is an explicit [Throw] result.
    - The state of a component is a record; a handler or an effect is a
      function from the state to the next state, and a memoized value is a
      function of the properties and the state.  What depends on the host
      (the current time, the texts of the locale) is a parameter. *)

From Stdlib Require Import ZArith NArith List String Ascii Bool Lia.
From Stdlib Require Import Floats.SpecFloat.
From Stdlib Require Import DecimalString DecimalZ.
From Stdlib Require Import Sorting.Sorted.
From stdpp Require Import base tactics option list sets.

Set Warnings "-clear-no-such-hyp".

Open Scope Z_scope.

(* ===================================================================== *)
(** ** Strings *)
(* ===================================================================== *)

Module Str.

(** A UTF-16 code unit. *)
Definition char := N.
Definition jsstring := list char.

(** A string literal of the source, as code units. *)
Definition lit (s : string) : jsstring := map N_of_ascii (list_ascii_of_string s).

Definition LF : char := 10%N.
Definition CR : char := 13%N.
Definition QUOTE : char := 34%N.
Definition COMMA : char := 44%N.
Definition SLASH : char := 47%N.
Definition DOT : char := 46%N.
Definition PLUS : char := 43%N.
Definition MINUS : char := 45%N.

(** Lines joined by a line feed: how the multi-line texts below are written. *)
Fixpoint unlines (ls : list jsstring) : jsstring :=
  match ls with
  | [] => []
  | [l] => l
  | l :: ls' => l ++ LF :: unlines ls'
  end.

(** WhiteSpace and LineTerminator code units of ECMAScript: what
    [String.prototype.trim] strips, what [\s] matches, and what [parseInt],
    [parseFloat] and [Number] skip. *)
Definition isWhiteSpace (c : char) : bool :=
  ((9 <=? c) && (c <=? 13) || (c =? 32) || (c =? 160) || (c =? 5760)
   || ((8192 <=? c) && (c <=? 8202)) || (c =? 8232) || (c =? 8233)
   || (c =? 8239) || (c =? 8287) || (c =? 12288) || (c =? 65279))%N.

(** LineTerminator code units: what [.] in a regular expression excludes. *)
Definition isLineTerminator (c : char) : bool :=
  ((c =? 10) || (c =? 13) || (c =? 8232) || (c =? 8233))%N.

Fixpoint trimStart (s : jsstring) : jsstring :=
  match s with
  | c :: s' => if isWhiteSpace c then trimStart s' else s
  | [] => []
  end.

Definition trimEnd (s : jsstring) : jsstring := rev (trimStart (rev s)).

(** [s.trim()] *)
Definition trim (s : jsstring) : jsstring := trimEnd (trimStart s).

(** [s.split(sep)] for a separator of one code unit: always at least one
    piece, the empty string splits into one empty piece. *)
Fixpoint split (sep : char) (s : jsstring) : list jsstring :=
  match s with
  | [] => [[]]
  | c :: s' =>
      if (c =? sep)%N then [] :: split sep s'
      else match split sep s' with
           | piece :: rest => (c :: piece) :: rest
           | [] => [[c]]
           end
  end.

(** [s.replace(/c/g, '')] for a single code unit [c]. *)
Definition removeAll (c : char) (s : jsstring) : jsstring :=
  List.filter (fun x => negb (x =? c)%N) s.

(** [s.padStart(n, '0')] *)
Definition padStart0 (n : nat) (s : jsstring) : jsstring :=
  repeat 48%N (n - length s) ++ s.

(** The relational comparison of two strings: lexicographic on code units,
    a proper prefix first. *)
Fixpoint ltb (s t : jsstring) : bool :=
  match s, t with
  | _, [] => false
  | [], _ :: _ => true
  | c :: s', d :: t' => (c <? d)%N || ((c =? d)%N && ltb s' t')
  end.

Fixpoint stripPrefix (p s : jsstring) : option jsstring :=
  match p, s with
  | [], _ => Some s
  | c :: p', d :: s' => if (c =? d)%N then stripPrefix p' s' else None
  | _ :: _, [] => None
  end.

End Str.
Import Str.

(* ===================================================================== *)
(** ** Numbers *)
(* ===================================================================== *)

Module Num.

Definition prec : Z := 53.
Definition emax : Z := 1024.

(** An ECMAScript Number. *)
Definition number := spec_float.

Definition NaN : number := S754_nan.

(** The Number value of an integer (round to nearest, ties to even). *)
Definition num (z : Z) : number := binary_normalize prec emax z 0 false.

Definition add (x y : number) : number := SFadd prec emax x y.
Definition sub (x y : number) : number := SFsub prec emax x y.
Definition mul (x y : number) : number := SFmul prec emax x y.
Definition div (x y : number) : number := SFdiv prec emax x y.

(** [x !== y] on two Numbers: NaN differs from everything, the two zeros are
    equal. *)
Definition strictNe (x y : number) : bool := negb (SFeqb x y).

(** [isNaN(x)] *)
Definition isNaN (x : number) : bool :=
  match x with S754_nan => true | _ => false end.

(** [Number.isFinite(x)] *)
Definition isFinite (x : number) : bool :=
  match x with S754_zero _ | S754_finite _ _ _ => true | _ => false end.

(** ToIntegerOrInfinity of a finite Number (truncation toward zero);
    [None] for NaN and the infinities, which every caller below rejects
    before truncating. *)
Definition truncate (x : number) : option Z :=
  match x with
  | S754_zero _ => Some 0
  | S754_finite s m e =>
      Some (cond_Zopp s (if 0 <=? e then Zpos m * 2 ^ e else Zpos m / 2 ^ (- e)))
  | _ => None
  end.

(** The Number value of [m * 10^e10] with the sign [neg]: the mathematical
    value rounded once to binary64.  (ECMAScript lets an implementation
    approximate a decimal literal after its 20th significant digit; the
    embedding rounds the exact value, as V8 and SpiderMonkey do.) *)
Definition decimalToNumber (neg : bool) (m : N) (e10 : Z) : number :=
  match m with
  | N0 => S754_zero neg
  | Npos p =>
      if 0 <=? e10 then num (cond_Zopp neg (Zpos p * 10 ^ e10))
      else
        let '(q, e, l) := SFdiv_core_binary prec emax (Zpos p) 0 (10 ^ (- e10)) 0 in
        binary_round_aux prec emax neg q e l
  end.

(** *** Reading digits *)

Definition digitValue (radix : N) (c : char) : option N :=
  let v :=
    (if (48 <=? c) && (c <=? 57) then Some (c - 48)
     else if (97 <=? c) && (c <=? 122) then Some (c - 87)
     else if (65 <=? c) && (c <=? 90) then Some (c - 55)
     else None)%N in
  match v with
  | Some d => if (d <? radix)%N then Some d else None
  | None => None
  end.

(** The longest prefix of digits of [s] in the given radix, and the rest. *)
Fixpoint spanDigits (radix : N) (s : jsstring) : list N * jsstring :=
  match s with
  | c :: s' =>
      match digitValue radix c with
      | Some d => let '(ds, rest) := spanDigits radix s' in (d :: ds, rest)
      | None => ([], s)
      end
  | [] => ([], [])
  end.

Definition digitsValue (radix : N) (ds : list N) : N :=
  fold_left (fun acc d => radix * acc + d)%N ds 0%N.

(** An optional sign: [true] for [-]. *)
Definition readSign (s : jsstring) : bool * jsstring :=
  match s with
  | c :: s' => if (c =? MINUS)%N then (true, s')
               else if (c =? PLUS)%N then (false, s') else (false, s)
  | [] => (false, [])
  end.

(** [parseInt(s, 10)] *)
Definition parseInt10 (s : jsstring) : number :=
  let '(neg, s1) := readSign (trimStart s) in
  let '(ds, _) := spanDigits 10 s1 in
  match ds with
  | [] => NaN
  | _ => let n := digitsValue 10 ds in
         if (n =? 0)%N then S754_zero neg else num (cond_Zopp neg (Z.of_N n))
  end.

(** The longest prefix of [s] that is a StrUnsignedDecimalLiteral, as its
    value under the sign [neg], and the rest of [s]. *)
Definition readUnsignedDecimal (neg : bool) (s : jsstring) : option (number * jsstring) :=
  match stripPrefix (lit "Infinity") s with
  | Some rest => Some (S754_infinity neg, rest)
  | None =>
      let '(ip, r1) := spanDigits 10 s in
      let '(fp, r2) :=
        match r1 with
        | c :: r =>
            if (c =? DOT)%N then
              let '(fp, r') := spanDigits 10 r in
              match ip, fp with
              | [], [] => ([], r1)
              | _, _ => (fp, r')
              end
            else ([], r1)
        | [] => ([], r1)
        end in
      match ip ++ fp with
      | [] => None
      | ds =>
          let '(ex, r3) :=
            match r2 with
            | c :: r =>
                if (c =? 101)%N || (c =? 69)%N then
                  let '(eneg, r') := readSign r in
                  let '(eds, r'') := spanDigits 10 r' in
                  match eds with
                  | [] => (0, r2)
                  | _ => (cond_Zopp eneg (Z.of_N (digitsValue 10 eds)), r'')
                  end
                else (0, r2)
            | [] => (0, r2)
            end in
          Some (decimalToNumber neg (digitsValue 10 ds) (ex - Z.of_nat (length fp)), r3)
      end
  end.

(** [parseFloat(s)] *)
Definition parseFloat (s : jsstring) : number :=
  let '(neg, s1) := readSign (trimStart s) in
  match readUnsignedDecimal neg s1 with
  | Some (x, _) => x
  | None => NaN
  end.

(** A NonDecimalIntegerLiteral: [0x], [0o] or [0b] and digits to the end. *)
Definition readNonDecimal (s : jsstring) : option number :=
  match s with
  | z :: x :: ds =>
      if (z =? 48)%N then
        let radix :=
          (if (x =? 120) || (x =? 88) then Some 16
           else if (x =? 111) || (x =? 79) then Some 8
           else if (x =? 98) || (x =? 66) then Some 2 else None)%N in
        match radix with
        | Some r =>
            match spanDigits r ds with
            | (d :: ds', []) => Some (num (Z.of_N (digitsValue r (d :: ds'))))
            | _ => None
            end
        | None => None
        end
      else None
  | _ => None
  end.

(** [Number(s)] on a string (StringToNumber). *)
Definition Number (s : jsstring) : number :=
  match trim s with
  | [] => S754_zero false
  | t =>
      match readNonDecimal t with
      | Some x => x
      | None =>
          let '(neg, t1) := readSign t in
          match readUnsignedDecimal neg t1 with
          | Some (x, []) => x
          | _ => NaN
          end
      end
  end.

End Num.
Import Num.

(* ===================================================================== *)
(** ** Dates *)
(* ===================================================================== *)

Module Cal.

(** A Date object, by its time value (milliseconds, local time scale). *)
Inductive Date :=
| InvalidDate
| DateAt (t : Z).

Definition msPerDay : Z := 86400000.

Definition Day (t : Z) : Z := t / msPerDay.

Definition DaysInYear (y : Z) : Z :=
  if negb (y mod 4 =? 0) then 365
  else if negb (y mod 100 =? 0) then 366
  else if negb (y mod 400 =? 0) then 365
  else 366.

Definition DayFromYear (y : Z) : Z :=
  365 * (y - 1970) + (y - 1969) / 4 - (y - 1901) / 100 + (y - 1601) / 400.

(** The year a day number falls in: the largest [y] with
    [DayFromYear y <= d] (lemma [YearFromDay_spec]); computed from the mean
    length of a Gregorian year and corrected by at most one. *)
Definition YearFromDay (d : Z) : Z :=
  let y0 := 1970 + (400 * d) / 146097 in
  if d <? DayFromYear y0 then y0 - 1
  else if DayFromYear (y0 + 1) <=? d then y0 + 1
  else y0.

Definition YearFromTime (t : Z) : Z := YearFromDay (Day t).

(** 1 in a leap year, 0 otherwise. *)
Definition InLeapYear (y : Z) : Z := if DaysInYear y =? 366 then 1 else 0.

Definition DayWithinYear (t : Z) : Z := Day t - DayFromYear (YearFromTime t).

(** The day within the year on which month [mn] (0 to 11) starts. *)
Definition monthStart (mn leap : Z) : Z :=
  match mn with
  | 0 => 0
  | 1 => 31
  | 2 => 59 + leap
  | 3 => 90 + leap
  | 4 => 120 + leap
  | 5 => 151 + leap
  | 6 => 181 + leap
  | 7 => 212 + leap
  | 8 => 243 + leap
  | 9 => 273 + leap
  | 10 => 304 + leap
  | _ => 334 + leap
  end.

Definition MonthFromTime (t : Z) : Z :=
  let d := DayWithinYear t in
  let leap := InLeapYear (YearFromTime t) in
  if d <? 31 then 0
  else if d <? 59 + leap then 1
  else if d <? 90 + leap then 2
  else if d <? 120 + leap then 3
  else if d <? 151 + leap then 4
  else if d <? 181 + leap then 5
  else if d <? 212 + leap then 6
  else if d <? 243 + leap then 7
  else if d <? 273 + leap then 8
  else if d <? 304 + leap then 9
  else if d <? 334 + leap then 10
  else 11.

(** MakeFullYear: a year from 0 to 99 means 1900 to 1999. *)
Definition MakeFullYear (y : Z) : Z :=
  if (0 <=? y) && (y <=? 99) then 1900 + y else y.

(** MakeDay on integers: the day number of day [date] of month [month]
    (0-based, any integer: it carries into the year) of [year]. *)
Definition MakeDay (year month date : Z) : Z :=
  let ym := year + month / 12 in
  let mn := month mod 12 in
  DayFromYear ym + monthStart mn (InLeapYear ym) + date - 1.

Definition TimeClip (t : Z) : Date :=
  if Z.abs t <=? 8640000000000000 then DateAt t else InvalidDate.

(** [new Date(year, month, day)] on three Numbers.  The calendar arithmetic
    is done on integers: it is exact on binary64 for every argument that can
    give a time value within the range of [TimeClip]. *)
Definition newDate (year month day : number) : Date :=
  match truncate year, truncate month, truncate day with
  | Some y, Some m, Some dt =>
      TimeClip (MakeDay (MakeFullYear y) m dt * msPerDay)
  | _, _, _ => InvalidDate
  end.

(** The results of the getters: an integer, or [None] for NaN. *)
Definition getTime (d : Date) : option Z :=
  match d with DateAt t => Some t | InvalidDate => None end.

Definition getFullYear (d : Date) : option Z :=
  match d with DateAt t => Some (YearFromTime t) | InvalidDate => None end.

Definition getMonth (d : Date) : option Z :=
  match d with DateAt t => Some (MonthFromTime t) | InvalidDate => None end.

(** [String(x)] for [x] an integer below 10^21 in magnitude, or NaN. *)
Definition intToString (x : option Z) : jsstring :=
  match x with
  | Some z => lit (NilZero.string_of_int (Z.to_int z))
  | None => lit "NaN"
  end.

End Cal.
Import Cal.

(* ===================================================================== *)
(** ** Regular expressions *)
(* ===================================================================== *)

Module Regex.

(** The patterns of ECMAScript needed for the tokenizer, without the
    [u], [i], [m] and [s] flags: matching is on code units, [$] is the end
    of the input, [.] is any code unit but a line terminator. *)
Inductive regex :=
| Class (p : char -> bool)                  (* one code unit satisfying [p] *)
| Seq (r1 r2 : regex)                       (* r1 r2 *)
| Alt (r1 r2 : regex)                       (* r1|r2 *)
| Rep (min : nat) (greedy : bool) (r : regex)  (* r{min,} and r{min,}? *)
| Lookahead (r : regex)                     (* (?=r) *)
| EndAnchor                                 (* $ *)
| Group (r : regex).                        (* (r) *)

(** The backtracking matcher of the language specification, in
    continuation-passing style.  The state is the input that remains; a
    continuation answers with the input that remains after the whole match,
    or fails, on which the matcher tries its next choice. *)
Definition continuation := jsstring -> option jsstring.

(** RepeatMatcher for [r{min,}]: [m] matches [r] once.  An iteration past
    the minimum must consume input (the specification rejects an empty
    one), so [min + length s] iterations are enough: the bound [fuel] is
    reached only at the end of the input with the minimum done, where the
    repetition can only stop (lemma [repeatMatcher_fuel]). *)
Fixpoint repeatMatcher (m : jsstring -> continuation -> option jsstring)
    (greedy : bool) (k : continuation) (fuel min : nat) (s : jsstring)
    {struct fuel} : option jsstring :=
  match fuel with
  | O => match min with O => k s | S _ => None end
  | S fuel' =>
      match min with
      | S min' => m s (fun s' => repeatMatcher m greedy k fuel' min' s')
      | O =>
          let again :=
            m s (fun s' =>
              if (length s' <? length s)%nat
              then repeatMatcher m greedy k fuel' O s'
              else None) in
          if greedy then
            match again with Some e => Some e | None => k s end
          else
            match k s with Some e => Some e | None => again end
      end
  end.

Fixpoint matcher (r : regex) (s : jsstring) (k : continuation) : option jsstring :=
  match r with
  | Class p =>
      match s with
      | c :: s' => if p c then k s' else None
      | [] => None
      end
  | Seq r1 r2 => matcher r1 s (fun s' => matcher r2 s' k)
  | Alt r1 r2 =>
      match matcher r1 s k with
      | Some e => Some e
      | None => matcher r2 s k
      end
  | Rep min greedy r' =>
      repeatMatcher (matcher r') greedy k (min + length s)%nat min s
  | Lookahead r' =>
      match matcher r' s Some with
      | Some _ => k s
      | None => None
      end
  | EndAnchor => match s with [] => k s | _ :: _ => None end
  | Group r' => matcher r' s k
  end.

(** RegExpBuiltinExec without the sticky flag: the first position from
    which the pattern matches.  The result is the matched text and the input
    after it. *)
Fixpoint exec (r : regex) (s : jsstring) : option (jsstring * jsstring) :=
  match matcher r s Some with
  | Some rest => Some (take (length s - length rest) s, rest)
  | None =>
      match s with
      | _ :: s' => exec r s'
      | [] => None
      end
  end.

(** The loop of [String.prototype.match] for a pattern with the [g] flag:
    all matches from left to right, each search starting where the previous
    match ended, one code unit further after an empty match. *)
Fixpoint matchLoop (fuel : nat) (r : regex) (s : jsstring) : list jsstring :=
  match fuel with
  | O => []
  | S fuel' =>
      match exec r s with
      | None => []
      | Some (mt, rest) =>
          mt :: match mt, rest with
                | _ :: _, _ => matchLoop fuel' r rest
                | [], _ :: rest' => matchLoop fuel' r rest'
                | [], [] => []
                end
      end
  end.

(** [s.match(r)] for [r] with the [g] flag: [None] is [null]. *)
Definition matchGlobal (r : regex) (s : jsstring) : option (list jsstring) :=
  match matchLoop (S (length s)) r s with
  | [] => None
  | ms => Some ms
  end.

End Regex.
Import Regex.

(* ===================================================================== *)
(** ** Exceptions and arrays *)
(* ===================================================================== *)

Inductive exn := TypeError.

(** The outcome of running a piece of code: a value, or a thrown exception. *)
Inductive result (A : Type) :=
| Ok (a : A)
| Throw (e : exn).
Arguments Ok {A} a.
Arguments Throw {A} e.

#[global] Instance result_ret : MRet result := fun A a => Ok a.
#[global] Instance result_bind : MBind result :=
  fun A B f r => match r with Ok a => f a | Throw e => Throw e end.
#[global] Instance result_fmap : FMap result :=
  fun A B f r => match r with Ok a => Ok (f a) | Throw e => Throw e end.

(** [arr[i]] followed by a use of the element as an object ([.value],
    [.replace(...)], ...): reading a property of [undefined] throws. *)
Definition elem {A} (arr : list A) (i : Z) : result A :=
  if i <? 0 then Throw TypeError
  else match arr !! Z.to_nat i with
       | Some x => Ok x
       | None => Throw TypeError
       end.

(** ToNumber of an array element that may be [undefined]. *)
Definition toNumber (v : option number) : number :=
  match v with Some x => x | None => NaN end.

Section Sort.
Context {A : Type}.

(** SortCompare on the value a comparator returned: NaN counts as [+0]. *)
Definition SortCompare (v : option Z) : Z :=
  match v with Some z => z | None => 0 end.

Variable comparefn : A -> A -> option Z.

(** [x] goes after [y] when the comparator says [x > y]. *)
Definition after (x y : A) : bool := 0 <? SortCompare (comparefn x y).

Fixpoint insert (x : A) (l : list A) : list A :=
  match l with
  | [] => [x]
  | y :: l' => if after x y then y :: insert x l' else x :: l
  end.

(** [arr.sort(comparefn)].  The language requires the sort to be stable and
    leaves the order open when the comparator is not a consistent ordering
    of the elements.  The embedding is the stable insertion sort: for a
    consistent comparator it is the order every implementation must give. *)
Definition sort (l : list A) : list A := foldr insert [] l.

(** Two neighbours [x], [y] of a sorted array: the comparator does not put
    [x] after [y]. *)
Definition inOrder (x y : A) : Prop := after x y = false.

End Sort.

(** The comparison [arr.sort()] uses on strings. *)
Definition defaultCompare (x y : jsstring) : option Z :=
  if Str.ltb x y then Some (-1) else if Str.ltb y x then Some 1 else Some 0.

(* ===================================================================== *)
(** ** The data model ([src/types.ts]) *)
(* ===================================================================== *)

Record StockDataPoint := {
  date : jsstring;
  dateObj : Date;
  value : number;
  index : option number          (* [index?: number] *)
}.

Record MonthlyGrowth := {
  month : jsstring;
  startValue : number;
  endValue : number;
  growth : number;
  growthPercent : number
}.

(* ===================================================================== *)
(** ** [parseCSV] *)
(* ===================================================================== *)

(** The tokenizer's pattern, [/(Q.*?Q|[^Q,\s]+)(?=\s*,|\s*$)/] where [Q]
    stands for the double quote character. *)
Definition tokenRegex : regex :=
  Seq (Group (Alt (Seq (Class (N.eqb QUOTE))
                       (Seq (Rep 0 false (Class (fun c => negb (isLineTerminator c))))
                            (Class (N.eqb QUOTE))))
                  (Rep 1 true
                     (Class (fun c =>
                        negb ((c =? QUOTE)%N || (c =? COMMA)%N || isWhiteSpace c))))))
      (Lookahead (Alt (Seq (Rep 0 true (Class isWhiteSpace)) (Class (N.eqb COMMA)))
                      (Seq (Rep 0 true (Class isWhiteSpace)) EndAnchor))).

(** The two [replace] calls of the source: every double quote is removed,
    then every comma. *)
Definition stripQuotesAndCommas (s : jsstring) : jsstring :=
  removeAll COMMA (removeAll QUOTE s).

(** [(a, b) => a.dateObj.getTime() - b.dateObj.getTime()]: the difference
    of two time values, NaN when a date is invalid.  Time values are
    integers of magnitude at most 8.64e15, so the binary64 difference has the
    sign of the exact one, and the sort reads nothing but the sign. *)
Definition byDate (a b : StockDataPoint) : option Z :=
  match getTime (dateObj a), getTime (dateObj b) with
  | Some ta, Some tb => Some (ta - tb)
  | _, _ => None
  end.

(** The callback of [dataLines.map]: a point, or [null] ([None]). *)
Definition parseLine (line : jsstring) : result (option StockDataPoint) :=
  match matchGlobal tokenRegex line with
  | None => Ok None
  | Some matches =>
      if (length matches <? 2)%nat then Ok None
      else
        dateStr ← elem matches 0;
        m1 ← elem matches 1;
        let valueStr := stripQuotesAndCommas m1 in
        let parts := map Number (split SLASH dateStr) in
        let year := parts !! 0%nat in
        let month := parts !! 1%nat in
        let day := parts !! 2%nat in
        let dateObj := newDate (toNumber year) (sub (toNumber month) (num 1)) (toNumber day) in
        indexVal ←
          (if (3 <=? length matches)%nat then
             m2 ← elem matches 2;
             let indexStr := stripQuotesAndCommas m2 in
             let parsed := parseFloat indexStr in
             Ok (if negb (isNaN parsed) then Some parsed else None)
           else Ok None);
        Ok (Some {| date := dateStr; dateObj := dateObj;
                    value := parseInt10 valueStr; index := indexVal |})
  end.

(** [parsedData.filter(item => item !== null)] *)
Definition dropNull {A} (l : list (option A)) : list A := omap id l.

Definition parseCSV (csvContent : jsstring) : result (list StockDataPoint) :=
  let lines := split LF (trim csvContent) in
  let dataLines := drop 1 lines in
  parsedData ← mapM parseLine dataLines;
  Ok (sort byDate (dropNull parsedData)).

(* ===================================================================== *)
(** ** [calculateMonthlyGrowth] *)
(* ===================================================================== *)

(** *** The store of arrays

    The function fills one array per month and sorts these arrays in place,
    reaching each of them through [grouped[key]] more than once; its
    argument is an array of the caller.  Arrays of points therefore live in
    a store, by address; a new array gets the next free address.  The points
    themselves are never assigned to, so an array holds them by value. *)

Abbreviation loc := nat.
Abbreviation store := (list (list StockDataPoint)).

(** A computation on the store that may throw. *)
Definition M (A : Type) : Type := store -> result (A * store).

#[global] Instance M_ret : MRet M := fun A a st => Ok (a, st).
#[global] Instance M_bind : MBind M :=
  fun A B f m st =>
    match m st with
    | Ok (a, st') => f a st'
    | Throw e => Throw e
    end.

Definition lift {A} (r : result A) : M A :=
  fun st => match r with Ok a => Ok (a, st) | Throw e => Throw e end.

(** [[]]: a new empty array. *)
Definition newArray : M loc :=
  fun st => Ok (length st, st ++ [[]]).

(** The elements of the array at [a], as they are now. *)
Definition readArray (a : loc) : M (list StockDataPoint) :=
  fun st => match st !! a with
            | Some l => Ok (l, st)
            | None => Throw TypeError
            end.

(** [a.push(p)] *)
Definition push (a : loc) (p : StockDataPoint) : M unit :=
  fun st => match st !! a with
            | Some l => Ok (tt, <[a := l ++ [p]]> st)
            | None => Throw TypeError
            end.

(** [a.sort(comparefn)]: in place. *)
Definition sortArray (comparefn : StockDataPoint -> StockDataPoint -> option Z)
    (a : loc) : M unit :=
  fun st => match st !! a with
            | Some l => Ok (tt, <[a := sort comparefn l]> st)
            | None => Throw TypeError
            end.

(** *** The object [grouped]

    A [Record<string, StockDataPoint[]>]: its string keys in the order of
    their creation (the order [Object.keys] lists them in), each with the
    address of its array. *)
Abbreviation object := (list (jsstring * loc)).

(** [o[key]]: [None] is [undefined]. *)
Fixpoint getProp (o : object) (key : jsstring) : option loc :=
  match o with
  | [] => None
  | (k, v) :: o' => if decide (k = key) then Some v else getProp o' key
  end.

(** [o[key]] used as an array ([.push], [.sort]): [undefined] throws. *)
Definition getArray (o : object) (key : jsstring) : result loc :=
  match getProp o key with
  | Some a => Ok a
  | None => Throw TypeError
  end.

(** The template literal of the source: the full year, a dash, and the
    month number padded to two digits. *)
Definition monthKeyOf (point : StockDataPoint) : jsstring :=
  intToString (getFullYear (dateObj point))
  ++ lit "-"
  ++ padStart0 2 (intToString ((fun m => m + 1) <$> getMonth (dateObj point))).

(** The callback of [data.forEach]. *)
Definition groupPoint (grouped : object) (point : StockDataPoint) : M object :=
  let key := monthKeyOf point in
  grouped ←
    match getProp grouped key with
    | None => a ← newArray; mret (grouped ++ [(key, a)])
    | Some _ => mret grouped
    end;
  a ← lift (getArray grouped key);
  push a point;;
  mret grouped.

Fixpoint forEach {A S} (f : S -> A -> M S) (s : S) (l : list A) : M S :=
  match l with
  | [] => mret s
  | x :: l' => s' ← f s x; forEach f s' l'
  end.

(** [arr.map((x, index) => ...)] from index [i] on. *)
Fixpoint mapWithIndex {A B} (f : A -> Z -> M B) (i : Z) (l : list A) : M (list B) :=
  match l with
  | [] => mret []
  | x :: l' => y ← f x i; ys ← mapWithIndex f (i + 1) l'; mret (y :: ys)
  end.

(** The callback of [monthKeys.map]. *)
Definition growthOfMonth (grouped : object) (monthKeys : list jsstring)
    (monthKey : jsstring) (idx : Z) : M MonthlyGrowth :=
  points ← lift (getArray grouped monthKey);
  sortArray byDate points;;
  pts ← readArray points;
  lastPoint ← lift (elem pts (Z.of_nat (length pts) - 1));
  let currentEndValue := value lastPoint in
  previousEndValue ←
    (if idx =? 0 then
       firstPoint ← lift (elem pts 0);
       mret (value firstPoint)
     else
       prevMonthKey ← lift (elem monthKeys (idx - 1));
       prevPoints ← lift (getArray grouped prevMonthKey);
       sortArray byDate prevPoints;;
       ppts ← readArray prevPoints;
       prevLast ← lift (elem ppts (Z.of_nat (length ppts) - 1));
       mret (value prevLast));
  let growth := sub currentEndValue previousEndValue in
  let growthPercent :=
    if strictNe previousEndValue (num 0)
    then mul (div growth previousEndValue) (num 100)
    else num 0 in
  mret {| month := monthKey;
          startValue := previousEndValue;
          endValue := currentEndValue;
          growth := growth;
          growthPercent := growthPercent |}.

(** The function, on the address of its argument. *)
Definition calculateMonthlyGrowth (data : loc) : M (list MonthlyGrowth) :=
  points ← readArray data;
  grouped ← forEach groupPoint [] points;
  let monthKeys := sort defaultCompare (map fst grouped) in
  mapWithIndex (growthOfMonth grouped monthKeys) 0 monthKeys.

(** The function called on a fresh array holding [data]: its result. *)
Definition monthlyGrowthOf (data : list StockDataPoint) : result (list MonthlyGrowth) :=
  fst <$> calculateMonthlyGrowth 0%nat [data].

(* ===================================================================== *)
(** ** [calculateMonthlyGrowth] as a function on lists

    What the store computation returns (theorem [calculateMonthlyGrowth_run]):
    the months' arrays as a list of buckets, and the records read off them. *)
(* ===================================================================== *)

(** The months seen so far, in the order of their first point, each with its
    points in the order they came. *)
Abbreviation buckets_t := (list (jsstring * list StockDataPoint)).

Fixpoint addToBucket (key : jsstring) (p : StockDataPoint) (G : buckets_t) : buckets_t :=
  match G with
  | [] => [(key, [p])]
  | (k, b) :: G' =>
      if decide (k = key) then (k, b ++ [p]) :: G'
      else (k, b) :: addToBucket key p G'
  end.

Definition bucketsFrom (G : buckets_t) (data : list StockDataPoint) : buckets_t :=
  fold_left (fun G p => addToBucket (monthKeyOf p) p G) data G.

Definition buckets (data : list StockDataPoint) : buckets_t := bucketsFrom [] data.

Fixpoint bucketOf (G : buckets_t) (key : jsstring) : list StockDataPoint :=
  match G with
  | [] => []
  | (k, b) :: G' => if decide (k = key) then b else bucketOf G' key
  end.

(** The position of a key among the buckets. *)
Fixpoint keyIndex (key : jsstring) (G : buckets_t) : option nat :=
  match G with
  | [] => None
  | (k, _) :: G' => if decide (k = key) then Some O else S <$> keyIndex key G'
  end.

(** The object [grouped] for the buckets [G] when their arrays were
    allocated from address [base] on. *)
Fixpoint objectOf (base : nat) (G : buckets_t) : object :=
  match G with
  | [] => []
  | (k, _) :: G' => (k, base) :: objectOf (S base) G'
  end.

(** The arrays of the buckets once the months [done] have been sorted. *)
Definition arraysAfter (done : list jsstring) (G : buckets_t) : list (list StockDataPoint) :=
  map (fun kb => if decide (kb.1 ∈ done) then sort byDate kb.2 else kb.2) G.

Definition firstValue (l : list StockDataPoint) : number :=
  match l with p :: _ => value p | [] => NaN end.

Definition lastValue (l : list StockDataPoint) : number :=
  match last l with Some p => value p | None => NaN end.

Definition growthRecord (monthKey : jsstring) (previousEndValue currentEndValue : number)
  : MonthlyGrowth :=
  let growth := sub currentEndValue previousEndValue in
  {| month := monthKey;
     startValue := previousEndValue;
     endValue := currentEndValue;
     growth := growth;
     growthPercent :=
       if strictNe previousEndValue (num 0)
       then mul (div growth previousEndValue) (num 100)
       else num 0 |}.

(** The record of the month at position [i] of the sorted keys. *)
Definition monthRecord (G : buckets_t) (monthKeys : list jsstring)
    (i : nat) (monthKey : jsstring) : MonthlyGrowth :=
  let points := sort byDate (bucketOf G monthKey) in
  let previousEndValue :=
    match i with
    | O => firstValue points
    | S i' =>
        match monthKeys !! i' with
        | Some prevMonthKey => lastValue (sort byDate (bucketOf G prevMonthKey))
        | None => NaN
        end
    end in
  growthRecord monthKey previousEndValue (lastValue points).

Definition monthlyGrowthFun (data : list StockDataPoint) : list MonthlyGrowth :=
  let G := buckets data in
  let monthKeys := sort defaultCompare (map fst G) in
  imap (monthRecord G monthKeys) monthKeys.

(** The calendar month of a date, as the pair the month key is made of:
    the full year and the month (0 to 11), both NaN for an invalid date. *)
Definition yearMonth (d : Date) : option Z * option Z := (getFullYear d, getMonth d).

(** The month key of a pair of full year and month. *)
Definition formatKey (ym : option Z * option Z) : jsstring :=
  intToString ym.1 ++ lit "-" ++ padStart0 2 (intToString ((fun m => m + 1) <$> ym.2)).

(* ===================================================================== *)
(** ** The vocabulary of the properties *)
(* ===================================================================== *)

(** [lines.slice(1)] of [parseCSV]: the lines after the header. *)
Definition dataLinesOf (csvContent : jsstring) : list jsstring :=
  drop 1 (split LF (trim csvContent)).

(** The number of tokens the pattern finds on a line. *)
Definition tokenCount (line : jsstring) : nat :=
  match matchGlobal tokenRegex line with
  | Some matches => length matches
  | None => O
  end.

(** The index field of a row, from its tokens after the first two. *)
Definition indexOfTokens (rest : list jsstring) : option number :=
  match rest with
  | m2 :: _ =>
      let parsed := parseFloat (stripQuotesAndCommas m2) in
      if negb (isNaN parsed) then Some parsed else None
  | [] => None
  end.

(** The calendar date of a date token. *)
Definition dateOfToken (dateStr : jsstring) : Date :=
  let parts := map Number (split SLASH dateStr) in
  newDate (toNumber (parts !! 0%nat))
          (sub (toNumber (parts !! 1%nat)) (num 1))
          (toNumber (parts !! 2%nat)).

(** What [parseLine] returns (lemma [parseLine_fun]). *)
Definition pointOfLine (line : jsstring) : option StockDataPoint :=
  match matchGlobal tokenRegex line with
  | Some (dateStr :: m1 :: rest) =>
      Some {| date := dateStr;
              dateObj := dateOfToken dateStr;
              value := parseInt10 (stripQuotesAndCommas m1);
              index := indexOfTokens rest |}
  | _ => None
  end.

(** [a.calendarDate <= b.calendarDate]: the comparison of two time values,
    which is false as soon as one of them is NaN. *)
Definition dateLe (a b : StockDataPoint) : Prop :=
  match getTime (dateObj a), getTime (dateObj b) with
  | Some ta, Some tb => ta <= tb
  | _, _ => False
  end.

(** The point's calendar date is the time value [t]. *)
Definition onDate (t : Z) (p : StockDataPoint) : Prop :=
  getTime (dateObj p) = Some t.

#[global] Instance onDate_dec t p : Decision (onDate t p).
Proof. unfold onDate. apply _. Defined.

Definition validDate (p : StockDataPoint) : Prop := dateObj p <> InvalidDate.

(** A Number that is neither NaN nor an infinity. *)
Definition finite (x : number) : Prop := isFinite x = true.

(** The code units of a list of decimal digits. *)
Definition digitChars (ds : list N) : jsstring := map (fun d => (48 + d)%N) ds.

(** *** The texts of the scenarios *)

(** A token in double quotes. *)
Definition quoted (s : jsstring) : jsstring := QUOTE :: s ++ [QUOTE].

(** Scenario A: three rows over two months, the text ending in a line feed. *)
Definition scenarioA : jsstring :=
  unlines [lit "Date,Value"; lit "2024/01/01,1000"; lit "2024/01/31,1100";
           lit "2024/02/29,1210"; []].

(** Scenario B: a line of one token between two rows, and the same text
    without that line. *)
Definition scenarioB : jsstring :=
  unlines [lit "Date,Value"; lit "2024/01/01,1000"; lit "garbage"; lit "2024/01/31,1100"].

Definition scenarioB_clean : jsstring :=
  unlines [lit "Date,Value"; lit "2024/01/01,1000"; lit "2024/01/31,1100"].

(** Scenario C: a quoted value with thousands separators, then a value with
    a fraction and a negative one. *)
Definition scenarioC : jsstring :=
  unlines [lit "Date,Value";
           lit "2024/01/01," ++ quoted (lit "35,000,000");
           lit "2024/01/02,1234.56";
           lit "2024/01/03,-12.9"].

(** Scenario D: a quoted index with a thousands separator, a row without
    the third column, and a row whose third token is no number. *)
Definition scenarioD : jsstring :=
  unlines [lit "Date,Value,Index";
           lit "2024/01/01,1000," ++ quoted (lit "4,500.25");
           lit "2024/01/02,2000";
           lit "2024/01/03,3000,n/a"].

(** The two code units of the month in the key of a valid date. *)
Definition monthField (m : Z) : jsstring :=
  padStart0 2 (intToString (Some (m + 1))).

(** A text with a row whose date token is no date, between two rows that
    are out of order. *)
Definition scenarioInvalidDate : jsstring :=
  unlines [lit "Date,Value"; lit "2024/02/29,1210"; lit "n/a,5"; lit "2024/01/31,1100"].

(** A text with a row whose value token is no number. *)
Definition scenarioNoValue : jsstring :=
  unlines [lit "Date,Value"; lit "2024/01/01,n/a"].

(** A text with a row in the year 999 (written 0999) and a row in the year
    1000. *)
Definition scenarioYear999 : jsstring :=
  unlines [lit "Date,Value"; lit "0999/06/01,100"; lit "1000/01/01,200"].

(** A valid date in a year of four digits. *)
Definition fourDigitYear (d : Date) : Prop :=
  exists t, d = DateAt t /\ 1000 <= YearFromTime t <= 9999.

(** The order of calendar months: by year, then by month. *)
Definition monthBefore (a b : option Z * option Z) : Prop :=
  match a, b with
  | (Some y, Some m), (Some y', Some m') => y < y' \/ (y = y' /\ m < m')
  | _, _ => False
  end.

(** The four decimal digits of a year from 1000 to 9999, as code units. *)
Definition yearDigits (y : Z) : jsstring :=
  map (fun d => (48 + Z.to_N d)%N) [y / 1000; (y / 100) mod 10; (y / 10) mod 10; y mod 10].

(** The calendar month of the points of a bucket, read off its first point. *)
Definition monthOfBucket (G : buckets_t) (key : jsstring) : option Z * option Z :=
  match bucketOf G key with
  | p :: _ => yearMonth (dateObj p)
  | [] => (None, None)
  end.

(** Scenario E: a single data row. *)
Definition scenarioE : jsstring :=
  unlines [lit "Date,Value"; lit "2024/03/15,500"].

(** A matcher that calls its continuation on nothing but ends of its input,
    and answers what the continuation answered. *)
Definition wellBehaved (m : jsstring -> continuation -> option jsstring) : Prop :=
  (forall s k e, m s k = Some e -> exists s', suffix s' s /\ k s' = Some e)
  /\ (forall s k k', (forall s', suffix s' s -> k s' = k' s') -> m s k = m s k').

(** A text with the values 1 and 10^308, both finite Numbers. *)
Definition scenarioHuge : jsstring :=
  unlines [lit "Date,Value"; lit "2024/01/01,1";
           lit "2024/01/02,1" ++ repeat 48%N (Z.to_nat 308)].

(* ===================================================================== *)
(** ** The chart component ([StockCharts])

    The component keeps a date range (two strings of the date inputs) and
    the active range button in its state; the handlers below are the
    state's transitions, and the memoized values are functions of the
    properties and the state.  The component copies a Date object before it
    changes it ([new Date(d)] and then a setter), so that no Date of the data
    is ever written to: a Date stays a value here. *)
(* ===================================================================== *)

(** *** More of the Date object *)

Definition TimeWithinDay (t : Z) : Z := t mod msPerDay.

Definition DateFromTime (t : Z) : Z :=
  DayWithinYear t - monthStart (MonthFromTime t) (InLeapYear (YearFromTime t)) + 1.

Definition getDate (d : Date) : option Z :=
  match d with DateAt t => Some (DateFromTime t) | InvalidDate => None end.

(** [new Date(d)] for a Date object [d]: a new object with its time value. *)
Definition copyDate (d : Date) : Date :=
  match d with DateAt t => TimeClip t | InvalidDate => InvalidDate end.

(** The object after [d.setHours(0, 0, 0, 0)]. *)
Definition setHours0 (d : Date) : Date :=
  match d with
  | DateAt t => TimeClip (Day t * msPerDay + 0)
  | InvalidDate => InvalidDate
  end.

(** The object after [d.setDate(dt)], for [dt] an integer or NaN. *)
Definition setDate (d : Date) (dt : option Z) : Date :=
  match d, dt with
  | DateAt t, Some n =>
      TimeClip (MakeDay (YearFromTime t) (MonthFromTime t) n * msPerDay + TimeWithinDay t)
  | _, _ => InvalidDate
  end.

(** The object after [d.setMonth(m)], for [m] an integer or NaN. *)
Definition setMonth (d : Date) (m : option Z) : Date :=
  match d, m with
  | DateAt t, Some n =>
      TimeClip (MakeDay (YearFromTime t) n (DateFromTime t) * msPerDay + TimeWithinDay t)
  | _, _ => InvalidDate
  end.

(** [new Date(year, month, day)] for [year] an integer or NaN and integers
    [month] and [day]. *)
Definition newDateOfInts (year : option Z) (month day : Z) : Date :=
  match year with
  | Some y => TimeClip (MakeDay (MakeFullYear y) month day * msPerDay)
  | None => InvalidDate
  end.

(** [a >= b] and [a <= b] on the results of [getTime()]: false with NaN. *)
Definition timeGe (a b : option Z) : bool :=
  match a, b with Some x, Some y => y <=? x | _, _ => false end.

Definition timeLe (a b : option Z) : bool :=
  match a, b with Some x, Some y => x <=? y | _, _ => false end.

(** *** The helpers of the date inputs *)

Definition formatDateForInput (date : Date) : jsstring :=
  let y := getFullYear date in
  let m := padStart0 2 (intToString ((fun x => x + 1) <$> getMonth date)) in
  let d := padStart0 2 (intToString (getDate date)) in
  intToString y ++ lit "-" ++ m ++ lit "-" ++ d.

(** [now] is what [new Date()] gives at the time of the call. *)
Definition parseInputDate (now : Date) (dateStr : jsstring) : Date :=
  match dateStr with
  | [] => now
  | _ =>
      let parts := map Number (split MINUS dateStr) in
      let y := parts !! 0%nat in
      let m := parts !! 1%nat in
      let d := parts !! 2%nat in
      newDate (toNumber y) (sub (toNumber m) (num 1)) (toNumber d)
  end.

(** *** The state and its transitions *)

Inductive TimeRange := R1D | R7D | R1M | R3M | RYTD | RALL.

Inductive ActiveRange :=
| Preset (range : TimeRange)
| Custom.

Record ChartState := {
  rangeStart : jsstring;          (* [dateRange.start] *)
  rangeEnd : jsstring;            (* [dateRange.end] *)
  activeRange : ActiveRange
}.

(** The state of a new component. *)
Definition initialChartState : ChartState :=
  {| rangeStart := []; rangeEnd := []; activeRange := Preset RALL |}.

Definition isAll (a : ActiveRange) : bool :=
  match a with Preset RALL => true | _ => false end.

Definition isEmpty (s : jsstring) : bool :=
  match s with [] => true | _ :: _ => false end.

(** The effect that runs when the data or the active range changes. *)
Definition initDatesEffect (data : list StockDataPoint) (st : ChartState)
  : result ChartState :=
  if (0 <? length data)%nat then
    if isAll (activeRange st) || isEmpty (rangeStart st) then
      firstPoint ← elem data 0;
      lastPoint ← elem data (Z.of_nat (length data) - 1);
      Ok {| rangeStart := formatDateForInput (dateObj firstPoint);
            rangeEnd := formatDateForInput (dateObj lastPoint);
            activeRange := activeRange st |}
    else Ok st
  else Ok st.

Definition handleRangeClick (data : list StockDataPoint) (range : TimeRange)
    (st : ChartState) : result ChartState :=
  let st := {| rangeStart := rangeStart st; rangeEnd := rangeEnd st;
               activeRange := Preset range |} in
  if (length data =? 0)%nat then Ok st
  else
    lastPoint ← elem data (Z.of_nat (length data) - 1);
    let endObj := dateObj lastPoint in
    let startObj := copyDate endObj in
    startObj ←
      match range with
      | R1D => Ok (setDate startObj ((fun x => x - 1) <$> getDate endObj))
      | R7D => Ok (setDate startObj ((fun x => x - 7) <$> getDate endObj))
      | R1M => Ok (setMonth startObj ((fun x => x - 1) <$> getMonth endObj))
      | R3M => Ok (setMonth startObj ((fun x => x - 3) <$> getMonth endObj))
      | RYTD => Ok (newDateOfInts (getFullYear endObj) 0 1)
      | RALL => firstPoint ← elem data 0; Ok (dateObj firstPoint)
      end;
    Ok {| rangeStart := formatDateForInput startObj;
          rangeEnd := formatDateForInput endObj;
          activeRange := Preset range |}.

(** [handleManualDateChange('start', value)] and [('end', value)] *)
Definition handleManualStart (value : jsstring) (st : ChartState) : ChartState :=
  {| rangeStart := value; rangeEnd := rangeEnd st; activeRange := Custom |}.

Definition handleManualEnd (value : jsstring) (st : ChartState) : ChartState :=
  {| rangeStart := rangeStart st; rangeEnd := value; activeRange := Custom |}.

(** *** The memoized values *)

(** The predicate of the filter in [chartData]. *)
Definition inRange (start end_ : Date) (d : StockDataPoint) : bool :=
  let dTime := setHours0 (copyDate (dateObj d)) in
  let startTime := setHours0 (copyDate start) in
  let endTime := setHours0 (copyDate end_) in
  timeGe (getTime dTime) (getTime startTime) && timeLe (getTime dTime) (getTime endTime).

Definition chartData (now : Date) (data : list StockDataPoint) (st : ChartState)
  : list StockDataPoint :=
  if (length data =? 0)%nat then []
  else if isEmpty (rangeStart st) || isEmpty (rangeEnd st) then data
  else
    let start := parseInputDate now (rangeStart st) in
    let end_ := parseInputDate now (rangeEnd st) in
    List.filter (inRange start end_) data.

(** [arr.filter((x, index) => ...)] from index [i] on. *)
Fixpoint filterWithIndex {A} (f : A -> Z -> bool) (i : Z) (l : list A) : list A :=
  match l with
  | [] => []
  | x :: l' => if f x i then x :: filterWithIndex f (i + 1) l'
               else filterWithIndex f (i + 1) l'
  end.

(** [m.growth === 0] *)
Definition strictEq (x y : number) : bool := SFeqb x y.

Definition barChartData (monthlyData : list MonthlyGrowth) : list MonthlyGrowth :=
  filterWithIndex
    (fun m idx => if (idx =? 0) && strictEq (growth m) (num 0) then false else true)
    0 monthlyData.

(** [data.some(d => d.index !== undefined)] *)
Definition hasIndexData (data : list StockDataPoint) : bool :=
  existsb (fun d => match index d with Some _ => true | None => false end) data.


(** *** Vocabulary for the chart *)

(** The two code units of the day of the month in a date input. *)
Definition dayField (d : Z) : jsstring := padStart0 2 (intToString (Some d)).

(** What every Date object satisfies: its time value is one that [TimeClip]
    accepts. *)
Definition properDate (d : Date) : Prop :=
  match d with
  | DateAt t => Z.abs t <= 8640000000000000
  | InvalidDate => True
  end.

(** The point has a valid date, on a day from day [lo] to day [hi]. *)
Definition withinDays (lo hi : Z) (p : StockDataPoint) : Prop :=
  match dateObj p with
  | DateAt u => lo <= Day u <= hi
  | InvalidDate => False
  end.

#[global] Instance withinDays_dec lo hi p : Decision (withinDays lo hi p).
Proof. unfold withinDays. destruct (dateObj p); apply _. Defined.

(** The points of Scenario A, and a range typed into the two date inputs. *)
Definition scenarioA_points : list StockDataPoint :=
  omap pointOfLine (dataLinesOf scenarioA).

Definition typedRange : ChartState :=
  handleManualEnd (lit "2024-02-29") (handleManualStart (lit "2024-01-15") initialChartState).

(* ===================================================================== *)
(** ** The table of the current month ([StockCharts]) *)
(* ===================================================================== *)

(** [a === b] on the results of two getters: false as soon as one is NaN. *)
Definition numEq (a b : option Z) : bool :=
  match a, b with Some x, Some y => x =? y | _, _ => false end.

(** [s === t] on strings *)
Definition strEq (s t : jsstring) : bool := bool_decide (s = t).

(** [arr.findIndex(f)]: the first index whose element satisfies [f], or -1. *)
Fixpoint findIndexFrom {A} (f : A -> bool) (i : Z) (l : list A) : Z :=
  match l with
  | [] => -1
  | x :: l' => if f x then i else findIndexFrom f (i + 1) l'
  end.

Definition findIndex {A} (f : A -> bool) (l : list A) : Z := findIndexFrom f 0 l.

(** [arr.slice(start, end)] on integers: a negative argument counts from
    the end of the array. *)
Definition slice {A} (l : list A) (start end_ : Z) : list A :=
  let len := Z.of_nat (length l) in
  let k := if start <? 0 then Z.max (len + start) 0 else Z.min start len in
  let final := if end_ <? 0 then Z.max (len + end_) 0 else Z.min end_ len in
  take (Z.to_nat (final - k)) (drop (Z.to_nat k) l).

(** A row of the table: the point ([...item]) and what is added to it. *)
Record TableRow := {
  item : StockDataPoint;
  valueChange : number;
  indexChange : number;
  trendHistory : list StockDataPoint
}.

(** The callback of [currentMonthItems.map]. *)
Definition augment (data : list StockDataPoint) (it : StockDataPoint) : result TableRow :=
  let indexInFull := findIndex (fun d => strEq (date d) (date it)) data in
  if 0 <=? indexInFull then
    changes ←
      (if 0 <? indexInFull then
         prevItem ← elem data (indexInFull - 1);
         let valueChange := sub (value it) (value prevItem) in
         let indexChange :=
           match index it, index prevItem with
           | Some i, Some j => sub i j
           | _, _ => num 0
           end in
         Ok (valueChange, indexChange)
       else Ok (num 0, num 0));
    let startIndex := Z.max 0 (indexInFull - 6) in
    Ok {| item := it; valueChange := changes.1; indexChange := changes.2;
          trendHistory := slice data startIndex (indexInFull + 1) |}
  else
    Ok {| item := it; valueChange := num 0; indexChange := num 0; trendHistory := [] |}.

(** [(a, b) => b.dateObj.getTime() - a.dateObj.getTime()] *)
Definition byDateDesc (a b : TableRow) : option Z :=
  match getTime (dateObj (item b)), getTime (dateObj (item a)) with
  | Some tb, Some ta => Some (tb - ta)
  | _, _ => None
  end.

Record TableInfo := {
  tableData : list TableRow;
  monthLabel : jsstring;
  totalValueChange : number;
  totalIndexChange : number
}.

Section Table.

(** [date.toLocaleString('default', { month: 'long', year: 'numeric' })]:
    the text depends on the locale data of the host. *)
Variable toLocaleString : Date -> jsstring.

Definition currentMonthTable (data : list StockDataPoint) : result TableInfo :=
  if (length data =? 0)%nat then
    Ok {| tableData := []; monthLabel := []; totalValueChange := num 0;
          totalIndexChange := num 0 |}
  else
    lastPoint ← elem data (Z.of_nat (length data) - 1);
    let targetDate := dateObj lastPoint in
    let targetMonth := getMonth targetDate in
    let targetYear := getFullYear targetDate in
    let monthLabel := toLocaleString targetDate in
    let currentMonthItems :=
      List.filter (fun d => numEq (getMonth (dateObj d)) targetMonth
                            && numEq (getFullYear (dateObj d)) targetYear) data in
    augmentedData ← mapM (augment data) currentMonthItems;
    let totalValueChange :=
      foldl (fun acc curr => add acc (valueChange curr)) (num 0) augmentedData in
    let totalIndexChange :=
      foldl (fun acc curr => add acc (indexChange curr)) (num 0) augmentedData in
    Ok {| tableData := sort byDateDesc augmentedData;
          monthLabel := monthLabel;
          totalValueChange := totalValueChange;
          totalIndexChange := totalIndexChange |}.

End Table.

(** *** Vocabulary for the table *)

(** The point is in the calendar month of the time value [t]. *)
Definition inMonthOf (t : Z) (p : StockDataPoint) : Prop :=
  match dateObj p with
  | DateAt u => YearFromTime u = YearFromTime t /\ MonthFromTime u = MonthFromTime t
  | InvalidDate => False
  end.

#[global] Instance inMonthOf_dec t p : Decision (inMonthOf t p).
Proof. unfold inMonthOf. destruct (dateObj p); apply _. Defined.

(** Row [a] is not older than row [b]: both dates are valid. *)
Definition newerOrSame (a b : TableRow) : Prop :=
  match getTime (dateObj (item a)), getTime (dateObj (item b)) with
  | Some ta, Some tb => tb <= ta
  | _, _ => False
  end.

(* ===================================================================== *)
(** ** The key metrics ([App]) and the sparkline ([StockCharts]) *)
(* ===================================================================== *)

Definition isPosZero (x : number) : bool :=
  match x with S754_zero false => true | _ => false end.

Definition isNegZero (x : number) : bool :=
  match x with S754_zero true => true | _ => false end.

(** One step of the loop of [Math.max]: [+0] counts as larger than [-0]. *)
Definition maxStep (highest n : number) : number :=
  if isPosZero n && isNegZero highest then n
  else if SFltb highest n then n
  else highest.

(** [Math.max(...values)]: NaN as soon as a value is NaN, [-Infinity] for
    no value. *)
Definition mathMax (values : list number) : number :=
  if existsb isNaN values then NaN
  else foldl maxStep (S754_infinity true) values.

Definition minStep (lowest n : number) : number :=
  if isNegZero n && isPosZero lowest then n
  else if SFltb n lowest then n
  else lowest.

(** [Math.min(...values)] *)
Definition mathMin (values : list number) : number :=
  if existsb isNaN values then NaN
  else foldl minStep (S754_infinity false) values.



Section ToFixed.

(** [Number::toString] of a finite Number that is at least 10^21: the
    shortest digits that identify the Number, in exponent notation. *)
Variable toStringLarge : number -> jsstring.




End ToFixed.

(** The memoized [currentMonthMetric]: the last record, or [null]. *)
Definition currentMonthMetric (monthlyData : list MonthlyGrowth) : option MonthlyGrowth :=
  if (length monthlyData =? 0)%nat then None
  else monthlyData !! (length monthlyData - 1)%nat.

(** The domains of the two axes of [DualSparkline]: of the values, and of
    the indices, which stay [undefined] unless [hasIndex] holds and a
    point has an index. *)
Record SparklineDomains := {
  valMin : number;
  valMax : number;
  idxMin : option number;
  idxMax : option number
}.

Definition sparklineDomains (data : list StockDataPoint) (hasIndex : bool)
  : SparklineDomains :=
  let valMin := mathMin (map value data) in
  let valMax := mathMax (map value data) in
  let indices := omap index data in
  let idx :=
    if hasIndex then
      if (0 <? length indices)%nat then (Some (mathMin indices), Some (mathMax indices))
      else (None, None)
    else (None, None) in
  {| valMin := valMin; valMax := valMax; idxMin := idx.1; idxMax := idx.2 |}.

(** *** Vocabulary for the metrics *)

(** The place of a Number that is not NaN in the order of the Numbers: the
    keys of two such Numbers compare, first component first, as the Numbers
    do; the two zeros have one key. *)
Definition orderKey (x : number) : Z * Z * Z :=
  match x with
  | S754_infinity true => (-2, 0, 0)
  | S754_finite true m e => (-1, - e, - Zpos m)
  | S754_zero _ => (0, 0, 0)
  | S754_nan => (0, 0, 0)
  | S754_finite false m e => (1, e, Zpos m)
  | S754_infinity false => (2, 0, 0)
  end.

Definition keyLt (a b : Z * Z * Z) : Prop :=
  a.1.1 < b.1.1
  \/ (a.1.1 = b.1.1 /\ (a.1.2 < b.1.2 \/ (a.1.2 = b.1.2 /\ a.2 < b.2))).

(** [x > y] does not hold: [x] is not NaN here. *)
Definition notAbove (x y : number) : Prop := SFltb y x = false.

(* ===================================================================== *)
(** ** Loading the data ([App]) *)
(* ===================================================================== *)


(* ===================================================================== *)
(** ** Facts about [sort] *)
(* ===================================================================== *)

Section SortFacts.
Context {A : Type} (comparefn : A -> A -> option Z).

#[local] Abbreviation after := (after comparefn).
#[local] Abbreviation insert := (insert comparefn).
#[local] Abbreviation sort := (sort comparefn).
#[local] Abbreviation inOrder := (inOrder comparefn).

Lemma insert_Permutation x l : insert x l ≡ₚ x :: l.
Proof.
  induction l as [|y l IH]; simpl; [done|].
  destruct (after x y); [|done].
  rewrite IH. apply Permutation_swap.
Qed.

Lemma sort_Permutation l : sort l ≡ₚ l.
Proof.
  induction l as [|x l IH]; simpl; [done|].
  by rewrite insert_Permutation, IH.
Qed.

Lemma length_sort l : length (sort l) = length l.
Proof. apply Permutation_length, sort_Permutation. Qed.

Lemma sort_nil_inv l : sort l = [] -> l = [].
Proof.
  intros H. apply Permutation_nil_r. rewrite <- H. symmetry. apply sort_Permutation.
Qed.

Lemma elem_of_sort x l : x ∈ sort l ↔ x ∈ l.
Proof. by rewrite sort_Permutation. Qed.

Lemma insert_inOrder x l : HdRel inOrder x l -> insert x l = x :: l.
Proof.
  destruct l as [|y l]; [done|].
  intros H. apply HdRel_inv in H. simpl. unfold inOrder in H. by rewrite H.
Qed.

(** Sorting an array that is in order changes nothing. *)
Lemma sort_Sorted_id l : Sorted inOrder l -> sort l = l.
Proof.
  induction 1 as [|x l Hl IH Hx]; simpl; [done|].
  rewrite IH. by apply insert_inOrder.
Qed.

(** From here on the comparator never says both [x > y] and [y > x]. *)
Hypothesis after_asym : forall x y, after x y = true -> after y x = false.

Lemma insert_HdRel x y l :
  HdRel inOrder y l -> after x y = true -> HdRel inOrder y (insert x l).
Proof.
  intros Hy Hxy. destruct l as [|z l]; simpl.
  - constructor. by apply after_asym.
  - destruct (after x z).
    + constructor. by apply HdRel_inv in Hy.
    + constructor. by apply after_asym.
Qed.

Lemma insert_Sorted x l : Sorted inOrder l -> Sorted inOrder (insert x l).
Proof.
  induction 1 as [|y l Hl IH Hy]; simpl.
  - by repeat constructor.
  - destruct (after x y) eqn:Hxy.
    + constructor; [done|]. by apply insert_HdRel.
    + constructor; [by constructor|]. by constructor.
Qed.

Lemma sort_Sorted l : Sorted inOrder (sort l).
Proof.
  induction l as [|x l IH]; simpl; [constructor|]. by apply insert_Sorted.
Qed.

(** Sorting twice is sorting once. *)
Lemma sort_idemp l : sort (sort l) = sort l.
Proof. apply sort_Sorted_id, sort_Sorted. Qed.

End SortFacts.

Section Stability.
Context {A : Type} (comparefn : A -> A -> option Z).
Context (P : A -> Prop) `{!forall x, Decision (P x)}.

(** The elements of a class [P] that the comparator never orders among
    themselves keep their relative order. *)
Hypothesis P_ties : forall x y, P x -> P y -> after comparefn x y = false.

Lemma filter_insert x l :
  filter P (insert comparefn x l) = filter P (x :: l).
Proof.
  induction l as [|y l IH]; simpl; [done|].
  destruct (after comparefn x y) eqn:Hxy; [|done].
  rewrite !filter_cons in *.
  destruct (decide (P y)) as [Hy|Hy]; destruct (decide (P x)) as [Hx|Hx];
    try (rewrite IH; done).
  by rewrite P_ties in Hxy.
Qed.

Lemma filter_sort l : filter P (sort comparefn l) = filter P l.
Proof.
  induction l as [|x l IH]; simpl; [done|].
  rewrite filter_insert, !filter_cons, IH. done.
Qed.

End Stability.

(* ===================================================================== *)
(** ** The grouping loop *)
(* ===================================================================== *)

Section Grouping.
Implicit Types (G : buckets_t) (p : StockDataPoint) (key : jsstring).

Lemma getProp_objectOf base G key :
  getProp (objectOf base G) key = (fun i => (base + i)%nat) <$> keyIndex key G.
Proof.
  revert base. induction G as [|[k b] G IH]; intros base; simpl; [done|].
  case_decide; simpl; [f_equal; lia|].
  rewrite IH. destruct (keyIndex key G); simpl; [f_equal; lia|done].
Qed.

Lemma getProp_app_None (o : object) key a :
  getProp o key = None -> getProp (o ++ [(key, a)]) key = Some a.
Proof.
  induction o as [|[k v] o IH]; simpl; intros H.
  - by rewrite decide_True.
  - case_decide; [done|]. by apply IH.
Qed.

Lemma objectOf_snoc base G key b :
  objectOf base (G ++ [(key, b)]) = objectOf base G ++ [(key, (base + length G)%nat)].
Proof.
  revert base. induction G as [|[k b'] G IH]; intros base; simpl.
  - repeat f_equal; lia.
  - rewrite IH. simpl. repeat f_equal; lia.
Qed.

Lemma addToBucket_new key p G :
  keyIndex key G = None -> addToBucket key p G = G ++ [(key, [p])].
Proof.
  induction G as [|[k b] G IH]; simpl; [done|].
  case_decide; [done|]. intros Hn.
  destruct (keyIndex key G); [done|]. by rewrite IH.
Qed.

Lemma keyIndex_Some key G i :
  keyIndex key G = Some i ->
  exists b, G !! i = Some (key, b) /\ bucketOf G key = b.
Proof.
  revert i. induction G as [|[k b] G IH]; intros i; simpl; [done|].
  case_decide as Hk.
  - intros [= <-]. subst. by exists b.
  - destruct (keyIndex key G) as [j|]; [|done].
    intros [= <-]. by apply IH.
Qed.

Lemma keyIndex_None key G : keyIndex key G = None <-> key ∉ map fst G.
Proof.
  induction G as [|[k b] G IH]; simpl.
  - split; [intros _; apply not_elem_of_nil|done].
  - rewrite not_elem_of_cons. case_decide as Hk.
    + split; [done|]. intros [? _]. by subst.
    + destruct (keyIndex key G); simpl.
      * split; [done|]. intros [_ ?%IH]. done.
      * split; [|done]. intros _. split; [congruence|]. by apply IH.
Qed.

Lemma keyIndex_elem_of key G :
  key ∈ map fst G -> exists i, keyIndex key G = Some i.
Proof.
  intros H. destruct (keyIndex key G) as [i|] eqn:E; [by exists i|].
  by apply keyIndex_None in E.
Qed.

Lemma addToBucket_old key p G i b :
  keyIndex key G = Some i -> G !! i = Some (key, b) ->
  addToBucket key p G = <[i := (key, b ++ [p])]> G.
Proof.
  revert i. induction G as [|[k b'] G IH]; intros i; simpl; [done|].
  case_decide as Hk.
  - intros [= <-] [= -> ->]. done.
  - destruct (keyIndex key G) as [j|]; [|done].
    intros [= <-] Hj. simpl in *. f_equal. by apply IH.
Qed.

Lemma objectOf_insert base G i key b b' :
  G !! i = Some (key, b) -> objectOf base (<[i := (key, b')]> G) = objectOf base G.
Proof.
  revert base i. induction G as [|[k c] G IH]; intros base i; [done|].
  destruct i as [|i]; simpl.
  - by intros [= -> ->].
  - intros H. f_equal. by eapply IH.
Qed.

(** One call of the [forEach] callback: the point goes to the array of its
    month, which is created first when the month is new. *)
Lemma groupPoint_run (st0 : store) G p :
  groupPoint (objectOf (length st0) G) p (st0 ++ map snd G)
  = Ok (objectOf (length st0) (addToBucket (monthKeyOf p) p G),
        st0 ++ map snd (addToBucket (monthKeyOf p) p G)).
Proof.
  unfold groupPoint. set (key := monthKeyOf p).
  rewrite getProp_objectOf.
  destruct (keyIndex key G) as [i|] eqn:Hi; simpl.
  - destruct (keyIndex_Some _ _ _ Hi) as (b & Hb & _).
    unfold mbind, M_bind, mret, M_ret, lift, getArray; simpl.
    rewrite getProp_objectOf, Hi; simpl.
    unfold push.
    rewrite lookup_app_r by lia.
    replace (length st0 + i - length st0)%nat with i by lia.
    rewrite list_lookup_fmap, Hb; simpl.
    rewrite (addToBucket_old _ _ _ _ _ Hi Hb).
    rewrite (objectOf_insert _ _ _ _ _ _ Hb).
    rewrite insert_app_r_alt by lia.
    replace (length st0 + i - length st0)%nat with i by lia.
    by rewrite list_fmap_insert.
  - unfold mbind, M_bind, mret, M_ret, lift, getArray, newArray; simpl.
    rewrite getProp_app_None by (by rewrite getProp_objectOf, Hi).
    unfold push. rewrite length_app, length_map.
    rewrite (lookup_app_r (st0 ++ map snd G)) by (rewrite length_app, length_map; lia).
    rewrite length_app, length_map.
    rewrite Nat.sub_diag; simpl.
    rewrite addToBucket_new by done.
    rewrite objectOf_snoc.
    rewrite (insert_app_r_alt (st0 ++ map snd G)) by (rewrite length_app, length_map; lia).
    rewrite length_app, length_map, Nat.sub_diag; simpl.
    by rewrite map_app, app_assoc.
Qed.

Lemma forEach_groupPoint_run (st0 : store) G data :
  forEach groupPoint (objectOf (length st0) G) data (st0 ++ map snd G)
  = Ok (objectOf (length st0) (bucketsFrom G data),
        st0 ++ map snd (bucketsFrom G data)).
Proof.
  revert G. induction data as [|p data IH]; intros G; simpl; [done|].
  unfold mbind, M_bind at 1. rewrite groupPoint_run. apply IH.
Qed.

End Grouping.

(* ===================================================================== *)
(** ** The buckets *)
(* ===================================================================== *)

Section Buckets.
Implicit Types (G : buckets_t) (p : StockDataPoint) (key : jsstring).

Lemma addToBucket_keys key p G :
  map fst (addToBucket key p G)
  = map fst G ++ (if decide (key ∈ map fst G) then [] else [key]).
Proof.
  induction G as [|[k b] G IH]; simpl.
  - done.
  - destruct (decide (k = key)) as [->|Hk]; simpl.
    + destruct (decide (key ∈ key :: map fst G)) as [_|H].
      * by rewrite app_nil_r.
      * exfalso. apply H. left.
    + rewrite IH. f_equal. f_equal.
      destruct (decide (key ∈ map fst G)) as [H1|H1],
        (decide (key ∈ k :: map fst G)) as [H2|H2]; try done.
      * exfalso. apply H2. by right.
      * exfalso. apply elem_of_cons in H2 as [->|H2]; done.
Qed.

Lemma addToBucket_NoDup key p G :
  NoDup (map fst G) -> NoDup (map fst (addToBucket key p G)).
Proof.
  intros H. rewrite addToBucket_keys.
  destruct (decide (key ∈ map fst G)).
  - by rewrite app_nil_r.
  - apply NoDup_app. split_and!; [done| |apply NoDup_singleton].
    intros x Hx ->%list_elem_of_singleton. done.
Qed.

Lemma addToBucket_nonempty key p G :
  Forall (fun kb => kb.2 <> []) G -> Forall (fun kb => kb.2 <> []) (addToBucket key p G).
Proof.
  induction 1 as [|[k b] G Hb HG IH]; simpl.
  - by repeat constructor.
  - destruct (decide (k = key)); constructor; simpl; try done.
    by destruct b.
Qed.

Lemma addToBucket_keyed key p G :
  Forall (fun kb => Forall (fun q => monthKeyOf q = kb.1) kb.2) G ->
  monthKeyOf p = key ->
  Forall (fun kb => Forall (fun q => monthKeyOf q = kb.1) kb.2) (addToBucket key p G).
Proof.
  intros HG Hp. induction HG as [|[k b] G Hb HG IH]; simpl.
  - by repeat constructor.
  - destruct (decide (k = key)); constructor; simpl in *; try done.
    apply Forall_app. split; [done|]. subst. by repeat constructor.
Qed.

Lemma bucketsFrom_NoDup G data :
  NoDup (map fst G) -> NoDup (map fst (bucketsFrom G data)).
Proof.
  revert G. induction data as [|p data IH]; intros G HG; simpl; [done|].
  by apply IH, addToBucket_NoDup.
Qed.

Lemma bucketsFrom_nonempty G data :
  Forall (fun kb => kb.2 <> []) G -> Forall (fun kb => kb.2 <> []) (bucketsFrom G data).
Proof.
  revert G. induction data as [|p data IH]; intros G HG; simpl; [done|].
  by apply IH, addToBucket_nonempty.
Qed.

Lemma bucketsFrom_keyed G data :
  Forall (fun kb => Forall (fun q => monthKeyOf q = kb.1) kb.2) G ->
  Forall (fun kb => Forall (fun q => monthKeyOf q = kb.1) kb.2) (bucketsFrom G data).
Proof.
  revert G. induction data as [|p data IH]; intros G HG; simpl; [done|].
  by apply IH, addToBucket_keyed.
Qed.

Lemma bucketsFrom_keys G data key :
  key ∈ map fst (bucketsFrom G data) <-> key ∈ map fst G \/ key ∈ map monthKeyOf data.
Proof.
  revert G. induction data as [|p data IH]; intros G; simpl.
  - rewrite elem_of_nil. naive_solver.
  - rewrite IH, addToBucket_keys, elem_of_app, elem_of_cons.
    destruct (decide (monthKeyOf p ∈ map fst G)) as [Hp|Hp];
      [rewrite elem_of_nil|rewrite list_elem_of_singleton]; naive_solver.
Qed.

Lemma buckets_NoDup data : NoDup (map fst (buckets data)).
Proof. apply bucketsFrom_NoDup. constructor. Qed.

Lemma buckets_nonempty data : Forall (fun kb => kb.2 <> []) (buckets data).
Proof. by apply bucketsFrom_nonempty. Qed.

Lemma buckets_keyed data :
  Forall (fun kb => Forall (fun q => monthKeyOf q = kb.1) kb.2) (buckets data).
Proof. by apply bucketsFrom_keyed. Qed.

Lemma buckets_keys data key :
  key ∈ map fst (buckets data) <-> key ∈ map monthKeyOf data.
Proof.
  unfold buckets. rewrite bucketsFrom_keys. simpl. rewrite elem_of_nil. naive_solver.
Qed.

Lemma arraysAfter_nil G : arraysAfter [] G = map snd G.
Proof.
  unfold arraysAfter. apply map_ext. intros [k b]. simpl.
  destruct (decide (k ∈ [])) as [H|H]; [by apply elem_of_nil in H|done].
Qed.

Lemma arraysAfter_lookup done G i k b :
  G !! i = Some (k, b) ->
  arraysAfter done G !! i = Some (if decide (k ∈ done) then sort byDate b else b).
Proof. intros H. unfold arraysAfter. by rewrite list_lookup_fmap, H. Qed.

Lemma NoDup_keys_lookup G i j k b b' :
  NoDup (map fst G) -> G !! i = Some (k, b) -> G !! j = Some (k, b') -> i = j.
Proof.
  intros HG Hi Hj. eapply NoDup_lookup; [exact HG| |].
  - by rewrite list_lookup_fmap, Hi.
  - by rewrite list_lookup_fmap, Hj.
Qed.

(** Sorting the array of month [k] in place. *)
Lemma arraysAfter_sorted done G i k b :
  NoDup (map fst G) -> G !! i = Some (k, b) ->
  <[i := sort byDate b]> (arraysAfter done G) = arraysAfter (done ++ [k]) G.
Proof.
  intros HG Hi. apply list_eq. intros j.
  destruct (decide (i = j)) as [<-|Hij].
  - rewrite list_lookup_insert_eq.
    + rewrite (arraysAfter_lookup _ _ _ _ _ Hi).
      destruct (decide (k ∈ done ++ [k])) as [H|H]; [done|].
      exfalso. apply H. set_solver.
    + unfold arraysAfter. rewrite length_map. by eapply lookup_lt_Some.
  - rewrite list_lookup_insert_ne by done.
    unfold arraysAfter. rewrite !list_lookup_fmap.
    destruct (G !! j) as [[k' b']|] eqn:Hj; simpl; [|done].
    f_equal. assert (k' <> k).
    { intros ->. apply Hij. by eapply NoDup_keys_lookup. }
    destruct (decide (k' ∈ done)), (decide (k' ∈ done ++ [k]));
      try done; set_solver.
Qed.

End Buckets.

(* ===================================================================== *)
(** ** The loop over the months *)
(* ===================================================================== *)

Section Months.
Implicit Types (key : jsstring).

(** The date comparator never says both [x > y] and [y > x]. *)
Lemma byDate_asym x y : after byDate x y = true -> after byDate y x = false.
Proof.
  unfold after, byDate.
  destruct (getTime (dateObj x)), (getTime (dateObj y)); simpl; try done.
  intros H%Z.ltb_lt. apply Z.ltb_ge. lia.
Qed.

Lemma elem_first {A} (x : A) l : elem (x :: l) 0 = Ok x.
Proof. done. Qed.

Lemma elem_nat {A} (l : list A) (i : nat) x :
  l !! i = Some x -> elem l (Z.of_nat i) = Ok x.
Proof.
  intros H. unfold elem.
  destruct (Z.ltb_spec (Z.of_nat i) 0); [lia|]. by rewrite Nat2Z.id, H.
Qed.

Lemma elem_last {A} (l : list A) x :
  last l = Some x -> elem l (Z.of_nat (length l) - 1) = Ok x.
Proof.
  intros H. rewrite last_lookup in H.
  destruct l as [|y l]; [done|].
  replace (Z.of_nat (length (y :: l)) - 1) with (Z.of_nat (length l)) by (simpl; lia).
  by apply elem_nat.
Qed.

Lemma last_is_Some {A} (l : list A) : l <> [] -> exists x, last l = Some x.
Proof.
  intros H. destruct (last l) as [x|] eqn:E; [by exists x|].
  by apply last_None in E.
Qed.

Lemma sortArray_run (st0 : store) (arrs : list (list StockDataPoint)) i b :
  arrs !! i = Some b ->
  sortArray byDate (length st0 + i)%nat (st0 ++ arrs)
  = Ok (tt, st0 ++ <[i := sort byDate b]> arrs).
Proof.
  intros H. unfold sortArray.
  rewrite lookup_app_r by lia.
  replace (length st0 + i - length st0)%nat with i by lia.
  rewrite H. rewrite insert_app_r_alt by lia.
  by replace (length st0 + i - length st0)%nat with i by lia.
Qed.

Lemma readArray_run (st0 : store) (arrs : list (list StockDataPoint)) i b :
  arrs !! i = Some b ->
  readArray (length st0 + i)%nat (st0 ++ arrs) = Ok (b, st0 ++ arrs).
Proof.
  intros H. unfold readArray.
  rewrite lookup_app_r by lia.
  replace (length st0 + i - length st0)%nat with i by lia.
  by rewrite H.
Qed.

Lemma getArray_objectOf base (G : buckets_t) key i :
  keyIndex key G = Some i -> getArray (objectOf base G) key = Ok (base + i)%nat.
Proof. intros H. unfold getArray. by rewrite getProp_objectOf, H. Qed.

Variable G : buckets_t.
Hypothesis G_NoDup : NoDup (map fst G).
Hypothesis G_nonempty : Forall (fun kb => kb.2 <> []) G.

Lemma bucket_nonempty i key b : G !! i = Some (key, b) -> b <> [].
Proof.
  intros H. rewrite Forall_forall in G_nonempty.
  apply (G_nonempty (key, b)). by eapply list_elem_of_lookup_2.
Qed.

Lemma sort_bucket_last i key b :
  G !! i = Some (key, b) -> exists x, last (sort byDate b) = Some x.
Proof.
  intros H. apply last_is_Some. intros E%sort_nil_inv.
  by eapply bucket_nonempty.
Qed.

(** One call of the callback of [monthKeys.map]: the record of the month,
    and its array sorted. *)
Lemma growthOfMonth_run (st0 : store) (done todo : list jsstring) key :
  key ∈ map fst G -> key ∉ done -> (forall k, k ∈ done -> k ∈ map fst G) ->
  growthOfMonth (objectOf (length st0) G) (done ++ key :: todo) key
    (Z.of_nat (length done)) (st0 ++ arraysAfter done G)
  = Ok (monthRecord G (done ++ key :: todo) (length done) key,
        st0 ++ arraysAfter (done ++ [key]) G).
Proof.
  intros Hkey Hnew Hdone.
  destruct (keyIndex_elem_of _ _ Hkey) as [i Hi].
  destruct (keyIndex_Some _ _ _ Hi) as (b & Hb & Hbucket).
  destruct (sort_bucket_last _ _ _ Hb) as [lastPoint Hlast].
  unfold growthOfMonth, monthRecord.
  unfold mbind at 1, M_bind at 1, lift at 1.
  rewrite (getArray_objectOf _ _ _ _ Hi).
  unfold mbind at 1, M_bind at 1.
  rewrite (sortArray_run _ _ _ b).
  2:{ rewrite (arraysAfter_lookup _ _ _ _ _ Hb).
      by destruct (decide (key ∈ done)). }
  rewrite (arraysAfter_sorted _ _ _ _ _ G_NoDup Hb).
  unfold mbind at 1, M_bind at 1.
  rewrite (readArray_run _ _ _ (sort byDate b)).
  2:{ rewrite (arraysAfter_lookup _ _ _ _ _ Hb).
      destruct (decide (key ∈ done ++ [key])) as [|H]; [done|].
      exfalso. apply H. set_solver. }
  unfold mbind at 1, M_bind at 1, lift at 1.
  rewrite (elem_last _ _ Hlast).
  rewrite Hbucket.
  assert (HlastV : lastValue (sort byDate b) = value lastPoint)
    by (unfold lastValue; by rewrite Hlast).
  rewrite HlastV.
  destruct done as [|k0 done0 _] using rev_ind.
  - (* the first month *)
    simpl. unfold mbind, M_bind, lift, mret, M_ret.
    destruct (sort byDate b) as [|firstPoint rest] eqn:Hs; [done|].
    by rewrite elem_first.
  - (* a later month *)
    rewrite length_app. simpl length.
    replace (Z.of_nat (length done0 + 1) =? 0) with false
      by (symmetry; apply Z.eqb_neq; lia).
    replace (length done0 + 1)%nat with (S (length done0)) by lia.
    assert (Hprev : ((done0 ++ [k0]) ++ key :: todo) !! length done0 = Some k0).
    { rewrite <- app_assoc. by apply list_lookup_middle. }
    rewrite Hprev.
    unfold mbind at 1, M_bind at 1, mbind at 1, M_bind at 1, lift at 1.
    replace (Z.of_nat (S (length done0)) - 1) with (Z.of_nat (length done0)) by lia.
    rewrite (elem_nat _ _ _ Hprev).
    assert (Hk0 : k0 ∈ map fst G) by (apply Hdone; set_solver).
    destruct (keyIndex_elem_of _ _ Hk0) as [i0 Hi0].
    destruct (keyIndex_Some _ _ _ Hi0) as (b0 & Hb0 & Hbucket0).
    destruct (sort_bucket_last _ _ _ Hb0) as [prevLast Hprevlast].
    unfold mbind at 1, M_bind at 1, lift at 1.
    rewrite (getArray_objectOf _ _ _ _ Hi0).
    assert (Hcur : arraysAfter ((done0 ++ [k0]) ++ [key]) G !! i0 = Some (sort byDate b0)).
    { rewrite (arraysAfter_lookup _ _ _ _ _ Hb0).
      destruct (decide (k0 ∈ (done0 ++ [k0]) ++ [key])) as [|H]; [done|].
      exfalso. apply H. set_solver. }
    unfold mbind at 1, M_bind at 1.
    rewrite (sortArray_run _ _ _ _ Hcur).
    rewrite sort_idemp by apply byDate_asym.
    rewrite (list_insert_id _ _ _ Hcur).
    unfold mbind at 1, M_bind at 1.
    rewrite (readArray_run _ _ _ _ Hcur).
    unfold mbind at 1, M_bind at 1, lift at 1.
    rewrite (elem_last _ _ Hprevlast).
    unfold mbind, M_bind, mret, M_ret.
    rewrite Hbucket0.
    assert (HprevV : lastValue (sort byDate b0) = value prevLast)
      by (unfold lastValue; by rewrite Hprevlast).
    by rewrite HprevV.
Qed.

End Months.

Section Run.

Lemma mapWithIndex_growthOfMonth_run (G : buckets_t) (st0 : store)
    (monthKeys done todo : list jsstring) :
  NoDup (map fst G) -> Forall (fun kb => kb.2 <> []) G ->
  monthKeys = done ++ todo -> NoDup monthKeys ->
  (forall k, k ∈ monthKeys -> k ∈ map fst G) ->
  mapWithIndex (growthOfMonth (objectOf (length st0) G) monthKeys)
    (Z.of_nat (length done)) todo (st0 ++ arraysAfter done G)
  = Ok (imap (fun j => monthRecord G monthKeys (length done + j)) todo,
        st0 ++ arraysAfter monthKeys G).
Proof.
  intros HG Hne. revert done.
  induction todo as [|key todo IH]; intros done Hkeys Hnd Hin.
  - simpl. rewrite app_nil_r in Hkeys. by subst.
  - simpl. unfold mbind at 1, M_bind at 1.
    subst monthKeys.
    rewrite growthOfMonth_run; try done.
    + unfold mbind at 1, M_bind at 1.
      replace (Z.of_nat (length done) + 1) with (Z.of_nat (length (done ++ [key])))
        by (rewrite length_app; simpl; lia).
      replace (done ++ key :: todo) with ((done ++ [key]) ++ todo) in *
        by (by rewrite <- app_assoc).
      rewrite (IH (done ++ [key])); try done.
      unfold mret, M_ret. do 2 f_equal.
      rewrite Nat.add_0_r. f_equal.
      apply imap_ext. intros j k _. simpl.
      rewrite length_app. simpl. f_equal. lia.
    + apply Hin. set_solver.
    + apply NoDup_app in Hnd as (_ & Hnd & _).
      intros Hd. apply (Hnd _ Hd). left.
    + intros k Hk. apply Hin. set_solver.
Qed.

(** What a call of [calculateMonthlyGrowth] does: it returns the records of
    [monthlyGrowthFun], and leaves in the store, after the arrays that were
    there, one sorted array per month. *)
Theorem calculateMonthlyGrowth_run (st : store) (data : loc) (points : list StockDataPoint) :
  st !! data = Some points ->
  calculateMonthlyGrowth data st
  = Ok (monthlyGrowthFun points,
        st ++ map (fun kb => sort byDate kb.2) (buckets points)).
Proof.
  intros Hdata. unfold calculateMonthlyGrowth.
  unfold mbind at 1, M_bind at 1, readArray. rewrite Hdata.
  unfold mbind at 1, M_bind at 1.
  pose proof (forEach_groupPoint_run st [] points) as Hgroup.
  simpl in Hgroup. rewrite app_nil_r in Hgroup. rewrite Hgroup.
  fold (buckets points). set (G := buckets points).
  set (monthKeys := sort defaultCompare (map fst (objectOf (length st) G))).
  assert (Hfst : map fst (objectOf (length st) G) = map fst G).
  { generalize (length st). induction G as [|[k b] G' IH]; intros n; simpl; [done|].
    by rewrite IH. }
  rewrite <- (arraysAfter_nil G).
  pose proof (mapWithIndex_growthOfMonth_run G st monthKeys [] monthKeys) as Hrun.
  change (Z.of_nat (length [])) with 0 in Hrun.
  change (length (@nil jsstring) + ?j)%nat with j in Hrun.
  rewrite Hrun; clear Hrun.
  - unfold monthlyGrowthFun. fold G. unfold monthKeys. rewrite Hfst.
    do 2 f_equal. unfold arraysAfter. f_equal. apply map_ext_in. intros [k b] Hk. simpl.
    destruct (decide (k ∈ sort defaultCompare (map fst G))) as [|H]; [done|].
    exfalso. apply H. apply elem_of_sort.
    apply list_elem_of_In in Hk. by apply (list_elem_of_fmap_2 fst) in Hk.
  - apply buckets_NoDup.
  - apply buckets_nonempty.
  - done.
  - unfold monthKeys. rewrite Hfst.
    rewrite sort_Permutation. apply buckets_NoDup.
  - intros k. unfold monthKeys. rewrite Hfst. by rewrite elem_of_sort.
Qed.

(** The function on a fresh array holding [data] returns, and returns the
    records of [monthlyGrowthFun]. *)
Corollary monthlyGrowthOf_fun (data : list StockDataPoint) :
  monthlyGrowthOf data = Ok (monthlyGrowthFun data).
Proof.
  unfold monthlyGrowthOf. by rewrite (calculateMonthlyGrowth_run [data] 0%nat data).
Qed.

End Run.

(* ===================================================================== *)
(** ** [parseCSV]: no exception, and what each line gives *)
(* ===================================================================== *)

Section Parse.

Lemma parseLine_fun line : parseLine line = Ok (pointOfLine line).
Proof.
  unfold parseLine, pointOfLine.
  destruct (matchGlobal tokenRegex line) as [[|dateStr [|m1 rest]]|]; try done.
  destruct rest as [|m2 rest]; done.
Qed.

Lemma mapM_parseLine lines : mapM parseLine lines = Ok (map pointOfLine lines).
Proof.
  induction lines as [|l lines IH]; [done|].
  change (mapM parseLine (l :: lines))
    with (y ← parseLine l; k ← mapM parseLine lines; mret (y :: k)).
  by rewrite parseLine_fun, IH.
Qed.

Lemma parseCSV_fun text :
  parseCSV text = Ok (sort byDate (omap pointOfLine (dataLinesOf text))).
Proof.
  unfold parseCSV. fold (dataLinesOf text). rewrite mapM_parseLine.
  unfold mbind, result_bind, dropNull. do 2 f_equal.
  induction (dataLinesOf text) as [|l ls IH]; [done|].
  change (omap id (map pointOfLine (l :: ls)))
    with (match pointOfLine l with
          | Some p => p :: omap id (map pointOfLine ls)
          | None => omap id (map pointOfLine ls)
          end).
  change (omap pointOfLine (l :: ls))
    with (match pointOfLine l with
          | Some p => p :: omap pointOfLine ls
          | None => omap pointOfLine ls
          end).
  by rewrite IH.
Qed.

Lemma pointOfLine_None line : pointOfLine line = None <-> (tokenCount line < 2)%nat.
Proof.
  unfold pointOfLine, tokenCount.
  destruct (matchGlobal tokenRegex line) as [[|dateStr [|m1 rest]]|]; simpl;
    split; try done; lia.
Qed.

End Parse.

(* ===================================================================== *)
(** ** The properties of the pipeline *)
(* ===================================================================== *)

(** C1 (Scenario A).  On the text of Scenario A, [parseCSV] returns the three
    points with the dates 2024/01/01, 2024/01/31, 2024/02/29 and the values
    1000, 1100, 1210, in that order (none has an index), and
    [calculateMonthlyGrowth] on that result returns exactly two records:
    month 2024-01 from 1000 to 1100 (growth 100, 10 percent), then month
    2024-02 from 1100 to 1210 (growth 110, 10 percent). *)
Theorem scenarioA_points_and_growth :
  exists pts,
    parseCSV scenarioA = Ok pts
    /\ map (fun p => (date p, value p, index p)) pts
       = [(lit "2024/01/01", num 1000, None);
          (lit "2024/01/31", num 1100, None);
          (lit "2024/02/29", num 1210, None)]
    /\ monthlyGrowthOf pts
       = Ok [{| month := lit "2024-01"; startValue := num 1000; endValue := num 1100;
                growth := num 100; growthPercent := num 10 |};
             {| month := lit "2024-02"; startValue := num 1100; endValue := num 1210;
                growth := num 110; growthPercent := num 10 |}].
Proof.
  eexists. split; [vm_compute; reflexivity|].
  split; vm_compute; reflexivity.
Qed.

Lemma monthlyGrowthFun_lookup data i r :
  monthlyGrowthFun data !! i = Some r ->
  exists key,
    sort defaultCompare (map fst (buckets data)) !! i = Some key
    /\ r = monthRecord (buckets data) (sort defaultCompare (map fst (buckets data))) i key.
Proof.
  unfold monthlyGrowthFun. rewrite list_lookup_imap.
  destruct (sort defaultCompare (map fst (buckets data)) !! i) as [key|]; simpl; [|done].
  intros [= <-]. by exists key.
Qed.

(** C2 (chain continuity).  For every sequence of points, every record that
    [calculateMonthlyGrowth] returns after the first has as [startValue] the
    [endValue] of the record returned just before it, whichever month that
    one is. *)
Theorem chain_continuity (data : list StockDataPoint) :
  exists out,
    monthlyGrowthOf data = Ok out
    /\ forall i prev next,
         out !! i = Some prev -> out !! S i = Some next ->
         startValue next = endValue prev.
Proof.
  exists (monthlyGrowthFun data). split; [apply monthlyGrowthOf_fun|].
  intros i prev next Hprev Hnext.
  apply monthlyGrowthFun_lookup in Hprev as (k & Hk & ->).
  apply monthlyGrowthFun_lookup in Hnext as (k' & Hk' & ->).
  unfold monthRecord at 1. simpl. by rewrite Hk.
Qed.

(** C10 (frame).  A call of [calculateMonthlyGrowth] returns and leaves its
    argument as it was: the array still holds the same points in the same
    order; so does every other array that existed before the call. *)
Theorem calculateMonthlyGrowth_frame (st : store) (data : loc) (points : list StockDataPoint) :
  st !! data = Some points ->
  exists out st',
    calculateMonthlyGrowth data st = Ok (out, st')
    /\ st' !! data = Some points
    /\ forall a arr, st !! a = Some arr -> st' !! a = Some arr.
Proof.
  intros Hdata. eexists _, _.
  split; [by apply calculateMonthlyGrowth_run|].
  split; [by apply lookup_app_l_Some|].
  intros a arr Ha. by apply lookup_app_l_Some.
Qed.

(** The frame property on the store that holds the points of Scenario A at
    address 0 and another array at address 1. *)
Lemma calculateMonthlyGrowth_frame_witness :
  exists out st',
    calculateMonthlyGrowth 0%nat [omap pointOfLine (dataLinesOf scenarioA); []]
    = Ok (out, st')
    /\ st' !! 0%nat = Some (omap pointOfLine (dataLinesOf scenarioA))
    /\ forall a arr,
         [omap pointOfLine (dataLinesOf scenarioA); []] !! a = Some arr ->
         st' !! a = Some arr.
Proof.
  apply (calculateMonthlyGrowth_frame
           [omap pointOfLine (dataLinesOf scenarioA); []] 0%nat
           (omap pointOfLine (dataLinesOf scenarioA))).
  reflexivity.
Defined.

Lemma split_no_sep sep s : sep ∉ s -> split sep s = [s].
Proof.
  induction s as [|c s IH]; simpl; [done|].
  intros [Hc Hs]%not_elem_of_cons.
  destruct (N.eqb_spec c sep) as [->|_]; [done|]. by rewrite IH.
Qed.

Lemma monthlyGrowthOf_nil : monthlyGrowthOf [] = Ok [].
Proof. reflexivity. Qed.

(** C7 (no exception, malformed lines dropped).  [parseCSV] never throws:
    on every text each data line is parsed on its own, to a point or to
    [null], and the result is the sorted array of the points.  A line on
    which the pattern finds fewer than two tokens gives [null], a line with
    two or more gives a point; so a text with such a line parses to what the
    text without the line parses to.  The empty text and a text of only a
    header line parse to the empty array, on which
    [calculateMonthlyGrowth] returns the empty array. *)
Theorem parseCSV_never_throws :
  (forall text, exists rows,
      mapM parseLine (dataLinesOf text) = Ok rows
      /\ parseCSV text = Ok (sort byDate (dropNull rows)))
  /\ (forall line, (tokenCount line < 2)%nat -> parseLine line = Ok None)
  /\ (forall line, (2 <= tokenCount line)%nat -> exists p, parseLine line = Ok (Some p))
  /\ (forall t1 t2 before line after,
        dataLinesOf t1 = before ++ line :: after ->
        dataLinesOf t2 = before ++ after ->
        (tokenCount line < 2)%nat ->
        parseCSV t1 = parseCSV t2)
  /\ parseCSV [] = Ok []
  /\ (forall header, LF ∉ trim header -> parseCSV header = Ok [])
  /\ monthlyGrowthOf [] = Ok [].
Proof.
  split_and!.
  - intros text. exists (map pointOfLine (dataLinesOf text)).
    split; [apply mapM_parseLine|].
    unfold parseCSV. fold (dataLinesOf text). by rewrite mapM_parseLine.
  - intros line H. rewrite parseLine_fun. f_equal. by apply pointOfLine_None.
  - intros line H. rewrite parseLine_fun.
    destruct (pointOfLine line) as [p|] eqn:E; [by exists p|].
    apply pointOfLine_None in E. lia.
  - intros t1 t2 before line after H1 H2 Hline.
    rewrite !parseCSV_fun, H1, H2. do 2 f_equal.
    rewrite !omap_app. f_equal. simpl.
    apply pointOfLine_None in Hline. by rewrite Hline.
  - reflexivity.
  - intros header H. rewrite parseCSV_fun. unfold dataLinesOf.
    by rewrite split_no_sep.
  - apply monthlyGrowthOf_nil.
Qed.

(** Scenario B: the line [garbage] is dropped, the rows around it are kept. *)
Lemma parseCSV_never_throws_witness :
  (tokenCount (lit "garbage") < 2)%nat
  /\ parseCSV scenarioB = parseCSV scenarioB_clean
  /\ exists p1 p2, parseCSV scenarioB = Ok [p1; p2]
       /\ date p1 = lit "2024/01/01" /\ date p2 = lit "2024/01/31".
Proof.
  assert (Hg : (tokenCount (lit "garbage") < 2)%nat) by (vm_compute; lia).
  split; [exact Hg|]. split.
  - destruct parseCSV_never_throws as (_ & _ & _ & Hdrop & _).
    apply (Hdrop scenarioB scenarioB_clean [lit "2024/01/01,1000"] (lit "garbage")
             [lit "2024/01/31,1100"]); [reflexivity|reflexivity|exact Hg].
  - eexists _, _. split; [vm_compute; reflexivity|]. split; reflexivity.
Defined.

Section ParseInt.

Lemma digit_cases (d : N) :
  (d < 10)%N ->
  d = 0%N \/ d = 1%N \/ d = 2%N \/ d = 3%N \/ d = 4%N \/ d = 5%N \/ d = 6%N
  \/ d = 7%N \/ d = 8%N \/ d = 9%N.
Proof. lia. Qed.

Lemma digitValue_digitChar (d : N) : (d < 10)%N -> digitValue 10 (48 + d)%N = Some d.
Proof. intros H. destruct (digit_cases d H) as [->|[->|[->|[->|[->|[->|[->|[->|[->| ->]]]]]]]]]; done. Qed.

Lemma isWhiteSpace_digitChar (d : N) : (d < 10)%N -> isWhiteSpace (48 + d)%N = false.
Proof. intros H. destruct (digit_cases d H) as [->|[->|[->|[->|[->|[->|[->|[->|[->| ->]]]]]]]]]; done. Qed.

Lemma readSign_digitChar (d : N) s :
  (d < 10)%N -> readSign ((48 + d)%N :: s) = (false, (48 + d)%N :: s).
Proof. intros H. destruct (digit_cases d H) as [->|[->|[->|[->|[->|[->|[->|[->|[->| ->]]]]]]]]]; done. Qed.

(** Reading digits stops at the first code unit that is no digit. *)
Lemma spanDigits_digitChars ds rest :
  Forall (fun d => (d < 10)%N) ds ->
  (forall c rest', rest = c :: rest' -> digitValue 10 c = None) ->
  spanDigits 10 (digitChars ds ++ rest) = (ds, rest).
Proof.
  intros Hds Hrest. induction Hds as [|d ds Hd Hds IH].
  - destruct rest as [|c rest']; [done|].
    change (spanDigits 10 (digitChars [] ++ c :: rest'))
      with (match digitValue 10 c with
            | Some d => let '(ds, r) := spanDigits 10 rest' in (d :: ds, r)
            | None => ([], c :: rest')
            end).
    by rewrite (Hrest c rest').
  - change (spanDigits 10 (digitChars (d :: ds) ++ rest))
      with (match digitValue 10 (48 + d)%N with
            | Some d' => let '(ds', r) := spanDigits 10 (digitChars ds ++ rest) in (d' :: ds', r)
            | None => ([], (48 + d)%N :: digitChars ds ++ rest)
            end).
    by rewrite (digitValue_digitChar d Hd), IH.
Qed.

(** [parseInt] of an optional minus sign, digits, and anything that does
    not start with a digit: the integer the digits denote, with the sign. *)
Lemma parseInt10_digits (neg : bool) ds rest :
  ds <> [] -> Forall (fun d => (d < 10)%N) ds ->
  (forall c rest', rest = c :: rest' -> digitValue 10 c = None) ->
  parseInt10 ((if neg then [MINUS] else []) ++ digitChars ds ++ rest)
  = if (digitsValue 10 ds =? 0)%N then S754_zero neg
    else num (cond_Zopp neg (Z.of_N (digitsValue 10 ds))).
Proof.
  intros Hne Hds Hrest. unfold parseInt10.
  destruct ds as [|d ds]; [done|]. clear Hne.
  pose proof (Forall_inv Hds) as Hd.
  assert (Hsign : readSign (trimStart ((if neg then [MINUS] else [])
                     ++ digitChars (d :: ds) ++ rest))
                  = (neg, digitChars (d :: ds) ++ rest)).
  { destruct neg; simpl.
    - done.
    - rewrite (isWhiteSpace_digitChar d Hd). by apply readSign_digitChar. }
  rewrite Hsign, (spanDigits_digitChars _ _ Hds Hrest). done.
Qed.

End ParseInt.

(** C8 (value parsing).  The value of a row is [parseInt], radix 10, of its
    second token without its double quotes and commas.  The quoted token
    35,000,000 gives 35000000.  An integer part followed by a fraction gives
    the integer part, with its sign: the fraction is cut off, toward zero,
    and the row is kept (Scenario C: 35000000, 1234 for 1234.56, and -12 for
    -12.9). *)
Theorem value_is_truncated_integer :
  (forall line dateStr m1 rest,
      matchGlobal tokenRegex line = Some (dateStr :: m1 :: rest) ->
      exists p, parseLine line = Ok (Some p)
                /\ value p = parseInt10 (stripQuotesAndCommas m1))
  /\ stripQuotesAndCommas (quoted (lit "35,000,000")) = lit "35000000"
  /\ parseInt10 (lit "35000000") = num 35000000
  /\ (forall (neg : bool) ds frac,
        ds <> [] -> Forall (fun d => (d < 10)%N) ds ->
        parseInt10 ((if neg then [MINUS] else []) ++ digitChars ds ++ DOT :: frac)
        = if (digitsValue 10 ds =? 0)%N then S754_zero neg
          else num (cond_Zopp neg (Z.of_N (digitsValue 10 ds))))
  /\ (exists p1 p2 p3,
        parseCSV scenarioC = Ok [p1; p2; p3]
        /\ value p1 = num 35000000 /\ value p2 = num 1234 /\ value p3 = num (-12)).
Proof.
  split_and!.
  - intros line dateStr m1 rest H. rewrite parseLine_fun. unfold pointOfLine.
    rewrite H. by eexists.
  - reflexivity.
  - vm_compute; reflexivity.
  - intros neg ds frac Hne Hds. apply parseInt10_digits; [done|done|].
    by intros c rest' [= <- <-].
  - eexists _, _, _. split; [vm_compute; reflexivity|]. split_and!; vm_compute; reflexivity.
Qed.

(** The fraction of 7.9 and of -7.9 is cut off: 7 and -7. *)
Lemma value_is_truncated_integer_witness :
  parseInt10 (digitChars [7%N] ++ DOT :: lit "9") = num 7
  /\ parseInt10 ([MINUS] ++ digitChars [7%N] ++ DOT :: lit "9") = num (-7).
Proof.
  destruct value_is_truncated_integer as (_ & _ & _ & Htrunc & _).
  split.
  - apply (Htrunc false [7%N] (lit "9")); [done|].
    repeat constructor.
  - apply (Htrunc true [7%N] (lit "9")); [done|].
    repeat constructor.
Defined.

(** C9 (optional index).  A row with at least two tokens is kept whatever
    its third token is.  Its index is unset when there is no third token and
    when [parseFloat] of the third token, without its double quotes and
    commas, is NaN; otherwise it is that Number.  In Scenario D the quoted
    token 4,500.25 gives the index 4500.25, the row without a third column
    and the row whose third token is no number are kept with no index. *)
Theorem index_is_optional :
  (forall line dateStr m1 rest,
      matchGlobal tokenRegex line = Some (dateStr :: m1 :: rest) ->
      exists p,
        parseLine line = Ok (Some p)
        /\ match rest with
           | [] => index p = None
           | m2 :: _ =>
               let parsed := parseFloat (stripQuotesAndCommas m2) in
               (parsed = NaN -> index p = None)
               /\ (parsed <> NaN -> index p = Some parsed)
           end)
  /\ parseFloat (stripQuotesAndCommas (quoted (lit "4,500.25"))) = div (num 18001) (num 4)
  /\ parseFloat (stripQuotesAndCommas (lit "n/a")) = NaN
  /\ (exists p1 p2 p3,
        parseCSV scenarioD = Ok [p1; p2; p3]
        /\ index p1 = Some (div (num 18001) (num 4))
        /\ index p2 = None
        /\ index p3 = None
        /\ map date [p1; p2; p3] = [lit "2024/01/01"; lit "2024/01/02"; lit "2024/01/03"]).
Proof.
  split_and!.
  - intros line dateStr m1 rest H. rewrite parseLine_fun. unfold pointOfLine.
    rewrite H. eexists. split; [done|]. simpl.
    destruct rest as [|m2 rest]; [done|]. simpl.
    destruct (parseFloat (stripQuotesAndCommas m2)); simpl; split; done.
  - vm_compute; reflexivity.
  - vm_compute; reflexivity.
  - eexists _, _, _. split; [vm_compute; reflexivity|]. split_and!; vm_compute; reflexivity.
Qed.

(** Two lines of Scenario D: three tokens with a third that is no number,
    and two tokens; both give a point, with no index. *)
Lemma index_is_optional_witness :
  (exists p, parseLine (lit "2024/01/03,3000,n/a") = Ok (Some p) /\ index p = None)
  /\ (exists p, parseLine (lit "2024/01/02,2000") = Ok (Some p) /\ index p = None).
Proof.
  destruct index_is_optional as (Hrow & _).
  split.
  - destruct (Hrow (lit "2024/01/03,3000,n/a") (lit "2024/01/03") (lit "3000") [lit "n/a"])
      as (p & Hp & Hnan & _); [vm_compute; reflexivity|].
    exists p. split; [exact Hp|]. apply Hnan. vm_compute; reflexivity.
  - destruct (Hrow (lit "2024/01/02,2000") (lit "2024/01/02") (lit "2000") [])
      as (p & Hp & Hnone); [vm_compute; reflexivity|].
    exists p. split; [exact Hp|exact Hnone].
Defined.

(* ===================================================================== *)
(** ** Month keys *)
(* ===================================================================== *)

Section Keys.

Lemma lit_inj s1 s2 : lit s1 = lit s2 -> s1 = s2.
Proof.
  unfold lit. intros H.
  rewrite <- (string_of_list_ascii_of_string s1), <- (string_of_list_ascii_of_string s2).
  f_equal. revert H.
  generalize (list_ascii_of_string s1) (list_ascii_of_string s2).
  induction l as [|a l IH]; intros [|b l']; simpl; try done.
  intros [= Hab Hl]. f_equal; [|by apply IH].
  by rewrite <- (ascii_N_embedding a), <- (ascii_N_embedding b), Hab.
Qed.

Lemma to_int_printable z :
  Z.to_int z <> Decimal.Pos Decimal.Nil /\ Z.to_int z <> Decimal.Neg Decimal.Nil.
Proof.
  destruct z as [|p|p]; simpl; split; try done;
    intros [= H]; by apply DecimalPos.Unsigned.to_uint_nonnil in H.
Qed.

(** Two integers print alike only when they are equal. *)
Lemma intToString_inj (a b : Z) :
  intToString (Some a) = intToString (Some b) -> a = b.
Proof.
  unfold intToString. intros H%lit_inj.
  apply DecimalZ.to_int_inj.
  destruct (to_int_printable a) as [Ha1 Ha2], (to_int_printable b) as [Hb1 Hb2].
  pose proof (NilZero.isi _ Ha1 Ha2) as Ea.
  pose proof (NilZero.isi _ Hb1 Hb2) as Eb.
  rewrite H in Ea. congruence.
Qed.

Lemma month_cases (m : Z) :
  0 <= m <= 11 ->
  m = 0 \/ m = 1 \/ m = 2 \/ m = 3 \/ m = 4 \/ m = 5 \/ m = 6 \/ m = 7
  \/ m = 8 \/ m = 9 \/ m = 10 \/ m = 11.
Proof. lia. Qed.

Ltac month_split H :=
  destruct (month_cases _ H)
    as [->|[->|[->|[->|[->|[->|[->|[->|[->|[->|[->| ->]]]]]]]]]]].

Lemma monthField_length m : 0 <= m <= 11 -> length (monthField m) = 2%nat.
Proof. intros H. month_split H; reflexivity. Qed.

Lemma monthField_not_NaN m : 0 <= m <= 11 -> monthField m <> lit "aN".
Proof. intros H. month_split H; discriminate. Qed.

Lemma monthField_inj m m' :
  0 <= m <= 11 -> 0 <= m' <= 11 -> monthField m = monthField m' -> m = m'.
Proof.
  intros H H'. month_split H; month_split H'; first [reflexivity | discriminate].
Qed.

Lemma MonthFromTime_range t : 0 <= MonthFromTime t <= 11.
Proof.
  unfold MonthFromTime.
  repeat match goal with |- context [if ?b then _ else _] => destruct b end; lia.
Qed.

Lemma formatKey_valid y m :
  formatKey (Some y, Some m) = (intToString (Some y) ++ lit "-") ++ monthField m.
Proof. unfold formatKey, monthField. simpl. by rewrite <- app_assoc. Qed.

Lemma formatKey_invalid : formatKey (None, None) = lit "NaN-N" ++ lit "aN".
Proof. reflexivity. Qed.

(** The month key determines the calendar month: two dates with the same
    key are in the same month of the same year, or are both invalid. *)
Lemma formatKey_yearMonth_inj (d d' : Date) :
  formatKey (yearMonth d) = formatKey (yearMonth d') -> yearMonth d = yearMonth d'.
Proof.
  destruct d as [|t], d' as [|t']; unfold yearMonth; simpl getFullYear; simpl getMonth.
  - done.
  - rewrite formatKey_valid, formatKey_invalid. intros H.
    apply app_inj_2 in H as [_ H];
      [|by rewrite monthField_length by apply MonthFromTime_range].
    symmetry in H. by apply monthField_not_NaN in H; [|apply MonthFromTime_range].
  - rewrite formatKey_valid, formatKey_invalid. intros H.
    apply app_inj_2 in H as [_ H];
      [|by rewrite monthField_length by apply MonthFromTime_range].
    by apply monthField_not_NaN in H; [|apply MonthFromTime_range].
  - rewrite !formatKey_valid. intros H.
    apply app_inj_2 in H as [Hy Hm];
      [|by rewrite !monthField_length by apply MonthFromTime_range].
    apply app_inj_2 in Hy as [Hy _]; [|done].
    apply intToString_inj in Hy.
    apply monthField_inj in Hm; [|apply MonthFromTime_range..].
    by rewrite Hy, Hm.
Qed.

Lemma month_monthlyGrowthFun data :
  map month (monthlyGrowthFun data) = sort defaultCompare (map fst (buckets data)).
Proof.
  unfold monthlyGrowthFun. apply list_eq. intros i.
  rewrite list_lookup_fmap, list_lookup_imap.
  by destruct (sort defaultCompare (map fst (buckets data)) !! i).
Qed.

End Keys.

(** C3 (coverage).  For every sequence of points, the months of the records
    [calculateMonthlyGrowth] returns are the keys of the distinct pairs of
    full year and month of the points' calendar dates: each such pair has its
    record, no record has another key, no key comes twice, and distinct
    pairs have distinct keys; so there are as many records as distinct pairs,
    and none for a month without a point. *)
Theorem month_keys_are_the_months_present (data : list StockDataPoint) :
  let months := remove_dups (map (fun p => yearMonth (dateObj p)) data) in
  exists out,
    monthlyGrowthOf data = Ok out
    /\ map month out ≡ₚ map formatKey months
    /\ NoDup (map month out)
    /\ length out = length months
    /\ forall d d' : Date,
         formatKey (yearMonth d) = formatKey (yearMonth d') ->
         yearMonth d = yearMonth d'.
Proof.
  intros months. exists (monthlyGrowthFun data).
  split; [apply monthlyGrowthOf_fun|].
  assert (Hnd : NoDup (map month (monthlyGrowthFun data))).
  { rewrite month_monthlyGrowthFun, sort_Permutation. apply buckets_NoDup. }
  assert (Hperm : map month (monthlyGrowthFun data) ≡ₚ map formatKey months).
  { apply NoDup_Permutation; [done| |].
    - apply NoDup_fmap_2_strong; [|apply NoDup_remove_dups].
      intros ym ym' Hym Hym'. unfold months in *.
      apply elem_of_remove_dups, list_elem_of_fmap in Hym as (p & -> & _).
      apply elem_of_remove_dups, list_elem_of_fmap in Hym' as (q & -> & _).
      apply formatKey_yearMonth_inj.
    - intros key. rewrite month_monthlyGrowthFun, elem_of_sort, buckets_keys.
      unfold months. rewrite !list_elem_of_fmap. split.
      + intros (p & -> & Hp). exists (yearMonth (dateObj p)). split; [done|].
        apply elem_of_remove_dups, list_elem_of_fmap. by exists p.
      + intros (ym & -> & Hym).
        apply elem_of_remove_dups, list_elem_of_fmap in Hym as (p & -> & Hp).
        by exists p. }
  split_and!; [done|done| |].
  - apply Permutation_length in Hperm. by rewrite !length_map in Hperm.
  - apply formatKey_yearMonth_inj.
Qed.

(* ===================================================================== *)
(** ** The order of the parsed points *)
(* ===================================================================== *)

Section Order.

Lemma inOrder_dateLe (a b : StockDataPoint) :
  validDate a -> validDate b -> inOrder byDate a b -> dateLe a b.
Proof.
  unfold validDate, inOrder, after, byDate, dateLe.
  destruct (dateObj a) as [|ta], (dateObj b) as [|tb]; simpl; try done.
  intros _ _ H%Z.ltb_ge. lia.
Qed.

Lemma Sorted_inOrder_dateLe (l : list StockDataPoint) :
  Forall validDate l -> Sorted (inOrder byDate) l -> Sorted dateLe l.
Proof.
  intros Hv Hs. induction Hs as [|a l Hl IH Ha]; [constructor|].
  apply Forall_cons in Hv as [Hva Hvl].
  constructor; [by apply IH|].
  destruct Ha as [|b l Hab]; constructor.
  apply inOrder_dateLe; [done| |done].
  by apply Forall_cons in Hvl as [? _].
Qed.

Lemma onDate_ties t (x y : StockDataPoint) :
  onDate t x -> onDate t y -> after byDate x y = false.
Proof.
  unfold onDate, after, byDate. intros -> ->. simpl.
  apply Z.ltb_ge. lia.
Qed.

End Order.

(** C5, as the code has it.  For every text whose kept rows all have a valid
    calendar date, the array [parseCSV] returns holds the kept rows sorted
    ascending by calendar date: every point is at or before the next one,
    and the points of one calendar date are in the order of their lines. *)
Theorem parseCSV_sorted_when_dates_valid (text : jsstring) (rows : list (option StockDataPoint)) :
  mapM parseLine (dataLinesOf text) = Ok rows ->
  Forall validDate (dropNull rows) ->
  exists out,
    parseCSV text = Ok out
    /\ out ≡ₚ dropNull rows
    /\ Sorted dateLe out
    /\ forall t, filter (onDate t) out = filter (onDate t) (dropNull rows).
Proof.
  intros Hrows Hvalid. exists (sort byDate (dropNull rows)).
  split; [|split_and!].
  - unfold parseCSV. fold (dataLinesOf text). by rewrite Hrows.
  - apply sort_Permutation.
  - apply Sorted_inOrder_dateLe.
    + by rewrite sort_Permutation.
    + apply sort_Sorted, byDate_asym.
  - intros t. apply filter_sort, onDate_ties.
Qed.

(** Scenario A has only valid dates: its three points come out in order. *)
Lemma parseCSV_sorted_when_dates_valid_witness :
  exists out,
    parseCSV scenarioA = Ok out
    /\ out ≡ₚ dropNull (map pointOfLine (dataLinesOf scenarioA))
    /\ Sorted dateLe out
    /\ forall t, filter (onDate t) out
                 = filter (onDate t) (dropNull (map pointOfLine (dataLinesOf scenarioA))).
Proof.
  apply (parseCSV_sorted_when_dates_valid scenarioA
           (map pointOfLine (dataLinesOf scenarioA))).
  - apply mapM_parseLine.
  - vm_compute. repeat constructor; discriminate.
Defined.

(** C5, as stated, fails.  In the text [scenarioInvalidDate] the row with
    the date token [n/a] is kept with an invalid date; the array returned
    has the point of 2024/02/29 first and the point of 2024/01/31 last, and
    is not sorted by calendar date. *)
Lemma parseCSV_not_sorted_with_invalid_date :
  exists p1 p2 p3,
    parseCSV scenarioInvalidDate = Ok [p1; p2; p3]
    /\ date p1 = lit "2024/02/29" /\ dateObj p2 = InvalidDate /\ date p3 = lit "2024/01/31"
    /\ ~ Sorted dateLe [p1; p2; p3].
Proof.
  eexists _, _, _. split; [vm_compute; reflexivity|].
  split_and!; try reflexivity.
  intros H. apply Sorted_inv in H as [_ H]. apply HdRel_inv in H. exact H.
Qed.

(* ===================================================================== *)
(** ** The growth percentage *)
(* ===================================================================== *)

Section Rounding.

Lemma shr_1_nonneg mrs : 0 <= shr_m mrs -> 0 <= shr_m (shr_1 mrs).
Proof. destruct mrs as [[|[p|p|]|p] r s]; simpl; lia. Qed.

Lemma iter_shr_1_nonneg n mrs :
  0 <= shr_m mrs -> 0 <= shr_m (SpecFloat.iter_pos shr_1 n mrs).
Proof.
  revert mrs. induction n as [n IH|n IH|]; intros mrs H; simpl.
  - by apply IH, IH, shr_1_nonneg.
  - by apply IH, IH.
  - by apply shr_1_nonneg.
Qed.

Lemma shr_fexp_nonneg m e l :
  0 <= m -> 0 <= shr_m (shr_fexp prec emax m e l).1.
Proof.
  intros H. unfold shr_fexp, shr.
  assert (H0 : 0 <= shr_m (shr_record_of_loc m l)) by (by destruct l as [|[]]).
  destruct (fexp prec emax (Zdigits2 m + e) - e); simpl; [done| |done].
  by apply iter_shr_1_nonneg.
Qed.

Lemma round_nearest_even_nonneg m l : 0 <= m -> 0 <= round_nearest_even m l.
Proof.
  intros H. destruct l as [|[]]; simpl; try lia.
  destruct (Z.even m); lia.
Qed.

(** Rounding a mantissa that is not negative never gives NaN. *)
Lemma binary_round_aux_not_NaN s m e l :
  0 <= m -> binary_round_aux prec emax s m e l <> NaN.
Proof.
  intros H. unfold binary_round_aux.
  pose proof (shr_fexp_nonneg m e l H) as H1.
  destruct (shr_fexp prec emax m e l) as [mrs' e']. simpl in H1.
  pose proof (shr_fexp_nonneg _ e' loc_Exact
                (round_nearest_even_nonneg _ (loc_of_shr_record mrs') H1)) as H2.
  destruct (shr_fexp prec emax (round_nearest_even (shr_m mrs') (loc_of_shr_record mrs'))
              e' loc_Exact) as [mrs'' e'']. simpl in H2.
  destruct (shr_m mrs'') as [|p|p]; [done| |lia].
  by destruct (e'' <=? emax - prec).
Qed.

Lemma binary_normalize_not_NaN m e : binary_normalize prec emax m e false <> NaN.
Proof.
  destruct m as [|p|p]; simpl; [done| |]; unfold binary_round;
    destruct (shl_align p e _) as [mz ez]; by apply binary_round_aux_not_NaN.
Qed.

(** The difference of two finite Numbers is a Number. *)
Lemma sub_not_NaN x y : finite x -> finite y -> sub x y <> NaN.
Proof.
  unfold finite, sub.
  destruct x as [sx|sx| |sx mx ex], y as [sy|sy| |sy my ey]; simpl; try done.
  - by destruct sx, sy.
  - intros _ _. apply binary_normalize_not_NaN.
Qed.

(** A Number divided by a finite Number other than zero is a Number. *)
Lemma div_not_NaN x y :
  x <> NaN -> finite y -> strictNe y (num 0) = true -> div x y <> NaN.
Proof.
  unfold finite, div.
  destruct x as [sx|sx| |sx mx ex], y as [sy|sy| |sy my ey]; simpl; try done.
  intros _ _ _. unfold SFdiv_core_binary.
  set (m' := match _ with Z.pos _ => _ | _ => _ end).
  assert (0 <= m').
  { unfold m'. destruct (ex - ey - _); try lia. apply Z.shiftl_nonneg. lia. }
  destruct (Z.div_eucl m' (Z.pos my)) as [q r] eqn:E.
  apply binary_round_aux_not_NaN.
  pose proof (Z_div_mod m' (Z.pos my) ltac:(lia)) as Hdm. rewrite E in Hdm. nia.
Qed.

(** A Number times 100 is a Number. *)
Lemma mul_100_not_NaN x : x <> NaN -> mul x (num 100) <> NaN.
Proof.
  intros H. destruct x as [sx|sx| |sx mx ex]; try done.
  change (num 100) with (S754_finite false 7036874417766400 (-46)).
  unfold mul. simpl. apply binary_round_aux_not_NaN. lia.
Qed.

End Rounding.

(** C4, as the code has it.  In every record [calculateMonthlyGrowth]
    returns, [growth] is [endValue - startValue], and [growthPercent] is 0
    when [startValue] is zero and [growth / startValue * 100] otherwise, in
    binary64 arithmetic.  When [startValue] and [endValue] are finite it is
    a Number (it is never the NaN of a division of zero by zero), which can
    be an infinity; it is NaN when [startValue] is NaN. *)
Theorem growthPercent_guards_zero (data : list StockDataPoint) :
  exists out,
    monthlyGrowthOf data = Ok out
    /\ Forall (fun r =>
         growth r = sub (endValue r) (startValue r)
         /\ growthPercent r
            = (if strictNe (startValue r) (num 0)
               then mul (div (growth r) (startValue r)) (num 100)
               else num 0)
         /\ (finite (startValue r) -> finite (endValue r) -> growthPercent r <> NaN)
         /\ (startValue r = NaN -> growthPercent r = NaN)) out.
Proof.
  exists (monthlyGrowthFun data). split; [apply monthlyGrowthOf_fun|].
  apply Forall_forall. intros r Hr.
  apply list_elem_of_lookup in Hr as [i Hi].
  apply monthlyGrowthFun_lookup in Hi as (key & _ & ->).
  unfold monthRecord, growthRecord.
  cbn [growth growthPercent startValue endValue].
  generalize (match i with
              | O => firstValue (sort byDate (bucketOf (buckets data) key))
              | S i' =>
                  match sort defaultCompare (map fst (buckets data)) !! i' with
                  | Some prevMonthKey =>
                      lastValue (sort byDate (bucketOf (buckets data) prevMonthKey))
                  | None => NaN
                  end
              end) as previousEndValue.
  generalize (lastValue (sort byDate (bucketOf (buckets data) key))) as currentEndValue.
  intros currentEndValue previousEndValue.
  split; [reflexivity|]. split; [reflexivity|]. split.
  - intros Hs He. destruct (strictNe previousEndValue (num 0)) eqn:Hz.
    + apply mul_100_not_NaN, div_not_NaN; [|exact Hs|exact Hz].
      apply sub_not_NaN; assumption.
    + discriminate.
  - intros ->. by destruct currentEndValue.
Qed.

(** C4, as stated, fails.  The row of [scenarioNoValue] has a value token
    that is no number: its value is NaN, and so are the [startValue] and the
    [growthPercent] of the one record, which is not a finite number.  In
    [scenarioHuge] both values are finite, 1 and 10^308, and the
    [growthPercent] of the one record overflows to Infinity. *)
Lemma growthPercent_not_finite_on_NaN_value :
  (exists pts r,
      parseCSV scenarioNoValue = Ok pts
      /\ monthlyGrowthOf pts = Ok [r]
      /\ growthPercent r = NaN
      /\ ~ finite (growthPercent r))
  /\ (exists pts r,
        parseCSV scenarioHuge = Ok pts
        /\ monthlyGrowthOf pts = Ok [r]
        /\ startValue r = num 1 /\ endValue r = num (10 ^ 308)
        /\ finite (startValue r) /\ finite (endValue r)
        /\ growthPercent r = S754_infinity false
        /\ ~ finite (growthPercent r)).
Proof.
  split.
  - eexists _, _. split; [vm_compute; reflexivity|].
    split; [vm_compute; reflexivity|].
    split; [reflexivity|]. intros H. discriminate H.
  - eexists _, _. split; [vm_compute; reflexivity|].
    split; [vm_compute; reflexivity|].
    split_and!; try (vm_compute; reflexivity).
    intros H. discriminate H.
Qed.

(** C6 at a text with years of three and of four digits.  [parseCSV] puts
    the point of June 999 before the point of January 1000, as their dates
    are; [calculateMonthlyGrowth] returns the record of 1000-01 first and
    the record of 999-06 second, because the key 1000-01 is below the key
    999-06 as a string: the records are not in the order of the months, and
    the month of the year 999 is given the close of the year 1000 as its
    [startValue]. *)
Theorem month_order_not_chronological_year_999 :
  exists p1 p2 r1 r2,
    parseCSV scenarioYear999 = Ok [p1; p2]
    /\ yearMonth (dateObj p1) = (Some 999, Some 5)
    /\ yearMonth (dateObj p2) = (Some 1000, Some 0)
    /\ monthlyGrowthOf [p1; p2] = Ok [r1; r2]
    /\ month r1 = lit "1000-01" /\ month r2 = lit "999-06"
    /\ Str.ltb (month r1) (month r2) = true
    /\ startValue r2 = num 200 /\ endValue r2 = num 100.
Proof.
  eexists _, _, _, _. split; [vm_compute; reflexivity|].
  split; [vm_compute; reflexivity|]. split; [vm_compute; reflexivity|].
  split; [vm_compute; reflexivity|].
  split_and!; vm_compute; reflexivity.
Qed.

(* ===================================================================== *)
(** ** The order of the records *)
(* ===================================================================== *)

Section KeyOrder.

Lemma ltb_irrefl s : Str.ltb s s = false.
Proof.
  induction s as [|c s IH]; simpl; [done|].
  by rewrite N.ltb_irrefl, N.eqb_refl, IH.
Qed.

Lemma ltb_cons c d s t :
  Str.ltb (c :: s) (d :: t) = true <-> (c < d)%N \/ (c = d /\ Str.ltb s t = true).
Proof.
  simpl. rewrite orb_true_iff, andb_true_iff, N.ltb_lt, N.eqb_eq. done.
Qed.

Lemma ltb_trans s t u :
  Str.ltb s t = true -> Str.ltb t u = true -> Str.ltb s u = true.
Proof.
  revert t u. induction s as [|c s IH]; intros [|d t] [|e u]; try done.
  rewrite !ltb_cons. intros [H1|[-> H1]] [H2|[-> H2]].
  - left. lia.
  - by left.
  - by left.
  - right. split; [done|]. by eapply IH.
Qed.

Lemma ltb_trichotomy s t : Str.ltb s t = true \/ s = t \/ Str.ltb t s = true.
Proof.
  revert t. induction s as [|c s IH]; intros [|d t]; simpl; try by auto.
  destruct (N.lt_trichotomy c d) as [H|[->|H]].
  - left. apply N.ltb_lt in H. by rewrite H.
  - rewrite N.ltb_irrefl, N.eqb_refl. simpl.
    destruct (IH t) as [H|[->|H]]; auto.
  - right. right. apply N.ltb_lt in H. by rewrite H.
Qed.

Lemma defaultCompare_asym x y :
  after defaultCompare x y = true -> after defaultCompare y x = false.
Proof.
  unfold after, defaultCompare.
  destruct (Str.ltb x y) eqn:Hxy, (Str.ltb y x) eqn:Hyx; simpl; done.
Qed.

Lemma inOrder_defaultCompare x y :
  inOrder defaultCompare x y -> x <> y -> Str.ltb x y = true.
Proof.
  unfold inOrder, after, defaultCompare. intros H Hne.
  destruct (ltb_trichotomy x y) as [Hlt|[->|Hgt]]; [done|done|].
  rewrite Hgt in H. by destruct (Str.ltb x y).
Qed.

(** Sorting distinct strings puts them in strictly ascending order. *)
Lemma sort_defaultCompare_ascending (l : list jsstring) :
  NoDup l -> StronglySorted (fun x y => Str.ltb x y = true) (sort defaultCompare l).
Proof.
  intros Hnd.
  apply Sorted_StronglySorted; [intros x y z; apply ltb_trans|].
  assert (Hnd' : NoDup (sort defaultCompare l)) by (by rewrite sort_Permutation).
  pose proof (sort_Sorted defaultCompare defaultCompare_asym l) as Hs.
  induction Hs as [|x k Hk IH Hx]; [constructor|].
  apply NoDup_cons in Hnd' as [Hxk Hndk].
  constructor; [by apply IH|].
  destruct Hx as [|y k Hxy]; constructor.
  apply inOrder_defaultCompare; [done|].
  intros ->. apply Hxk. left.
Qed.

End KeyOrder.

(** The records come in strictly ascending order of their month keys, as
    strings: code unit by code unit, a prefix first. *)
Theorem records_in_ascending_key_order (data : list StockDataPoint) :
  exists out,
    monthlyGrowthOf data = Ok out
    /\ StronglySorted (fun x y => Str.ltb x y = true) (map month out).
Proof.
  exists (monthlyGrowthFun data). split; [apply monthlyGrowthOf_fun|].
  rewrite month_monthlyGrowthFun.
  apply sort_defaultCompare_ascending, buckets_NoDup.
Qed.

Section FourDigitYears.

Lemma yearDigits_check :
  forallb (fun n => bool_decide (intToString (Some (1000 + Z.of_nat n))
                                 = yearDigits (1000 + Z.of_nat n)))
          (seq 0 (Z.to_nat 9000)) = true.
Proof. vm_compute. reflexivity. Qed.

(** A year from 1000 to 9999 prints as its four digits. *)
Lemma intToString_yearDigits y :
  1000 <= y <= 9999 -> intToString (Some y) = yearDigits y.
Proof.
  intros Hy. pose proof yearDigits_check as H.
  rewrite forallb_forall in H.
  specialize (H (Z.to_nat (y - 1000))).
  replace (1000 + Z.of_nat (Z.to_nat (y - 1000))) with y in H by lia.
  apply bool_decide_eq_true in H; [done|].
  apply in_seq. lia.
Qed.

Lemma yearDigits_lt y y' :
  1000 <= y <= 9999 -> 1000 <= y' <= 9999 ->
  Str.ltb (yearDigits y) (yearDigits y') = true <-> y < y'.
Proof.
  intros Hy Hy'. unfold yearDigits. cbn [map].
  assert (E : Str.ltb [] [] = true <-> False) by (split; [discriminate|done]).
  rewrite !ltb_cons, E. clear E.
  Z.div_mod_to_equations. lia.
Qed.

Lemma yearDigits_inj y y' :
  1000 <= y <= 9999 -> 1000 <= y' <= 9999 ->
  yearDigits y = yearDigits y' -> y = y'.
Proof.
  intros Hy Hy'. unfold yearDigits. cbn [map]. intros [= E3 E2 E1 E0].
  Z.div_mod_to_equations. lia.
Qed.

Lemma ltb_app a a' b b' :
  length a = length a' ->
  Str.ltb (a ++ b) (a' ++ b') = true
  <-> Str.ltb a a' = true \/ (a = a' /\ Str.ltb b b' = true).
Proof.
  revert a'. induction a as [|c a IH]; intros [|c' a']; try done.
  - intros _. simpl app. split; [by right|]. intros [H|[_ H]]; [|done].
    by destruct b.
  - intros [= Hlen]. rewrite <- !app_comm_cons, !ltb_cons, (IH a' Hlen).
    split.
    + intros [H|[-> [H|[-> H]]]]; auto.
    + intros [[H|[-> H]]|[[= -> ->] H]]; auto.
Qed.

Lemma monthField_lt m m' :
  0 <= m <= 11 -> 0 <= m' <= 11 ->
  Str.ltb (monthField m) (monthField m') = true <-> m < m'.
Proof.
  intros H H'.
  destruct (month_cases _ H)
    as [->|[->|[->|[->|[->|[->|[->|[->|[->|[->|[->| ->]]]]]]]]]]];
  destruct (month_cases _ H')
    as [->|[->|[->|[->|[->|[->|[->|[->|[->|[->|[->| ->]]]]]]]]]]];
  vm_compute; split; congruence.
Qed.

(** For years of four digits the order of the keys is the order of the
    months. *)
Lemma formatKey_lt y m y' m' :
  1000 <= y <= 9999 -> 1000 <= y' <= 9999 -> 0 <= m <= 11 -> 0 <= m' <= 11 ->
  Str.ltb (formatKey (Some y, Some m)) (formatKey (Some y', Some m')) = true
  <-> monthBefore (Some y, Some m) (Some y', Some m').
Proof.
  intros Hy Hy' Hm Hm'. unfold monthBefore.
  rewrite !formatKey_valid, <- !app_assoc, !intToString_yearDigits by done.
  rewrite ltb_app by done.
  change (lit "-" ++ monthField m) with (MINUS :: monthField m).
  change (lit "-" ++ monthField m') with (MINUS :: monthField m').
  rewrite ltb_cons, yearDigits_lt, monthField_lt by done.
  split.
  - intros [H|[H [H'|[_ H']]]]; [by left|lia|].
    right. split; [|done]. by apply yearDigits_inj.
  - intros [H|[-> H]]; [by left|]. right. split; [done|]. by right.
Qed.

Lemma addToBucket_elem key p (G : buckets_t) k0 b0 q :
  (k0, b0) ∈ addToBucket key p G -> q ∈ b0 ->
  q = p \/ exists b1, (k0, b1) ∈ G /\ q ∈ b1.
Proof.
  induction G as [|[k c] G IH]; simpl; intros Hb Hq.
  - apply list_elem_of_singleton in Hb as [= -> ->].
    apply list_elem_of_singleton in Hq as ->. by left.
  - destruct (decide (k = key)) as [->|Hk].
    + apply elem_of_cons in Hb as [[= -> ->]|Hb].
      * apply elem_of_app in Hq as [Hq|Hq].
        -- right. exists c. split; [left|done].
        -- apply list_elem_of_singleton in Hq as ->. by left.
      * right. exists b0. split; [by right|done].
    + apply elem_of_cons in Hb as [[= -> ->]|Hb].
      * right. exists c. split; [left|done].
      * destruct (IH Hb Hq) as [H|(b2 & Hb2 & Hq2)]; [by left|].
        right. exists b2. split; [by right|done].
Qed.

(** A point of a bucket is a point of the data. *)
Lemma bucketsFrom_elem (G : buckets_t) data k0 b0 q :
  (k0, b0) ∈ bucketsFrom G data -> q ∈ b0 ->
  q ∈ data \/ exists b1, (k0, b1) ∈ G /\ q ∈ b1.
Proof.
  revert G. induction data as [|p data IH]; intros G Hb Hq; simpl in *.
  - right. by exists b0.
  - destruct (IH _ Hb Hq) as [H|(b1 & Hb1 & Hq1)]; [left; by right|].
    destruct (addToBucket_elem _ _ _ _ _ _ Hb1 Hq1) as [->|H]; [left; left|by right].
Qed.

Lemma monthOfBucket_key data key :
  key ∈ map fst (buckets data) ->
  formatKey (monthOfBucket (buckets data) key) = key
  /\ exists p, p ∈ data /\ monthOfBucket (buckets data) key = yearMonth (dateObj p).
Proof.
  intros Hkey. unfold monthOfBucket.
  destruct (keyIndex_elem_of _ _ Hkey) as [i Hi].
  destruct (keyIndex_Some _ _ _ Hi) as (b & Hb & ->).
  pose proof (buckets_nonempty data) as Hne.
  pose proof (buckets_keyed data) as Hkeyed.
  rewrite Forall_forall in Hne, Hkeyed.
  apply list_elem_of_lookup_2 in Hb.
  specialize (Hne _ Hb). specialize (Hkeyed _ Hb). simpl in *.
  destruct b as [|p b]; [done|].
  apply Forall_cons in Hkeyed as [Hp _]. split; [exact Hp|].
  exists p. split; [|done].
  destruct (bucketsFrom_elem [] data key (p :: b) p Hb ltac:(left)) as [H|(b1 & Hb1 & _)]; [done|].
  by apply elem_of_nil in Hb1.
Qed.

Lemma StronglySorted_fmap_impl {A B} (f : A -> B) (R : B -> B -> Prop)
    (Q : A -> A -> Prop) (l : list A) :
  (forall x y, x ∈ l -> y ∈ l -> R (f x) (f y) -> Q x y) ->
  StronglySorted R (map f l) -> StronglySorted Q l.
Proof.
  induction l as [|x l IH]; intros HRQ Hs; [constructor|].
  simpl in Hs. apply StronglySorted_inv in Hs as [Hs Hx].
  constructor.

  - apply IH; [|done]. intros y z Hy Hz. apply HRQ; by right.
  - apply Forall_forall. intros y Hy.
    apply HRQ; [left|by right|].
    eapply (proj1 (Forall_forall _ _) Hx). by apply list_elem_of_fmap_2.
Qed.

End FourDigitYears.

(** When every point has a valid date in a year from 1000 to 9999, the
    records come in the order of their calendar months: each record is the
    record of a month of the data, and each month is strictly before the
    month of the next record. *)
Theorem records_in_month_order_for_four_digit_years (data : list StockDataPoint) :
  Forall (fun p => fourDigitYear (dateObj p)) data ->
  exists out months,
    monthlyGrowthOf data = Ok out
    /\ map month out = map formatKey months
    /\ (forall ym, ym ∈ months -> exists p, p ∈ data /\ ym = yearMonth (dateObj p))
    /\ StronglySorted monthBefore months.
Proof.
  intros Hdata. rewrite Forall_forall in Hdata.
  assert (Hkeys : forall k, k ∈ sort defaultCompare (map fst (buckets data)) ->
                            k ∈ map fst (buckets data))
    by (intros k; by rewrite elem_of_sort).
  exists (monthlyGrowthFun data),
    (map (monthOfBucket (buckets data)) (sort defaultCompare (map fst (buckets data)))).
  split; [apply monthlyGrowthOf_fun|].
  rewrite month_monthlyGrowthFun.
  assert (Hfmt : map formatKey (map (monthOfBucket (buckets data))
                                  (sort defaultCompare (map fst (buckets data))))
                 = sort defaultCompare (map fst (buckets data))).
  { rewrite map_map.
    rewrite <- (map_id (sort defaultCompare (map fst (buckets data)))) at 2.
    apply map_ext_in. intros k Hk%list_elem_of_In.
    by destruct (monthOfBucket_key data k (Hkeys k Hk)) as [-> _]. }
  split_and!.
  - done.
  - intros ym (k & -> & Hk)%list_elem_of_fmap.
    destruct (monthOfBucket_key data k (Hkeys k Hk)) as (_ & p & Hp & ->).
    by exists p.
  - apply (StronglySorted_fmap_impl formatKey (fun x y => Str.ltb x y = true)).
    + intros ym ym' (k & -> & Hk)%list_elem_of_fmap (k' & -> & Hk')%list_elem_of_fmap.
      destruct (monthOfBucket_key data k (Hkeys k Hk)) as (_ & p & Hp & ->).
      destruct (monthOfBucket_key data k' (Hkeys k' Hk')) as (_ & p' & Hp' & ->).
      destruct (Hdata _ Hp) as (t & -> & Hy), (Hdata _ Hp') as (t' & -> & Hy').
      unfold yearMonth. simpl getFullYear. simpl getMonth.
      by apply formatKey_lt; try apply MonthFromTime_range.
    + rewrite Hfmt. apply sort_defaultCompare_ascending, buckets_NoDup.
Qed.

(** Scenario A has only years of four digits. *)
Lemma records_in_month_order_witness :
  exists out months,
    monthlyGrowthOf (omap pointOfLine (dataLinesOf scenarioA)) = Ok out
    /\ map month out = map formatKey months
    /\ (forall ym, ym ∈ months ->
          exists p, p ∈ omap pointOfLine (dataLinesOf scenarioA)
                    /\ ym = yearMonth (dateObj p))
    /\ StronglySorted monthBefore months.
Proof.
  apply (records_in_month_order_for_four_digit_years
           (omap pointOfLine (dataLinesOf scenarioA))).
  let pts := eval vm_compute in (omap pointOfLine (dataLinesOf scenarioA)) in
  change (omap pointOfLine (dataLinesOf scenarioA)) with pts.
  constructor; [|constructor; [|constructor; [|constructor]]]; simpl dateObj.
  - exists 1704067200000. split; [reflexivity|]. vm_compute. split; discriminate.
  - exists 1706659200000. split; [reflexivity|]. vm_compute. split; discriminate.
  - exists 1709164800000. split; [reflexivity|]. vm_compute. split; discriminate.
Defined.

(* ===================================================================== *)
(** ** The calendar *)
(* ===================================================================== *)

Section Calendar.

Lemma DayFromYear_succ y : DayFromYear (y + 1) = DayFromYear y + DaysInYear y.
Proof.
  unfold DayFromYear, DaysInYear.
  destruct (Z.eqb_spec (y mod 4) 0), (Z.eqb_spec (y mod 100) 0),
    (Z.eqb_spec (y mod 400) 0); simpl; Z.div_mod_to_equations; lia.
Qed.

Lemma DaysInYear_range y : 365 <= DaysInYear y <= 366.
Proof.
  unfold DaysInYear.
  destruct (y mod 4 =? 0), (y mod 100 =? 0), (y mod 400 =? 0); simpl; lia.
Qed.

(** [YearFromDay d] is the year [d] falls in. *)
Lemma YearFromDay_spec d :
  DayFromYear (YearFromDay d) <= d < DayFromYear (YearFromDay d + 1).
Proof.
  unfold YearFromDay.
  set (y0 := 1970 + 400 * d / 146097).
  assert (H0 : DayFromYear (y0 - 1) <= d < DayFromYear (y0 + 2)).
  { unfold DayFromYear, y0. Z.div_mod_to_equations. lia. }
  pose proof (DayFromYear_succ (y0 - 1)) as H1.
  pose proof (DayFromYear_succ y0) as H2.
  pose proof (DayFromYear_succ (y0 + 1)) as H3.
  replace (y0 - 1 + 1) with y0 in H1 by lia.
  replace (y0 + 1 + 1) with (y0 + 2) in H3 by lia.
  destruct (Z.ltb_spec d (DayFromYear y0)).
  - replace (y0 - 1 + 1) with y0 by lia. lia.
  - destruct (Z.leb_spec (DayFromYear (y0 + 1)) d).
    + replace (y0 + 1 + 1) with (y0 + 2) by lia. lia.
    + lia.
Qed.

Lemma DayFromYear_mono y y' : y <= y' -> DayFromYear y <= DayFromYear y'.
Proof. unfold DayFromYear. intros H. Z.div_mod_to_equations. lia. Qed.

Lemma YearFromDay_unique d y :
  DayFromYear y <= d < DayFromYear (y + 1) -> YearFromDay d = y.
Proof.
  intros H. pose proof (YearFromDay_spec d) as H'.
  destruct (Z.lt_trichotomy (YearFromDay d) y) as [Hlt|[->|Hgt]]; [|done|].
  - pose proof (DayFromYear_mono (YearFromDay d + 1) y ltac:(lia)). lia.
  - pose proof (DayFromYear_mono (y + 1) (YearFromDay d) ltac:(lia)). lia.
Qed.

End Calendar.

(** The calendar fields of a date built from a year, a month from 0 to 11
    and a day from 1 to 28 are that year and that month. *)
Theorem date_fields_round_trip (y m dt : Z) :
  0 <= m <= 11 -> 1 <= dt <= 28 ->
  YearFromTime (MakeDay y m dt * msPerDay) = y
  /\ MonthFromTime (MakeDay y m dt * msPerDay) = m.
Proof.
  intros Hm Hdt.
  assert (Hday : Day (MakeDay y m dt * msPerDay) = MakeDay y m dt)
    by (unfold Day, msPerDay; by rewrite Z.div_mul).
  assert (Hdiv : m / 12 = 0) by (apply Z.div_small; lia).
  assert (Hmod : m mod 12 = m) by (apply Z.mod_small; lia).
  assert (Hleap : 0 <= InLeapYear y <= 1)
    by (unfold InLeapYear; destruct (DaysInYear y =? 366); lia).
  assert (Hlen : DaysInYear y = 365 + InLeapYear y).
  { unfold InLeapYear. pose proof (DaysInYear_range y).
    destruct (Z.eqb_spec (DaysInYear y) 366); lia. }
  assert (Hmake : MakeDay y m dt = DayFromYear y + monthStart m (InLeapYear y) + dt - 1).
  { unfold MakeDay. cbv zeta. rewrite Hdiv, Hmod. by replace (y + 0) with y by lia. }
  assert (Hyear : YearFromTime (MakeDay y m dt * msPerDay) = y).
  { unfold YearFromTime. rewrite Hday. apply YearFromDay_unique.
    rewrite DayFromYear_succ, Hlen, Hmake.
    destruct (month_cases m Hm)
      as [->|[->|[->|[->|[->|[->|[->|[->|[->|[->|[->| ->]]]]]]]]]]];
      simpl monthStart; lia. }
  split; [done|].
  unfold MonthFromTime, DayWithinYear. rewrite Hyear, Hday, Hmake.
  destruct (month_cases m Hm)
    as [->|[->|[->|[->|[->|[->|[->|[->|[->|[->|[->| ->]]]]]]]]]]];
    simpl monthStart;
    repeat match goal with
           | |- context [?a <? ?b] => destruct (Z.ltb_spec a b); try lia
           end.
Qed.

(** The 28th of February 2024 is in February 2024. *)
Lemma date_fields_round_trip_witness :
  YearFromTime (MakeDay 2024 1 28 * msPerDay) = 2024
  /\ MonthFromTime (MakeDay 2024 1 28 * msPerDay) = 1.
Proof. apply (date_fields_round_trip 2024 1 28); lia. Defined.

(* ===================================================================== *)
(** ** A single point *)
(* ===================================================================== *)

Lemma sub_diag_finite (x : number) : finite x -> sub x x = num 0.
Proof.
  unfold finite, sub. destruct x as [[]|[]| |s m e]; simpl; try done.
  intros _. rewrite Z.min_id. unfold shl_align. by rewrite Z.sub_diag.
Qed.

(** One point gives one record, of its month, that starts and ends at the
    point's value; its growth is 0 when the value is finite.  So does the
    single row of Scenario E, with the value 500. *)
Theorem single_point_record :
  (forall p : StockDataPoint,
      exists r,
        monthlyGrowthOf [p] = Ok [r]
        /\ month r = monthKeyOf p
        /\ startValue r = value p /\ endValue r = value p
        /\ (finite (value p) -> growth r = num 0))
  /\ exists p r,
       parseCSV scenarioE = Ok [p]
       /\ monthlyGrowthOf [p] = Ok [r]
       /\ r = {| month := lit "2024-03"; startValue := num 500; endValue := num 500;
                 growth := num 0; growthPercent := num 0 |}.
Proof.
  split.
  - intros p. rewrite monthlyGrowthOf_fun.
    unfold monthlyGrowthFun, buckets, bucketsFrom. simpl.
    unfold monthRecord. simpl.
    destruct (decide (monthKeyOf p = monthKeyOf p)) as [_|H]; [|done].
    eexists. split; [reflexivity|]. simpl.
    split_and!; try done. apply sub_diag_finite.
  - eexists _, _. split; [vm_compute; reflexivity|].
    split; vm_compute; reflexivity.
Qed.

(* ===================================================================== *)
(** ** The bounds of the matcher's loops *)
(* ===================================================================== *)

Section Matcher.

Lemma suffix_length_le (s' s : jsstring) : suffix s' s -> (length s' <= length s)%nat.
Proof. intros [k ->]. rewrite length_app. lia. Qed.

Section Repeat.
Variable m : jsstring -> continuation -> option jsstring.
Hypothesis m_ok : wellBehaved m.
Variable greedy : bool.

Lemma repeatMatcher_suffix k fuel min s e :
  repeatMatcher m greedy k fuel min s = Some e ->
  exists s', suffix s' s /\ k s' = Some e.
Proof.
  destruct m_ok as [Hsuf _].
  revert min s. induction fuel as [|fuel IH]; intros min s; simpl.
  - destruct min; [|done]. intros H. by exists s.
  - destruct min as [|min].
    + assert (Hagain :
        m s (fun s' => if (length s' <? length s)%nat
                       then repeatMatcher m greedy k fuel 0 s' else None) = Some e ->
        exists s', suffix s' s /\ k s' = Some e).
      { intros (s1 & Hs1 & H)%Hsuf.
        destruct (length s1 <? length s)%nat; [|done].
        apply IH in H as (s2 & Hs2 & H). exists s2. split; [by etrans|done]. }
      destruct greedy.
      * destruct (m s _) as [e'|] eqn:E.
        -- intros [= <-]. by apply Hagain.
        -- intros H. by exists s.
      * destruct (k s) as [e'|] eqn:E.
        -- intros [= <-]. by exists s.
        -- apply Hagain.
    + intros (s1 & Hs1 & H)%Hsuf.
      apply IH in H as (s2 & Hs2 & H). exists s2. split; [by etrans|done].
Qed.

Lemma repeatMatcher_ext k k' fuel min s :
  (forall s', suffix s' s -> k s' = k' s') ->
  repeatMatcher m greedy k fuel min s = repeatMatcher m greedy k' fuel min s.
Proof.
  destruct m_ok as [_ Hext].
  revert min s. induction fuel as [|fuel IH]; intros min s Hk; simpl.
  - destruct min; [|done]. by apply Hk.
  - destruct min as [|min].
    + rewrite (Hk s) by done.
      rewrite (Hext s _ (fun s' => if (length s' <? length s)%nat
                                   then repeatMatcher m greedy k' fuel 0 s' else None));
        [done|].
      intros s' Hs'. destruct (length s' <? length s)%nat; [|done].
      apply IH. intros s'' Hs''. apply Hk. by etrans.
    + apply Hext. intros s' Hs'. apply IH. intros s'' Hs''. apply Hk. by etrans.
Qed.

Lemma repeatMatcher_at_end k fuel :
  repeatMatcher m greedy k fuel 0 [] = k [].
Proof.
  destruct m_ok as [Hsuf _].
  destruct fuel as [|fuel]; simpl; [done|].
  assert (Hnone : m [] (fun _ : jsstring => None) = None).
  { destruct (m [] (fun _ => None)) as [e|] eqn:E; [|done].
    by apply Hsuf in E as (s' & _ & ?). }
  rewrite Hnone. destruct greedy; [done|]. by destruct (k []).
Qed.

(** More iterations than [min + length s] change nothing. *)
Lemma repeatMatcher_fuel k fuel fuel' min s :
  (min + length s <= fuel)%nat -> (min + length s <= fuel')%nat ->
  repeatMatcher m greedy k fuel min s = repeatMatcher m greedy k fuel' min s.
Proof.
  destruct m_ok as [_ Hext].
  revert fuel' min s. induction fuel as [|fuel IH]; intros fuel' min s Hf Hf'.
  - destruct min; [|lia]. destruct s; [|simpl in Hf; lia].
    by rewrite !repeatMatcher_at_end.
  - destruct fuel' as [|fuel'].
    { destruct min; [|lia]. destruct s; [|simpl in Hf'; lia].
      by rewrite !repeatMatcher_at_end. }
    simpl. destruct min as [|min].
    + rewrite (Hext s _ (fun s' => if (length s' <? length s)%nat
                                   then repeatMatcher m greedy k fuel' 0 s' else None));
        [done|].
      intros s' Hs'. destruct (Nat.ltb_spec (length s') (length s)); [|done].
      apply IH; simpl in *; lia.
    + apply Hext. intros s' Hs'. apply suffix_length_le in Hs'.
      apply IH; simpl in *; lia.
Qed.

End Repeat.

Lemma matcher_wellBehaved r : wellBehaved (matcher r).
Proof.
  induction r as [p|r1 IH1 r2 IH2|r1 IH1 r2 IH2|min greedy r IH|r IH| |r IH].
  - split.
    + intros [|c s] k e; simpl; [done|]. destruct (p c); [|done].
      intros H. exists s. split; [apply suffix_cons_r; done|done].
    + intros [|c s] k k' Hk; simpl; [done|]. destruct (p c); [|done].
      apply Hk. by apply suffix_cons_r.
  - destruct IH1 as [Hs1 He1], IH2 as [Hs2 He2]. split.
    + intros s k e (s1 & Hsuf1 & H)%Hs1. apply Hs2 in H as (s2 & Hsuf2 & H).
      exists s2. split; [by etrans|done].
    + intros s k k' Hk. simpl. apply He1. intros s' Hs'.
      apply He2. intros s'' Hs''. apply Hk. by etrans.
  - destruct IH1 as [Hs1 He1], IH2 as [Hs2 He2]. split.
    + intros s k e. simpl. destruct (matcher r1 s k) as [e'|] eqn:E.
      * intros [= <-]. by apply Hs1.
      * apply Hs2.
    + intros s k k' Hk. simpl. by rewrite (He1 s k k' Hk), (He2 s k k' Hk).
  - split.
    + intros s k e. simpl. by apply repeatMatcher_suffix.
    + intros s k k' Hk. simpl. by apply repeatMatcher_ext.
  - split.
    + intros s k e. simpl. destruct (matcher r s Some); [|done].
      intros H. by exists s.
    + intros s k k' Hk. simpl. destruct (matcher r s Some); [|done]. by apply Hk.
  - split.
    + intros [|c s] k e; simpl; [|done]. intros H. by exists [].
    + intros [|c s] k k' Hk; simpl; [|done]. by apply Hk.
  - done.
Qed.

(** What [exec] leaves is an end of its input, shorter when the match is
    not empty. *)
Lemma exec_rest r s mt rest :
  exec r s = Some (mt, rest) ->
  (length rest <= length s)%nat /\ (mt <> [] -> (length rest < length s)%nat).
Proof.
  induction s as [|c s IH]; simpl.
  - destruct (matcher r [] Some) as [e|] eqn:E; [|done].
    intros [= <- <-].
    apply (proj1 (matcher_wellBehaved r)) in E as (s' & Hs' & [= ->]).
    apply suffix_length_le in Hs'. simpl in *. split; [done|].
    by destruct e.
  - destruct (matcher r (c :: s) Some) as [e|] eqn:E.
    + intros [= <- <-].
      apply (proj1 (matcher_wellBehaved r)) in E as (s' & Hs' & [= ->]).
      apply suffix_length_le in Hs'. simpl in *. split; [done|].
      intros Hmt. destruct (decide (length e = S (length s))) as [Heq|]; [|lia].
      rewrite Heq, Nat.sub_diag in Hmt. done.
    + intros H. apply IH in H. lia.
Qed.

(** The loop of [match] never runs out of iterations: more than
    [length s + 1] of them change nothing. *)
Lemma matchLoop_fuel r fuel fuel' s :
  (length s < fuel)%nat -> (length s < fuel')%nat ->
  matchLoop fuel r s = matchLoop fuel' r s.
Proof.
  revert fuel' s. induction fuel as [|fuel IH]; intros fuel' s Hf Hf'; [lia|].
  destruct fuel' as [|fuel']; [lia|]. simpl.
  destruct (exec r s) as [[mt rest]|] eqn:E; [|done].
  apply exec_rest in E as [Hle Hlt]. f_equal.
  destruct mt as [|c mt].
  - destruct rest as [|c rest]; [done|]. simpl in Hle. apply IH; lia.
  - specialize (Hlt ltac:(done)). apply IH; lia.
Qed.

End Matcher.

(** The iteration bounds of the matcher are never what stops it.  A
    repetition [r{min,}] tried on the input [s] gives the same result with
    [min + length s] iterations as with any more, and [s.match(r)] finds
    the same matches with [length s + 1] searches as with any more. *)
Theorem matcher_bounds_suffice (r : regex) (s : jsstring) :
  (forall greedy k min fuel,
      (min + length s <= fuel)%nat ->
      repeatMatcher (matcher r) greedy k fuel min s
      = matcher (Rep min greedy r) s k)
  /\ (forall fuel,
        (length s < fuel)%nat ->
        matchLoop fuel r s = matchLoop (S (length s)) r s).
Proof.
  split.
  - intros greedy k min fuel H. simpl.
    apply repeatMatcher_fuel; [apply matcher_wellBehaved|lia|lia].
  - intros fuel H. apply matchLoop_fuel; lia.
Qed.

(** Twice the iterations on a line of Scenario A. *)
Lemma matcher_bounds_suffice_witness :
  matchLoop (2 * S (length (lit "2024/01/01,1000"))) tokenRegex (lit "2024/01/01,1000")
  = matchLoop (S (length (lit "2024/01/01,1000"))) tokenRegex (lit "2024/01/01,1000").
Proof.
  destruct (matcher_bounds_suffice tokenRegex (lit "2024/01/01,1000")) as [_ H].
  apply H. simpl. lia.
Defined.

(* ===================================================================== *)
(** ** The two functions as list functions *)
(* ===================================================================== *)

(** On a store that holds the points [points] at the address [data], the
    call [calculateMonthlyGrowth(data)] returns the records of
    [monthlyGrowthFun points]: the points are put in buckets by month key,
    the keys are sorted as strings, and the record of a key ends at the value
    of the last point of its sorted bucket and starts at the value of the
    first point of that bucket for the first key, at the end of the record
    before it for the others. *)
Theorem calculateMonthlyGrowth_computes_monthlyGrowthFun
    (st : store) (data : loc) (points : list StockDataPoint) :
  st !! data = Some points ->
  exists st', calculateMonthlyGrowth data st = Ok (monthlyGrowthFun points, st').
Proof. intros H. eexists. by apply calculateMonthlyGrowth_run. Qed.

Lemma calculateMonthlyGrowth_computes_monthlyGrowthFun_witness :
  exists st',
    calculateMonthlyGrowth 0%nat [omap pointOfLine (dataLinesOf scenarioA)]
    = Ok (monthlyGrowthFun (omap pointOfLine (dataLinesOf scenarioA)), st').
Proof.
  apply (calculateMonthlyGrowth_computes_monthlyGrowthFun
           [omap pointOfLine (dataLinesOf scenarioA)] 0%nat
           (omap pointOfLine (dataLinesOf scenarioA))).
  reflexivity.
Defined.

(** [parseCSV] returns the points of the data lines that have at least two
    tokens, each once, whatever their dates are: the sort loses no row and
    repeats none. *)
Theorem parseCSV_keeps_every_row (text : jsstring) :
  exists out,
    parseCSV text = Ok out
    /\ out ≡ₚ omap pointOfLine (dataLinesOf text)
    /\ length out = length (List.filter (fun line => (2 <=? tokenCount line)%nat)
                                        (dataLinesOf text)).
Proof.
  exists (sort byDate (omap pointOfLine (dataLinesOf text))).
  split; [apply parseCSV_fun|]. split; [apply sort_Permutation|].
  rewrite length_sort.
  induction (dataLinesOf text) as [|line lines IH]; [done|].
  change (omap pointOfLine (line :: lines))
    with (match pointOfLine line with
          | Some p => p :: omap pointOfLine lines
          | None => omap pointOfLine lines
          end).
  cbn [List.filter].
  destruct (pointOfLine line) as [p|] eqn:E.
  - assert (Hn : ~ (tokenCount line < 2)%nat)
      by (intros H%pointOfLine_None; congruence).
    destruct (Nat.leb_spec 2 (tokenCount line)); [|lia].
    simpl. by rewrite IH.
  - apply pointOfLine_None in E.
    destruct (Nat.leb_spec 2 (tokenCount line)); [lia|]. done.
Qed.

(* ===================================================================== *)
(** ** The date inputs of the chart *)
(* ===================================================================== *)

Section DateFields.

Lemma Day_mul d : Day (d * msPerDay) = d.
Proof. unfold Day, msPerDay. by rewrite Z.div_mul. Qed.

Lemma Day_decompose t : t = Day t * msPerDay + TimeWithinDay t.
Proof. unfold Day, TimeWithinDay, msPerDay. Z.div_mod_to_equations. lia. Qed.

Lemma Day_shift t k : Day (t + k * msPerDay) = Day t + k.
Proof. unfold Day, msPerDay. by rewrite Z.div_add. Qed.

Lemma InLeapYear_range y : 0 <= InLeapYear y <= 1.
Proof. unfold InLeapYear. destruct (DaysInYear y =? 366); lia. Qed.

Lemma DaysInYear_leap y : DaysInYear y = 365 + InLeapYear y.
Proof.
  unfold InLeapYear. pose proof (DaysInYear_range y).
  destruct (Z.eqb_spec (DaysInYear y) 366); lia.
Qed.

Lemma DayWithinYear_range t :
  0 <= DayWithinYear t < 365 + InLeapYear (YearFromTime t).
Proof.
  unfold DayWithinYear, YearFromTime.
  pose proof (YearFromDay_spec (Day t)) as H.
  rewrite DayFromYear_succ, DaysInYear_leap in H. lia.
Qed.

(** The day of the month is from 1 to 31. *)
Lemma DateFromTime_range t : 1 <= DateFromTime t <= 31.
Proof.
  pose proof (DayWithinYear_range t) as H.
  pose proof (InLeapYear_range (YearFromTime t)) as Hl.
  unfold DateFromTime, MonthFromTime.
  repeat match goal with
         | |- context [?a <? ?b] => destruct (Z.ltb_spec a b)
         end; simpl monthStart; lia.
Qed.

Lemma MakeDay_month y m dt :
  0 <= m <= 11 -> MakeDay y m dt = DayFromYear y + monthStart m (InLeapYear y) + dt - 1.
Proof.
  intros Hm. unfold MakeDay. cbv zeta.
  rewrite (Z.div_small m 12), (Z.mod_small m 12) by lia.
  by replace (y + 0) with y by lia.
Qed.

(** The year, the month and the day of the month of a time value give back
    its day number. *)
Lemma MakeDay_fields t :
  MakeDay (YearFromTime t) (MonthFromTime t) (DateFromTime t) = Day t.
Proof.
  rewrite MakeDay_month by apply MonthFromTime_range.
  unfold DateFromTime, DayWithinYear. lia.
Qed.

Lemma MakeDay_shift y m dt k : MakeDay y m (dt + k) = MakeDay y m dt + k.
Proof. unfold MakeDay. lia. Qed.

Lemma MakeFullYear_id y : 100 <= y -> MakeFullYear y = y.
Proof.
  intros H. unfold MakeFullYear.
  destruct (Z.leb_spec 0 y), (Z.leb_spec y 99); simpl; lia.
Qed.

Lemma YearFromDay_mono d d' : d <= d' -> YearFromDay d <= YearFromDay d'.
Proof.
  intros H. pose proof (YearFromDay_spec d). pose proof (YearFromDay_spec d').
  destruct (Z.le_gt_cases (YearFromDay d) (YearFromDay d')) as [|Hgt]; [done|].
  pose proof (DayFromYear_mono (YearFromDay d' + 1) (YearFromDay d) ltac:(lia)). lia.
Qed.

(** The time values of the years 1000 to 9999 are far within the range of
    a Date, and stay so 400 days earlier. *)
Lemma fourDigit_day_range t :
  1000 <= YearFromTime t <= 9999 -> -354285 <= Day t < 2932897.
Proof.
  unfold YearFromTime. intros H.
  pose proof (YearFromDay_spec (Day t)) as Hs.
  pose proof (DayFromYear_mono 1000 (YearFromDay (Day t)) ltac:(lia)) as H1.
  pose proof (DayFromYear_mono (YearFromDay (Day t) + 1) 10000 ltac:(lia)) as H2.
  change (DayFromYear 1000) with (-354285) in H1.
  change (DayFromYear 10000) with 2932897 in H2. lia.
Qed.

Lemma TimeClip_day d :
  -100000000 <= d <= 100000000 -> TimeClip (d * msPerDay) = DateAt (d * msPerDay).
Proof.
  intros H. unfold TimeClip, msPerDay.
  destruct (Z.leb_spec (Z.abs (d * 86400000)) 8640000000000000); [done|lia].
Qed.

End DateFields.


(* ===================================================================== *)
(** ** Integers as Numbers *)
(* ===================================================================== *)

Section Integers.

Lemma digits2_pos_shift p d :
  digits2_pos (Pos.iter xO p d) = (digits2_pos p + d)%positive.
Proof.
  rewrite (Pos.iter_swap_gen _ _ digits2_pos xO Pos.succ) by done.
  induction d as [|d IH] using Pos.peano_ind.
  - simpl. lia.
  - rewrite Pos.iter_succ, IH. lia.
Qed.

Lemma Zpos_shift p d : Zpos (Pos.iter xO p d) = Zpos p * 2 ^ Zpos d.
Proof.
  rewrite (Pos.iter_swap_gen _ _ Zpos xO (Z.mul 2)) by done.
  rewrite <- Z.shiftl_mul_pow2 by lia. reflexivity.
Qed.

(** A mantissa of 53 binary digits is not rounded. *)
Lemma binary_round_aux_exact (m : positive) (e : Z) :
  Zpos (digits2_pos m) = 53 -> -1074 <= e <= 971 ->
  binary_round_aux prec emax false (Zpos m) e loc_Exact = S754_finite false m e.
Proof.
  intros Hm He.
  assert (Hshift : fexp prec emax (Zdigits2 (Zpos m) + e) - e = 0).
  { unfold fexp, emin, prec, emax. cbn [Zdigits2]. rewrite Hm. lia. }
  unfold binary_round_aux, shr_fexp. cbn [shr_record_of_loc].
  rewrite Hshift. cbn [shr shr_m loc_of_shr_record round_nearest_even shr_record_of_loc].
  rewrite Hshift. cbn [shr shr_m].
  unfold emax, prec. destruct (Z.leb_spec e (1024 - 53)); [done|lia].
Qed.

(** The Number of a positive integer of at most 53 binary digits is that
    integer. *)
Lemma truncate_num_pos (p : positive) :
  Zpos (digits2_pos p) <= 53 -> truncate (num (Zpos p)) = Some (Zpos p).
Proof.
  intros Hp. unfold num, binary_normalize, binary_round, shl_align.
  assert (Hf : fexp prec emax (Zpos (digits2_pos p) + 0) - 0 = Zpos (digits2_pos p) - 53).
  { unfold fexp, emin, prec, emax. lia. }
  assert (Hf0 : fexp prec emax (Zpos (digits2_pos p) + 0) = Zpos (digits2_pos p) - 53).
  { unfold fexp, emin, prec, emax. lia. }
  rewrite Hf, Hf0.
  destruct (Zpos (digits2_pos p) - 53) as [|d|d] eqn:Hd; [|lia|].
  - rewrite binary_round_aux_exact by lia. cbn [truncate cond_Zopp]. f_equal.
    change (0 <=? 0) with true. cbv iota. lia.
  - rewrite binary_round_aux_exact by (rewrite ?digits2_pos_shift; lia).
    cbn [truncate cond_Zopp]. f_equal.
    destruct (Z.leb_spec 0 (Z.neg d)); [lia|].
    rewrite Zpos_shift. change (- Z.neg d) with (Zpos d).
    apply Z.div_mul. lia.
Qed.

Lemma digits2_pos_small (p : positive) (k : Z) :
  0 <= k -> Zpos p < 2 ^ k -> Zpos (digits2_pos p) <= k.
Proof.
  revert k. induction p as [p IH|p IH|]; intros k Hk Hp; cbn [digits2_pos].
  - destruct (Z.eq_dec k 0) as [->|]; [simpl in Hp; lia|].
    rewrite Pos2Z.inj_succ. specialize (IH (k - 1) ltac:(lia)).
    replace k with (Z.succ (k - 1)) in Hp by lia. rewrite Z.pow_succ_r in Hp by lia.
    lia.
  - destruct (Z.eq_dec k 0) as [->|]; [simpl in Hp; lia|].
    rewrite Pos2Z.inj_succ. specialize (IH (k - 1) ltac:(lia)).
    replace k with (Z.succ (k - 1)) in Hp by lia. rewrite Z.pow_succ_r in Hp by lia.
    lia.
  - destruct (Z.eq_dec k 0) as [->|]; [simpl in Hp; lia|]. lia.
Qed.

(** The Number of an integer from 1 to 2^53 - 1 is that integer. *)
Lemma truncate_num (z : Z) : 0 < z < 2 ^ 53 -> truncate (num z) = Some z.
Proof.
  intros Hz. destruct z as [|p|p]; try lia.
  apply truncate_num_pos, digits2_pos_small; lia.
Qed.

End Integers.

Section NumberOfDigits.

Lemma trimStart_id (s : jsstring) :
  (forall c s', s = c :: s' -> isWhiteSpace c = false) -> trimStart s = s.
Proof. destruct s as [|c s']; [done|]. intros H. simpl. by rewrite (H c s'). Qed.

Lemma trim_no_whiteSpace (s : jsstring) :
  Forall (fun c => isWhiteSpace c = false) s -> trim s = s.
Proof.
  intros H. unfold trim, trimEnd. rewrite (trimStart_id s).
  - rewrite trimStart_id; [apply rev_involutive|].
    intros c s' Hs. rewrite Forall_forall in H. apply H.
    apply list_elem_of_In, in_rev. rewrite Hs. by left.
  - intros c s' ->. by apply Forall_inv in H.
Qed.

Lemma radix_digitChar (d : N) :
  (d < 10)%N ->
  ((48 + d =? 120) || (48 + d =? 88) = false
   /\ (48 + d =? 111) || (48 + d =? 79) = false
   /\ (48 + d =? 98) || (48 + d =? 66) = false)%N.
Proof.
  intros H.
  destruct (digit_cases d H) as [->|[->|[->|[->|[->|[->|[->|[->|[->| ->]]]]]]]]]; done.
Qed.

Lemma readNonDecimal_digitChars ds :
  Forall (fun d => (d < 10)%N) ds -> readNonDecimal (digitChars ds) = None.
Proof.
  intros H. destruct ds as [|d [|d' ds]]; try done.
  apply Forall_cons in H as [_ H]. apply Forall_inv in H.
  destruct (radix_digitChar d' H) as (H1 & H2 & H3).
  unfold readNonDecimal. cbn [digitChars map].
  destruct (48 + d =? 48)%N; [|done]. by rewrite H1, H2, H3.
Qed.

Lemma stripPrefix_Infinity_digitChar d s :
  (d < 10)%N -> stripPrefix (lit "Infinity") ((48 + d)%N :: s) = None.
Proof.
  intros H.
  destruct (digit_cases d H) as [->|[->|[->|[->|[->|[->|[->|[->|[->| ->]]]]]]]]]; done.
Qed.

Lemma readUnsignedDecimal_digitChars ds :
  ds <> [] -> Forall (fun d => (d < 10)%N) ds ->
  readUnsignedDecimal false (digitChars ds)
  = Some (decimalToNumber false (digitsValue 10 ds) 0, []).
Proof.
  intros Hne Hds. destruct ds as [|d ds]; [done|]. clear Hne.
  pose proof (Forall_inv Hds) as Hd.
  unfold readUnsignedDecimal.
  change (digitChars (d :: ds)) with ((48 + d)%N :: digitChars ds) at 1.
  rewrite (stripPrefix_Infinity_digitChar d _ Hd).
  rewrite <- (app_nil_r (digitChars (d :: ds))).
  rewrite (spanDigits_digitChars (d :: ds) [] Hds) by done.
  cbn [app length]. by rewrite app_nil_r.
Qed.

(** [Number] of a text of decimal digits: the integer the digits denote. *)
Lemma Number_digitChars ds :
  ds <> [] -> Forall (fun d => (d < 10)%N) ds ->
  Number (digitChars ds) = decimalToNumber false (digitsValue 10 ds) 0.
Proof.
  intros Hne Hds.
  pose proof (readNonDecimal_digitChars ds Hds) as F2.
  pose proof (readUnsignedDecimal_digitChars ds Hne Hds) as F4.
  assert (F1 : trim (digitChars ds) = digitChars ds).
  { apply trim_no_whiteSpace. unfold digitChars. apply Forall_fmap.
    eapply Forall_impl; [exact Hds|]. intros c Hc. by apply isWhiteSpace_digitChar. }
  assert (F3 : readSign (digitChars ds) = (false, digitChars ds)).
  { destruct ds as [|d ds]; [done|]. apply readSign_digitChar. by apply Forall_inv in Hds. }
  unfold Number. rewrite F1.
  destruct (digitChars ds) as [|c s] eqn:E; [by destruct ds|].
  by rewrite F2, F3, F4.
Qed.

(** A year of four digits reads back as itself. *)
Lemma Number_yearDigits y :
  1000 <= y <= 9999 -> truncate (Number (yearDigits y)) = Some y.
Proof.
  intros Hy.
  change (yearDigits y)
    with (digitChars [Z.to_N (y / 1000); Z.to_N ((y / 100) mod 10);
                      Z.to_N ((y / 10) mod 10); Z.to_N (y mod 10)]).
  rewrite Number_digitChars;
    [|done|repeat (constructor; [cbv beta; Z.div_mod_to_equations; lia|]); constructor].
  assert (Hv : digitsValue 10 [Z.to_N (y / 1000); Z.to_N ((y / 100) mod 10);
                               Z.to_N ((y / 10) mod 10); Z.to_N (y mod 10)]
               = Z.to_N y).
  { unfold digitsValue. cbn [fold_left].
    assert (H : y = 10 * (10 * (10 * (y / 1000) + (y / 100) mod 10) + (y / 10) mod 10)
                    + y mod 10) by (Z.div_mod_to_equations; lia).
    assert (0 <= y / 1000) by (apply Z.div_pos; lia).
    assert (0 <= (y / 100) mod 10) by (apply Z.mod_pos_bound; lia).
    assert (0 <= (y / 10) mod 10) by (apply Z.mod_pos_bound; lia).
    assert (0 <= y mod 10) by (apply Z.mod_pos_bound; lia).
    generalize dependent (y / 1000). generalize dependent ((y / 100) mod 10).
    generalize dependent ((y / 10) mod 10). generalize dependent (y mod 10).
    intros. lia. }
  rewrite Hv. destruct y as [|p|p]; try lia.
  cbn [Z.to_N decimalToNumber]. change (0 <=? 0) with true. cbv iota.
  cbn [cond_Zopp]. rewrite Z.pow_0_r, Z.mul_1_r.
  apply truncate_num. lia.
Qed.

End NumberOfDigits.

Section DateInput.

Lemma split_app_sep sep (a rest : jsstring) :
  sep ∉ a -> split sep (a ++ sep :: rest) = a :: split sep rest.
Proof.
  induction a as [|c a IH]; intros Ha.
  - simpl. by rewrite N.eqb_refl.
  - apply not_elem_of_cons in Ha as [Hc Ha]. simpl.
    destruct (N.eqb_spec c sep); [done|]. by rewrite IH.
Qed.

Lemma yearDigits_no_minus y : 0 <= y -> MINUS ∉ yearDigits y.
Proof.
  intros Hy. unfold yearDigits. intros H.
  apply list_elem_of_fmap in H as (d & Hd & _).
  unfold MINUS in Hd. lia.
Qed.

Lemma monthField_parse m :
  0 <= m <= 11 ->
  (MINUS ∉ monthField m)
  /\ truncate (sub (Number (monthField m)) (num 1)) = Some m.
Proof.
  intros H.
  destruct (month_cases m H)
    as [->|[->|[->|[->|[->|[->|[->|[->|[->|[->|[->| ->]]]]]]]]]]];
    (split; [vm_compute; set_solver | reflexivity]).
Qed.

Lemma dayField_check :
  forallb (fun n => bool_decide (MINUS ∉ dayField (1 + Z.of_nat n))
                    && bool_decide (truncate (Number (dayField (1 + Z.of_nat n)))
                                    = Some (1 + Z.of_nat n)))
          (seq 0 31) = true.
Proof. vm_compute. reflexivity. Qed.

Lemma dayField_parse d :
  1 <= d <= 31 ->
  (MINUS ∉ dayField d) /\ truncate (Number (dayField d)) = Some d.
Proof.
  intros Hd. pose proof dayField_check as H.
  rewrite forallb_forall in H.
  specialize (H (Z.to_nat (d - 1))).
  replace (1 + Z.of_nat (Z.to_nat (d - 1))) with d in H by lia.
  apply andb_true_iff in H as [H1 H2]; [|apply in_seq; lia].
  by apply bool_decide_eq_true in H1, H2.
Qed.

Lemma formatDateForInput_valid t :
  formatDateForInput (DateAt t)
  = intToString (Some (YearFromTime t)) ++ MINUS :: monthField (MonthFromTime t)
      ++ MINUS :: dayField (DateFromTime t).
Proof. reflexivity. Qed.

Lemma parseInputDate_fields now (y m d : Z) :
  1000 <= y <= 9999 -> 0 <= m <= 11 -> 1 <= d <= 31 ->
  parseInputDate now (yearDigits y ++ MINUS :: monthField m ++ MINUS :: dayField d)
  = TimeClip (MakeDay y m d * msPerDay).
Proof.
  intros Hy Hm Hd.
  destruct (monthField_parse m Hm) as [Hm1 Hm2].
  destruct (dayField_parse d Hd) as [Hd1 Hd2].
  unfold parseInputDate.
  destruct (yearDigits y ++ MINUS :: monthField m ++ MINUS :: dayField d) eqn:E.
  { by destruct (yearDigits y). }
  rewrite <- E. clear E.
  rewrite split_app_sep by (apply yearDigits_no_minus; lia).
  rewrite split_app_sep by done.
  rewrite split_no_sep by done.
  cbn [map lookup list_lookup toNumber].
  unfold newDate. rewrite Number_yearDigits, Hm2, Hd2 by done.
  by rewrite MakeFullYear_id by lia.
Qed.

Lemma parseInputDate_format now t :
  1000 <= YearFromTime t <= 9999 ->
  parseInputDate now (formatDateForInput (DateAt t)) = DateAt (Day t * msPerDay).
Proof.
  intros Hy. rewrite formatDateForInput_valid, intToString_yearDigits by done.
  rewrite parseInputDate_fields;
    [|done|apply MonthFromTime_range|apply DateFromTime_range].
  rewrite MakeDay_fields. apply TimeClip_day.
  pose proof (fourDigit_day_range t Hy). lia.
Qed.

End DateInput.

(** A date written into a date input reads back as the same day.  For a
    date in one of the years 1000 to 9999, the text [formatDateForInput]
    makes is read by [parseInputDate] as the midnight that starts the day of
    the date: the date itself when it is a midnight, as the dates of
    [parseCSV] are; and writing that midnight gives the same text again. *)
Theorem date_input_round_trip now (t : Z) :
  1000 <= YearFromTime t <= 9999 ->
  parseInputDate now (formatDateForInput (DateAt t)) = DateAt (Day t * msPerDay)
  /\ formatDateForInput (DateAt (Day t * msPerDay)) = formatDateForInput (DateAt t)
  /\ (TimeWithinDay t = 0 ->
      parseInputDate now (formatDateForInput (DateAt t)) = DateAt t).
Proof.
  intros Hy. split; [by apply parseInputDate_format|]. split.
  - unfold formatDateForInput, getFullYear, getMonth, getDate, DateFromTime,
      MonthFromTime, DayWithinYear, YearFromTime.
    by rewrite !Day_mul.
  - intros H0. rewrite parseInputDate_format by done. f_equal.
    pose proof (Day_decompose t). lia.
Qed.

(** The 29th of February 2024, at noon. *)
Lemma date_input_round_trip_witness :
  parseInputDate (DateAt 0) (formatDateForInput (DateAt 1709208000000))
  = DateAt (Day 1709208000000 * msPerDay)
  /\ formatDateForInput (DateAt (Day 1709208000000 * msPerDay))
     = formatDateForInput (DateAt 1709208000000)
  /\ (TimeWithinDay 1709208000000 = 0 ->
      parseInputDate (DateAt 0) (formatDateForInput (DateAt 1709208000000))
      = DateAt 1709208000000).
Proof. apply (date_input_round_trip (DateAt 0) 1709208000000). vm_compute. split; discriminate. Defined.

(* ===================================================================== *)
(** ** The points the chart shows *)
(* ===================================================================== *)

Section ChartData.

Lemma TimeClip_proper t : properDate (TimeClip t).
Proof.
  unfold TimeClip. by destruct (Z.leb_spec (Z.abs t) 8640000000000000).
Qed.

Lemma TimeClip_id t : Z.abs t <= 8640000000000000 -> TimeClip t = DateAt t.
Proof.
  intros H. unfold TimeClip.
  destruct (Z.leb_spec (Z.abs t) 8640000000000000); [done|lia].
Qed.

Lemma newDate_proper a b c : properDate (newDate a b c).
Proof.
  unfold newDate. destruct (truncate a), (truncate b), (truncate c); try done.
  apply TimeClip_proper.
Qed.

Lemma parseInputDate_proper now s : s <> [] -> properDate (parseInputDate now s).
Proof. destruct s; [done|]. intros _. apply newDate_proper. Qed.

Lemma proper_Day t : Z.abs t <= 8640000000000000 -> -100000000 <= Day t <= 100000000.
Proof. unfold Day, msPerDay. intros H. Z.div_mod_to_equations. lia. Qed.

(** A copy of a date, reset to midnight. *)
Lemma setHours0_copyDate t :
  Z.abs t <= 8640000000000000 ->
  setHours0 (copyDate (DateAt t)) = DateAt (Day t * msPerDay).
Proof.
  intros H. unfold copyDate. rewrite TimeClip_id by done.
  unfold setHours0. rewrite Z.add_0_r. by apply TimeClip_day, proper_Day.
Qed.

Lemma inRange_invalid_start e p : inRange InvalidDate e p = false.
Proof.
  unfold inRange. simpl. by destruct (getTime (setHours0 (copyDate (dateObj p)))).
Qed.

Lemma inRange_invalid_end s p : inRange s InvalidDate p = false.
Proof.
  unfold inRange. cbn [copyDate setHours0 getTime].
  destruct (getTime (setHours0 (copyDate (dateObj p)))); simpl; [|done].
  apply andb_false_r.
Qed.

Lemma inRange_invalid_point s e p : dateObj p = InvalidDate -> inRange s e p = false.
Proof. intros H. unfold inRange. by rewrite H. Qed.

Lemma inRange_valid s e p :
  properDate (DateAt s) -> properDate (DateAt e) -> properDate (dateObj p) ->
  inRange (DateAt s) (DateAt e) p = bool_decide (withinDays (Day s) (Day e) p).
Proof.
  intros Hs He Hp.
  destruct (dateObj p) as [|u] eqn:Eu.
  { rewrite inRange_invalid_point by done. symmetry.
    apply bool_decide_eq_false. unfold withinDays. rewrite Eu. tauto. }
  unfold inRange. rewrite Eu, !setHours0_copyDate by done.
  cbn [getTime timeGe timeLe]. unfold msPerDay.
  destruct (Z.leb_spec (Day s * 86400000) (Day u * 86400000)),
    (Z.leb_spec (Day u * 86400000) (Day e * 86400000));
    cbn [andb]; symmetry;
    first [apply bool_decide_eq_true | apply bool_decide_eq_false];
    unfold withinDays; rewrite Eu; lia.
Qed.

Lemma filter_bool_decide {A} (f : A -> bool) (P : A -> Prop)
    `{!forall x, Decision (P x)} (l : list A) :
  Forall (fun x => f x = bool_decide (P x)) l -> List.filter f l = filter P l.
Proof.
  induction 1 as [|x l Hx _ IH]; [done|].
  cbn [List.filter]. rewrite filter_cons, Hx, IH.
  by destruct (decide (P x)) as [HP|HP];
    [rewrite bool_decide_eq_true_2|rewrite bool_decide_eq_false_2].
Qed.

Lemma filter_all_false {A} (f : A -> bool) (l : list A) :
  (forall x, f x = false) -> List.filter f l = [].
Proof. intros H. induction l as [|x l IH]; [done|]. simpl. by rewrite H. Qed.

Lemma chartData_set now data st :
  rangeStart st <> [] -> rangeEnd st <> [] ->
  chartData now data st
  = List.filter (inRange (parseInputDate now (rangeStart st))
                         (parseInputDate now (rangeEnd st))) data.
Proof.
  intros Hs He. unfold chartData.
  destruct data as [|p data]; [done|].
  cbn [length Nat.eqb].
  destruct (rangeStart st); [done|]. by destruct (rangeEnd st).
Qed.

Lemma chartData_withinDays now data st s e :
  Forall (fun p => properDate (dateObj p)) data ->
  rangeStart st <> [] -> rangeEnd st <> [] ->
  parseInputDate now (rangeStart st) = DateAt s ->
  parseInputDate now (rangeEnd st) = DateAt e ->
  chartData now data st = filter (withinDays (Day s) (Day e)) data.
Proof.
  intros Hd Hs He Es Ee. rewrite chartData_set by done.
  pose proof (parseInputDate_proper now _ Hs) as Ps.
  pose proof (parseInputDate_proper now _ He) as Pe.
  rewrite Es in *. rewrite Ee in *.
  apply filter_bool_decide.
  eapply Forall_impl; [exact Hd|]. intros p Hp. by apply inRange_valid.
Qed.

End ChartData.

(** What [chartData] shows once both date inputs hold a text.  The points
    shown are points of the data, in the order of the data.  When both
    texts read as dates, they are the points with a valid date from the
    day of the start to the day of the end, both included, whatever the
    times of day; when a text does not read as a date, no point is shown. *)
Theorem chartData_shows_days_in_range now (data : list StockDataPoint) (st : ChartState) :
  Forall (fun p => properDate (dateObj p)) data ->
  rangeStart st <> [] -> rangeEnd st <> [] ->
  match parseInputDate now (rangeStart st), parseInputDate now (rangeEnd st) with
  | DateAt s, DateAt e =>
      chartData now data st = filter (withinDays (Day s) (Day e)) data
  | _, _ => chartData now data st = []
  end.
Proof.
  intros Hd Hs He.
  destruct (parseInputDate now (rangeStart st)) as [|s] eqn:Es.
  { rewrite chartData_set, Es by done.
    apply filter_all_false. intros p. apply inRange_invalid_start. }
  destruct (parseInputDate now (rangeEnd st)) as [|e] eqn:Ee.
  { rewrite chartData_set, Es, Ee by done.
    apply filter_all_false. intros p. apply inRange_invalid_end. }
  by apply chartData_withinDays.
Qed.

(** Scenario A with the range from 2024-01-15 to 2024-02-29 typed in. *)
Lemma chartData_shows_days_in_range_witness :
  match parseInputDate (DateAt 0) (rangeStart typedRange),
        parseInputDate (DateAt 0) (rangeEnd typedRange) with
  | DateAt s, DateAt e =>
      chartData (DateAt 0) scenarioA_points typedRange
      = filter (withinDays (Day s) (Day e)) scenarioA_points
  | _, _ => chartData (DateAt 0) scenarioA_points typedRange = []
  end.
Proof.
  apply (chartData_shows_days_in_range (DateAt 0) scenarioA_points typedRange).
  - let pts := eval vm_compute in scenarioA_points in
    change scenarioA_points with pts.
    repeat constructor; vm_compute; discriminate.
  - discriminate.
  - discriminate.
Defined.

(* ===================================================================== *)
(** ** The range buttons *)
(* ===================================================================== *)

Section RangeClick.

Lemma YearFromDay_back d k :
  0 <= k <= 365 -> YearFromDay d - 1 <= YearFromDay (d - k) <= YearFromDay d.
Proof.
  intros Hk. split; [|apply YearFromDay_mono; lia].
  pose proof (YearFromDay_spec d) as Hd.
  pose proof (YearFromDay_spec (d - k)) as Hd'.
  pose proof (DayFromYear_succ (YearFromDay d - 1)) as Hs.
  replace (YearFromDay d - 1 + 1) with (YearFromDay d) in Hs by lia.
  pose proof (DaysInYear_range (YearFromDay d - 1)).
  destruct (Z.le_gt_cases (YearFromDay d - 1) (YearFromDay (d - k))) as [|Hgt]; [done|].
  pose proof (DayFromYear_mono (YearFromDay (d - k) + 1) (YearFromDay d - 1) ltac:(lia)).
  lia.
Qed.

Lemma fourDigit_proper t : 1000 <= YearFromTime t <= 9999 -> Z.abs t <= 8640000000000000.
Proof.
  intros H%fourDigit_day_range. unfold Day, msPerDay in H.
  Z.div_mod_to_equations. lia.
Qed.

Lemma handleRangeClick_nonempty data r st lp :
  last data = Some lp ->
  handleRangeClick data r st
  = (startObj ←
       match r with
       | R1D => Ok (setDate (copyDate (dateObj lp)) ((fun x => x - 1) <$> getDate (dateObj lp)))
       | R7D => Ok (setDate (copyDate (dateObj lp)) ((fun x => x - 7) <$> getDate (dateObj lp)))
       | R1M => Ok (setMonth (copyDate (dateObj lp)) ((fun x => x - 1) <$> getMonth (dateObj lp)))
       | R3M => Ok (setMonth (copyDate (dateObj lp)) ((fun x => x - 3) <$> getMonth (dateObj lp)))
       | RYTD => Ok (newDateOfInts (getFullYear (dateObj lp)) 0 1)
       | RALL => firstPoint ← elem data 0; Ok (dateObj firstPoint)
       end;
     Ok {| rangeStart := formatDateForInput startObj;
           rangeEnd := formatDateForInput (dateObj lp);
           activeRange := Preset r |}).
Proof.
  intros Hl. unfold handleRangeClick.
  destruct data as [|p data]; [done|].
  change (length (p :: data) =? 0)%nat with false. cbv iota.
  by rewrite (elem_last _ _ Hl).
Qed.

Lemma formatDateForInput_nonempty d : formatDateForInput d <> [].
Proof.
  unfold formatDateForInput. intros H.
  apply app_eq_nil in H as [_ H]. discriminate.
Qed.

(** The chart for a range whose two texts were made from dates. *)
Lemma chartData_formatted now data s e act :
  Forall (fun p => properDate (dateObj p)) data ->
  1000 <= YearFromTime s <= 9999 ->
  1000 <= YearFromTime e <= 9999 ->
  chartData now data
    {| rangeStart := formatDateForInput (DateAt s);
       rangeEnd := formatDateForInput (DateAt e);
       activeRange := act |}
  = filter (withinDays (Day s) (Day e)) data.
Proof.
  intros Hd Hs He.
  rewrite (chartData_withinDays now data _ (Day s * msPerDay) (Day e * msPerDay));
    cbn [rangeStart rangeEnd];
    [|done|apply formatDateForInput_nonempty..
     |by apply parseInputDate_format|by apply parseInputDate_format].
  by rewrite !Day_mul.
Qed.

(** A time value [k] days before one of the years 1001 to 9999. *)
Lemma days_back t k :
  1001 <= YearFromTime t <= 9999 -> 0 <= k <= 365 ->
  1000 <= YearFromTime (t - k * msPerDay) <= 9999
  /\ Day (t - k * msPerDay) = Day t - k.
Proof.
  intros Ht Hk.
  assert (Hday : Day (t - k * msPerDay) = Day t - k).
  { replace (t - k * msPerDay) with (t + (- k) * msPerDay) by lia.
    rewrite Day_shift. lia. }
  split; [|done]. unfold YearFromTime in *. rewrite Hday.
  pose proof (YearFromDay_back (Day t) k Hk). lia.
Qed.

Lemma setDate_back t n :
  Z.abs t <= 8640000000000000 ->
  setDate (copyDate (DateAt t)) ((fun x => x - n) <$> getDate (DateAt t))
  = TimeClip (t - n * msPerDay).
Proof.
  intros H. unfold copyDate. rewrite TimeClip_id by done.
  cbn [getDate fmap option_fmap option_map setDate].
  replace (DateFromTime t - n) with (DateFromTime t + - n) by lia.
  rewrite MakeDay_shift, MakeDay_fields. f_equal.
  pose proof (Day_decompose t). lia.
Qed.




End RangeClick.

(** The buttons 1D and 7D.  When the last point is in one of the years 1001
    to 9999, the click sets the range so that the chart shows the points
    from 1 day, or from 7 days, before the day of the last point up to that
    day, both days included. *)
Theorem range_click_days_window now (data : list StockDataPoint) (st : ChartState)
    (lastPoint : StockDataPoint) (t : Z) :
  Forall (fun p => properDate (dateObj p)) data ->
  last data = Some lastPoint ->
  dateObj lastPoint = DateAt t ->
  1001 <= YearFromTime t <= 9999 ->
  (exists st1,
      handleRangeClick data R1D st = Ok st1
      /\ activeRange st1 = Preset R1D
      /\ chartData now data st1 = filter (withinDays (Day t - 1) (Day t)) data)
  /\ (exists st7,
         handleRangeClick data R7D st = Ok st7
         /\ activeRange st7 = Preset R7D
         /\ chartData now data st7 = filter (withinDays (Day t - 7) (Day t)) data).
Proof.
  intros Hd Hl Ht Hy.
  assert (Hp : Z.abs t <= 8640000000000000) by (apply fourDigit_proper; lia).
  split.
  - destruct (days_back t 1 Hy ltac:(lia)) as [Hy1 Hday].
    eexists. rewrite (handleRangeClick_nonempty _ _ _ _ Hl), Ht.
    rewrite (setDate_back t 1 Hp), TimeClip_id by by apply fourDigit_proper.
    split; [reflexivity|]. split; [reflexivity|].
    rewrite chartData_formatted by (done || lia). by rewrite Hday.
  - destruct (days_back t 7 Hy ltac:(lia)) as [Hy1 Hday].
    eexists. rewrite (handleRangeClick_nonempty _ _ _ _ Hl), Ht.
    rewrite (setDate_back t 7 Hp), TimeClip_id by by apply fourDigit_proper.
    split; [reflexivity|]. split; [reflexivity|].
    rewrite chartData_formatted by (done || lia). by rewrite Hday.
Qed.

(** Scenario A: the last point is the 29th of February 2024. *)
Lemma range_click_days_window_witness :
  (exists st1,
      handleRangeClick scenarioA_points R1D initialChartState = Ok st1
      /\ activeRange st1 = Preset R1D
      /\ chartData (DateAt 0) scenarioA_points st1
         = filter (withinDays (Day 1709164800000 - 1) (Day 1709164800000)) scenarioA_points)
  /\ (exists st7,
         handleRangeClick scenarioA_points R7D initialChartState = Ok st7
         /\ activeRange st7 = Preset R7D
         /\ chartData (DateAt 0) scenarioA_points st7
            = filter (withinDays (Day 1709164800000 - 7) (Day 1709164800000))
                scenarioA_points).
Proof.
  apply (range_click_days_window (DateAt 0) scenarioA_points initialChartState
           {| date := lit "2024/02/29"; dateObj := DateAt 1709164800000;
              value := num 1210; index := None |} 1709164800000).
  - let pts := eval vm_compute in scenarioA_points in
    change scenarioA_points with pts.
    repeat constructor; vm_compute; discriminate.
  - vm_compute. reflexivity.
  - reflexivity.
  - vm_compute. split; discriminate.
Defined.



(** The button YTD.  When the last point is in one of the years 1000 to
    9999, the chart shows the points from the first day of that year up to
    the day of the last point. *)
Theorem range_click_year_to_date now (data : list StockDataPoint) (st : ChartState)
    (lastPoint : StockDataPoint) (t : Z) :
  Forall (fun p => properDate (dateObj p)) data ->
  last data = Some lastPoint ->
  dateObj lastPoint = DateAt t ->
  1000 <= YearFromTime t <= 9999 ->
  exists st',
    handleRangeClick data RYTD st = Ok st'
    /\ activeRange st' = Preset RYTD
    /\ chartData now data st'
       = filter (withinDays (DayFromYear (YearFromTime t)) (Day t)) data.
Proof.
  intros Hd Hl Ht Hy.
  assert (Hyear : YearFromTime (DayFromYear (YearFromTime t) * msPerDay) = YearFromTime t).
  { unfold YearFromTime at 1. rewrite Day_mul. apply YearFromDay_unique.
    pose proof (DayFromYear_succ (YearFromTime t)).
    pose proof (DaysInYear_range (YearFromTime t)). lia. }
  eexists. rewrite (handleRangeClick_nonempty _ _ _ _ Hl), Ht.
  cbn [getFullYear newDateOfInts]. rewrite MakeFullYear_id by lia.
  rewrite MakeDay_month by lia. cbn [monthStart].
  replace (DayFromYear (YearFromTime t) + 0 + 1 - 1) with (DayFromYear (YearFromTime t)) by lia.
  rewrite TimeClip_id by (apply fourDigit_proper; by rewrite Hyear).
  split; [reflexivity|]. split; [reflexivity|].
  rewrite chartData_formatted by (done || by rewrite Hyear).
  by rewrite Day_mul.
Qed.

(** Scenario A, from the first of January 2024. *)
Lemma range_click_year_to_date_witness :
  exists st',
    handleRangeClick scenarioA_points RYTD initialChartState = Ok st'
    /\ activeRange st' = Preset RYTD
    /\ chartData (DateAt 0) scenarioA_points st'
       = filter (withinDays (DayFromYear (YearFromTime 1709164800000)) (Day 1709164800000))
           scenarioA_points.
Proof.
  apply (range_click_year_to_date (DateAt 0) scenarioA_points initialChartState
           {| date := lit "2024/02/29"; dateObj := DateAt 1709164800000;
              value := num 1210; index := None |} 1709164800000).
  - let pts := eval vm_compute in scenarioA_points in
    change scenarioA_points with pts.
    repeat constructor; vm_compute; discriminate.
  - vm_compute. reflexivity.
  - reflexivity.
  - vm_compute. split; discriminate.
Defined.

Section WholeRange.

Lemma dateLe_trans a b c : dateLe a b -> dateLe b c -> dateLe a c.
Proof.
  unfold dateLe.
  destruct (getTime (dateObj a)), (getTime (dateObj b)), (getTime (dateObj c));
    try done. lia.
Qed.

Lemma Sorted_dateLe_first x l :
  Sorted dateLe (x :: l) -> Forall (dateLe x) l.
Proof.
  intros H. apply Sorted_StronglySorted in H.
  - by apply StronglySorted_inv in H as [_ H].
  - intros a b c. apply dateLe_trans.
Qed.

Lemma Sorted_dateLe_last l z :
  Sorted dateLe l -> last l = Some z -> Forall (fun p => p = z \/ dateLe p z) l.
Proof.
  intros H Hl. apply Sorted_StronglySorted in H;
    [|intros a b c; apply dateLe_trans].
  induction H as [|x l Hs IH Hx]; [constructor|].
  destruct l as [|y l].
  - injection Hl as ->. constructor; [by left|constructor].
  - change (last (x :: y :: l)) with (last (y :: l)) in Hl.
    constructor; [|by apply IH].
    right. rewrite Forall_forall in Hx. apply Hx.
    rewrite last_lookup in Hl. by apply list_elem_of_lookup_2 in Hl.
Qed.

Lemma Day_mono a b : a <= b -> Day a <= Day b.
Proof. intros H. unfold Day, msPerDay. by apply Z.div_le_mono. Qed.

Lemma filter_all {A} (P : A -> Prop) `{!forall x, Decision (P x)} (l : list A) :
  Forall P l -> filter P l = l.
Proof.
  induction 1 as [|x l Hx _ IH]; [done|].
  by rewrite filter_cons_True, IH.
Qed.

Lemma fourDigitYear_proper (data : list StockDataPoint) :
  Forall (fun p => fourDigitYear (dateObj p)) data ->
  Forall (fun p => properDate (dateObj p)) data.
Proof.
  intros H. eapply Forall_impl; [exact H|].
  intros p (t & -> & Ht). by apply fourDigit_proper.
Qed.

(** The chart of sorted data for the range from the first point to the
    last. *)
Lemma chartData_first_to_last now (p : StockDataPoint) data z act :
  Forall (fun p => fourDigitYear (dateObj p)) (p :: data) ->
  Sorted dateLe (p :: data) ->
  last (p :: data) = Some z ->
  chartData now (p :: data)
    {| rangeStart := formatDateForInput (dateObj p);
       rangeEnd := formatDateForInput (dateObj z);
       activeRange := act |}
  = p :: data.
Proof.
  intros Hy Hs Hl.
  pose proof (fourDigitYear_proper _ Hy) as Hp.
  pose proof (Sorted_dateLe_first _ _ Hs) as Hfirst.
  pose proof (Sorted_dateLe_last _ _ Hs Hl) as Hlast.
  assert (Hz : z ∈ p :: data).
  { rewrite last_lookup in Hl. by apply list_elem_of_lookup_2 in Hl. }
  rewrite Forall_forall in Hy.
  destruct (Hy p ltac:(left)) as (tp & Ep & Hyp).
  destruct (Hy z Hz) as (tz & Ez & Hyz).
  rewrite Ep, Ez, chartData_formatted by done.
  apply filter_all. apply Forall_forall. intros q Hq.
  destruct (Hy q Hq) as (tq & Eq & _).
  unfold withinDays. rewrite Eq. split; apply Day_mono.
  - apply elem_of_cons in Hq as [->|Hq]; [rewrite Ep in Eq; injection Eq; lia|].
    rewrite Forall_forall in Hfirst. specialize (Hfirst q Hq).
    unfold dateLe in Hfirst. by rewrite Ep, Eq in Hfirst.
  - rewrite Forall_forall in Hlast.
    destruct (Hlast q Hq) as [->|Hle]; [rewrite Ez in Eq; injection Eq; lia|].
    unfold dateLe in Hle. by rewrite Ez, Eq in Hle.
Qed.

End WholeRange.

(** The whole range.  For data sorted by date whose dates are all valid and
    in the years 1000 to 9999, as [parseCSV] returns from rows with such
    dates, the chart shows all of the data after a click on ALL, and after
    the effect that sets the range when the data arrive (the active range is
    ALL, or no start is set). *)
Theorem all_range_shows_every_point now (data : list StockDataPoint) (st : ChartState) :
  Forall (fun p => fourDigitYear (dateObj p)) data ->
  Sorted dateLe data ->
  (exists st',
      handleRangeClick data RALL st = Ok st'
      /\ activeRange st' = Preset RALL
      /\ chartData now data st' = data)
  /\ (isAll (activeRange st) || isEmpty (rangeStart st) = true ->
      exists st',
        initDatesEffect data st = Ok st'
        /\ activeRange st' = activeRange st
        /\ chartData now data st' = data).
Proof.
  intros Hy Hs. destruct data as [|p data].
  { split; [|intros _]; eexists; split_and!; reflexivity. }
  destruct (last (p :: data)) as [z|] eqn:Hl;
    [|by apply last_None in Hl].
  split.
  - eexists. rewrite (handleRangeClick_nonempty _ _ _ _ Hl), elem_first.
    split; [reflexivity|]. split; [reflexivity|].
    by apply chartData_first_to_last.
  - intros Hreset. eexists. unfold initDatesEffect.
    change (0 <? length (p :: data))%nat with true. cbv iota.
    rewrite Hreset, elem_first, (elem_last _ _ Hl).
    split; [reflexivity|]. split; [reflexivity|].
    by apply chartData_first_to_last.
Qed.

(** Scenario A in a new component. *)
Lemma all_range_shows_every_point_witness :
  (exists st',
      handleRangeClick scenarioA_points RALL initialChartState = Ok st'
      /\ activeRange st' = Preset RALL
      /\ chartData (DateAt 0) scenarioA_points st' = scenarioA_points)
  /\ (isAll (activeRange initialChartState) || isEmpty (rangeStart initialChartState) = true ->
      exists st',
        initDatesEffect scenarioA_points initialChartState = Ok st'
        /\ activeRange st' = activeRange initialChartState
        /\ chartData (DateAt 0) scenarioA_points st' = scenarioA_points).
Proof.
  apply (all_range_shows_every_point (DateAt 0) scenarioA_points initialChartState).
  - let pts := eval vm_compute in scenarioA_points in
    change scenarioA_points with pts.
    repeat constructor; eexists; (split; [reflexivity|]);
      vm_compute; split; discriminate.
  - let pts := eval vm_compute in scenarioA_points in
    change scenarioA_points with pts.
    repeat constructor; vm_compute; discriminate.
Defined.

(** An invalid last date empties the chart.  When the last point of the data
    has an invalid date, the end of the range is set to a text that does
    not read as a date, and the chart shows no point at all: after a click
    on any range button, and after the effect that sets the range. *)
Theorem invalid_last_date_empties_chart now (data : list StockDataPoint)
    (st : ChartState) (lastPoint : StockDataPoint) :
  last data = Some lastPoint ->
  dateObj lastPoint = InvalidDate ->
  (forall range, exists st',
      handleRangeClick data range st = Ok st'
      /\ rangeEnd st' = lit "NaN-NaN-NaN"
      /\ chartData now data st' = [])
  /\ (isAll (activeRange st) || isEmpty (rangeStart st) = true ->
      exists st',
        initDatesEffect data st = Ok st'
        /\ rangeEnd st' = lit "NaN-NaN-NaN"
        /\ chartData now data st' = []).
Proof.
  intros Hl Hinv.
  assert (Hempty : forall s act,
             chartData now data
               {| rangeStart := formatDateForInput s;
                  rangeEnd := formatDateForInput InvalidDate;
                  activeRange := act |} = []).
  { intros s act. rewrite chartData_set; cbn [rangeStart rangeEnd];
      [|apply formatDateForInput_nonempty..].
    apply filter_all_false. intros p.
    change (parseInputDate now (formatDateForInput InvalidDate)) with InvalidDate.
    apply inRange_invalid_end. }
  destruct data as [|p data]; [done|].
  split.
  - intros range. rewrite (handleRangeClick_nonempty _ _ _ _ Hl), Hinv, elem_first.
    destruct range; eexists; (split; [reflexivity|]); (split; [reflexivity|]);
      apply Hempty.
  - intros Hreset. eexists. unfold initDatesEffect.
    change (0 <? length (p :: data))%nat with true. cbv iota.
    rewrite Hreset, elem_first, (elem_last _ _ Hl).
    cbn [mbind result_bind]. rewrite Hinv.
    split; [reflexivity|]. split; [reflexivity|]. apply Hempty.
Qed.

(** Two rows, the second one with the date token n/a. *)
Lemma invalid_last_date_empties_chart_witness :
  (forall range, exists st',
      handleRangeClick (omap pointOfLine [lit "2024/01/31,1100"; lit "n/a,5"]) range
        initialChartState = Ok st'
      /\ rangeEnd st' = lit "NaN-NaN-NaN"
      /\ chartData (DateAt 0) (omap pointOfLine [lit "2024/01/31,1100"; lit "n/a,5"]) st' = [])
  /\ (isAll (activeRange initialChartState) || isEmpty (rangeStart initialChartState) = true ->
      exists st',
        initDatesEffect (omap pointOfLine [lit "2024/01/31,1100"; lit "n/a,5"])
          initialChartState = Ok st'
        /\ rangeEnd st' = lit "NaN-NaN-NaN"
        /\ chartData (DateAt 0) (omap pointOfLine [lit "2024/01/31,1100"; lit "n/a,5"]) st' = []).
Proof.
  apply (invalid_last_date_empties_chart (DateAt 0)
           (omap pointOfLine [lit "2024/01/31,1100"; lit "n/a,5"]) initialChartState
           {| date := lit "n/a"; dateObj := InvalidDate; value := num 5; index := None |}).
  - vm_compute. reflexivity.
  - reflexivity.
Defined.

(** The transitions never throw.  On every array, every button and every
    state, [handleRangeClick] returns normally and makes the button the
    active range, and the effect returns normally and leaves the active
    range as it is; on the empty array neither changes the date range. *)
Theorem range_transitions_never_throw (data : list StockDataPoint)
    (range : TimeRange) (st : ChartState) :
  (exists st',
      handleRangeClick data range st = Ok st'
      /\ activeRange st' = Preset range
      /\ (data = [] -> rangeStart st' = rangeStart st /\ rangeEnd st' = rangeEnd st))
  /\ (exists st',
         initDatesEffect data st = Ok st'
         /\ activeRange st' = activeRange st
         /\ (data = [] -> st' = st)).
Proof.
  destruct data as [|p data].
  { split; eexists; split_and!; done. }
  destruct (last (p :: data)) as [z|] eqn:Hl;
    [|by apply last_None in Hl].
  split.
  - rewrite (handleRangeClick_nonempty _ _ _ _ Hl), elem_first.
    destruct range; eexists; split_and!; done.
  - unfold initDatesEffect.
    change (0 <? length (p :: data))%nat with true. cbv iota.
    rewrite elem_first, (elem_last _ _ Hl).
    destruct (isAll (activeRange st) || isEmpty (rangeStart st));
      eexists; split_and!; done.
Qed.

(* ===================================================================== *)
(** ** The bars of the months *)
(* ===================================================================== *)

Lemma filterWithIndex_all {A} (f : A -> Z -> bool) (i : Z) (l : list A) :
  (forall x j, i <= j -> f x j = true) -> filterWithIndex f i l = l.
Proof.
  revert i. induction l as [|x l IH]; intros i H; [done|].
  simpl. rewrite H by lia. f_equal. apply IH. intros y j Hj. apply H. lia.
Qed.

(** The bar chart leaves out at most the first month.  It leaves the first
    record out exactly when its growth is zero ([+0] or [-0]; a NaN growth
    is kept), and keeps every later record, whatever its growth.  So for data
    of a single point with a finite value the month has a record, and the
    bar chart is empty. *)
Theorem barChartData_hides_only_a_flat_first_month :
  barChartData [] = []
  /\ (forall r l,
        barChartData (r :: l) = if strictEq (growth r) (num 0) then l else r :: l)
  /\ (forall p : StockDataPoint,
        finite (value p) ->
        exists r, monthlyGrowthOf [p] = Ok [r] /\ barChartData [r] = []).
Proof.
  split; [done|]. split.
  - intros r l. unfold barChartData. cbn [filterWithIndex].
    change (0 =? 0) with true. cbn [andb].
    rewrite filterWithIndex_all.
    + by destruct (strictEq (growth r) (num 0)).
    + intros x j Hj. by destruct (Z.eqb_spec j 0); [lia|].
  - intros p Hp. rewrite monthlyGrowthOf_fun.
    unfold monthlyGrowthFun, buckets, bucketsFrom. simpl.
    unfold monthRecord. simpl.
    destruct (decide (monthKeyOf p = monthKeyOf p)) as [_|H]; [|done].
    eexists. split; [reflexivity|].
    unfold barChartData. cbn [filterWithIndex growth growthRecord firstValue lastValue].
    change (0 =? 0) with true. cbn [andb].
    change (last [p]) with (Some p). cbv iota beta.
    by rewrite sub_diag_finite.
Qed.

(** The single point of Scenario E. *)
Lemma barChartData_hides_only_a_flat_first_month_witness :
  exists r,
    monthlyGrowthOf (omap pointOfLine (dataLinesOf scenarioE)) = Ok [r]
    /\ barChartData [r] = [].
Proof.
  let pts := eval vm_compute in (omap pointOfLine (dataLinesOf scenarioE)) in
  change (omap pointOfLine (dataLinesOf scenarioE)) with pts.
  apply (proj2 (proj2 barChartData_hides_only_a_flat_first_month)).
  reflexivity.
Defined.

(* ===================================================================== *)
(** ** The table of the current month *)
(* ===================================================================== *)

Section TableFacts.

Lemma findIndexFrom_range {A} (f : A -> bool) (i : Z) (l : list A) :
  findIndexFrom f i l = -1 \/ i <= findIndexFrom f i l < i + Z.of_nat (length l).
Proof.
  revert i. induction l as [|x l IH]; intros i; [by left|].
  cbn [findIndexFrom length]. destruct (f x); [right; lia|].
  destruct (IH (i + 1)) as [->|H]; [by left|right; lia].
Qed.

(** What [findIndex] finds: the first element that satisfies [f]. *)
Lemma findIndexFrom_found {A} (f : A -> bool) (i : Z) (l : list A) :
  0 <= i -> i <= findIndexFrom f i l ->
  exists (n : nat) x,
    findIndexFrom f i l = i + Z.of_nat n
    /\ l !! n = Some x /\ f x = true
    /\ forall (j : nat) y, (j < n)%nat -> l !! j = Some y -> f y = false.
Proof.
  revert i. induction l as [|x l IH]; intros i Hi H; [simpl in H; lia|].
  cbn [findIndexFrom] in *. destruct (f x) eqn:Hx.
  - exists 0%nat, x. split; [lia|]. split; [done|]. split; [done|]. intros; lia.
  - destruct (IH (i + 1) ltac:(lia) ltac:(pose proof (findIndexFrom_range f (i + 1) l); lia))
      as (n & y & Hn & Hy & Hfy & Hmin).
    exists (S n), y. split; [lia|]. split; [done|]. split; [done|].
    intros [|j] z Hj Hz; [by injection Hz as <-|].
    apply (Hmin j); [lia|done].
Qed.

Lemma findIndexFrom_elem {A} (f : A -> bool) (i : Z) (l : list A) (x : A) :
  x ∈ l -> f x = true -> i <= findIndexFrom f i l.
Proof.
  intros Hx Hf. revert i.
  induction Hx as [x l|x y l Hx IH]; intros i; cbn [findIndexFrom].
  - rewrite Hf. cbv iota. lia.
  - destruct (f y); [lia|]. specialize (IH Hf (i + 1)). lia.
Qed.

Lemma slice_nat {A} (l : list A) (a b : nat) :
  (b <= length l)%nat ->
  slice l (Z.of_nat a) (Z.of_nat b) = take (b - a) (drop a l).
Proof.
  intros Hb. unfold slice.
  destruct (Z.ltb_spec (Z.of_nat a) 0); [lia|].
  destruct (Z.ltb_spec (Z.of_nat b) 0); [lia|].
  destruct (Nat.le_gt_cases a (length l)) as [Ha|Ha].
  - rewrite !Z.min_l by lia. rewrite Nat2Z.id. f_equal. lia.
  - rewrite (Z.min_r (Z.of_nat a)), Z.min_l by lia.
    rewrite !drop_ge by lia. by rewrite !take_nil.
Qed.

(** What [augment] returns for an item whose date text is found first at
    index [i] of the data. *)
Lemma augment_at (data : list StockDataPoint) (it : StockDataPoint) (i : nat) :
  findIndex (fun d => strEq (date d) (date it)) data = Z.of_nat i ->
  (i < length data)%nat ->
  augment data it
  = Ok {| item := it;
          valueChange :=
            match i with
            | O => num 0
            | S i' => match data !! i' with
                      | Some prevItem => sub (value it) (value prevItem)
                      | None => num 0
                      end
            end;
          indexChange :=
            match i with
            | O => num 0
            | S i' => match data !! i' with
                      | Some prevItem =>
                          match index it, index prevItem with
                          | Some a, Some b => sub a b
                          | _, _ => num 0
                          end
                      | None => num 0
                      end
            end;
          trendHistory := take (S i - (i - 6)) (drop (i - 6) data) |}.
Proof.
  intros Hi Hlen. unfold augment. rewrite Hi.
  destruct (Z.leb_spec 0 (Z.of_nat i)); [|lia].
  assert (Hslice : slice data (Z.max 0 (Z.of_nat i - 6)) (Z.of_nat i + 1)
                   = take (S i - (i - 6)) (drop (i - 6) data)).
  { replace (Z.max 0 (Z.of_nat i - 6)) with (Z.of_nat (i - 6)) by lia.
    replace (Z.of_nat i + 1) with (Z.of_nat (S i)) by lia.
    apply slice_nat. lia. }
  rewrite Hslice. destruct i as [|i'].
  - done.
  - destruct (Z.ltb_spec 0 (Z.of_nat (S i'))); [|lia].
    replace (Z.of_nat (S i') - 1) with (Z.of_nat i') by lia.
    destruct (data !! i') as [prevItem|] eqn:Hprev.
    + by rewrite (elem_nat _ _ _ Hprev).
    + apply lookup_ge_None in Hprev. lia.
Qed.

Lemma augment_total data it : exists r, augment data it = Ok r /\ item r = it.
Proof.
  destruct (findIndexFrom_range (fun d => strEq (date d) (date it)) 0 data) as [H|H].
  - unfold augment, findIndex. rewrite H. by eexists.
  - rewrite (augment_at data it (Z.to_nat (findIndex (fun d => strEq (date d) (date it)) data)));
      unfold findIndex; [|lia|lia].
    by eexists.
Qed.

Lemma mapM_augment data items :
  exists rows,
    mapM (augment data) items = Ok rows
    /\ map item rows = items
    /\ Forall (fun r => augment data (item r) = Ok r) rows.
Proof.
  induction items as [|it items (rows & Hrows & Hitems & Hall)].
  - by exists [].
  - destruct (augment_total data it) as (r & Hr & Hit).
    exists (r :: rows).
    change (mapM (augment data) (it :: items))
      with (y ← augment data it; k ← mapM (augment data) items; mret (y :: k)).
    rewrite Hr, Hrows. split; [done|]. split; [simpl; by rewrite Hit, Hitems|].
    constructor; [by rewrite Hit|done].
Qed.

Lemma byDateDesc_asym x y :
  after byDateDesc x y = true -> after byDateDesc y x = false.
Proof.
  unfold after, byDateDesc.
  destruct (getTime (dateObj (item x))), (getTime (dateObj (item y))); simpl; try done.
  intros H%Z.ltb_lt. apply Z.ltb_ge. lia.
Qed.

Lemma Sorted_inOrder_newerOrSame (l : list TableRow) :
  Forall (fun r => validDate (item r)) l ->
  Sorted (inOrder byDateDesc) l -> Sorted newerOrSame l.
Proof.
  intros Hv Hs. induction Hs as [|a l Hl IH Ha]; [constructor|].
  apply Forall_cons in Hv as [Hva Hvl].
  constructor; [by apply IH|].
  destruct Ha as [|b l Hab]; constructor.
  apply Forall_cons in Hvl as [Hvb _].
  unfold validDate, inOrder, after, byDateDesc, newerOrSame in *.
  destruct (dateObj (item a)), (dateObj (item b)); simpl in *; try done.
  apply Z.ltb_ge in Hab. lia.
Qed.

Lemma monthFilter_valid t (d : StockDataPoint) :
  numEq (getMonth (dateObj d)) (getMonth (DateAt t))
  && numEq (getFullYear (dateObj d)) (getFullYear (DateAt t))
  = bool_decide (inMonthOf t d).
Proof.
  symmetry.
  destruct (dateObj d) as [|u] eqn:Eu; cbn [getMonth getFullYear numEq andb].
  - apply bool_decide_eq_false. unfold inMonthOf. rewrite Eu. tauto.
  - destruct (Z.eqb_spec (MonthFromTime u) (MonthFromTime t)),
      (Z.eqb_spec (YearFromTime u) (YearFromTime t)); cbn [andb];
      first [apply bool_decide_eq_true | apply bool_decide_eq_false];
      unfold inMonthOf; rewrite Eu; tauto.
Qed.

End TableFacts.

Section TableRows.

Variable toLocaleString : Date -> jsstring.

Lemma currentMonthTable_nonempty (data : list StockDataPoint) lp :
  last data = Some lp ->
  exists rows,
    mapM (augment data)
      (List.filter (fun d => numEq (getMonth (dateObj d)) (getMonth (dateObj lp))
                             && numEq (getFullYear (dateObj d)) (getFullYear (dateObj lp)))
         data) = Ok rows
    /\ map item rows
       = List.filter (fun d => numEq (getMonth (dateObj d)) (getMonth (dateObj lp))
                               && numEq (getFullYear (dateObj d)) (getFullYear (dateObj lp)))
           data
    /\ Forall (fun r => augment data (item r) = Ok r) rows
    /\ currentMonthTable toLocaleString data
       = Ok {| tableData := sort byDateDesc rows;
               monthLabel := toLocaleString (dateObj lp);
               totalValueChange :=
                 foldl (fun acc curr => add acc (valueChange curr)) (num 0) rows;
               totalIndexChange :=
                 foldl (fun acc curr => add acc (indexChange curr)) (num 0) rows |}.
Proof.
  intros Hl.
  destruct (mapM_augment data
              (List.filter (fun d => numEq (getMonth (dateObj d)) (getMonth (dateObj lp))
                                     && numEq (getFullYear (dateObj d))
                                          (getFullYear (dateObj lp))) data))
    as (rows & Hrows & Hitems & Hall).
  exists rows. split; [done|]. split; [done|]. split; [done|].
  unfold currentMonthTable. destruct data as [|p data]; [done|].
  change (length (p :: data) =? 0)%nat with false. cbv iota.
  rewrite (elem_last _ _ Hl). cbn [mbind result_bind]. by rewrite Hrows.
Qed.

Lemma monthFilter_invalid (data : list StockDataPoint) :
  List.filter (fun d => numEq (getMonth (dateObj d)) (getMonth InvalidDate)
                        && numEq (getFullYear (dateObj d)) (getFullYear InvalidDate))
    data = [].
Proof.
  apply filter_all_false. intros d. cbn [getMonth getFullYear].
  by destruct (getMonth (dateObj d)).
Qed.

Lemma monthFilter_at (data : list StockDataPoint) t :
  List.filter (fun d => numEq (getMonth (dateObj d)) (getMonth (DateAt t))
                        && numEq (getFullYear (dateObj d)) (getFullYear (DateAt t)))
    data = filter (inMonthOf t) data.
Proof.
  apply filter_bool_decide, Forall_forall. intros d _. apply monthFilter_valid.
Qed.

End TableRows.

(** The rows of the table.  The table never throws.  Its rows are the
    points of the data in the calendar month of the last point of the data,
    each once, newest first; all of them have a valid date.  When the last
    point has an invalid date, or the data are empty, the table has no row
    and both totals are 0. *)
Theorem currentMonthTable_rows (toLocaleString : Date -> jsstring)
    (data : list StockDataPoint) :
  exists info,
    currentMonthTable toLocaleString data = Ok info
    /\ Sorted newerOrSame (tableData info)
    /\ match last data with
       | Some lastPoint =>
           match dateObj lastPoint with
           | DateAt t => map item (tableData info) ≡ₚ filter (inMonthOf t) data
           | InvalidDate =>
               tableData info = []
               /\ totalValueChange info = num 0 /\ totalIndexChange info = num 0
           end
       | None =>
           tableData info = []
           /\ totalValueChange info = num 0 /\ totalIndexChange info = num 0
       end.
Proof.
  destruct (last data) as [lp|] eqn:Hl.
  - destruct (currentMonthTable_nonempty toLocaleString data lp Hl)
      as (rows & _ & Hitems & _ & ->).
    eexists. split; [reflexivity|]. cbn [tableData totalValueChange totalIndexChange].
    destruct (dateObj lp) as [|t] eqn:Et.
    + rewrite monthFilter_invalid in Hitems.
      apply map_eq_nil in Hitems as ->. by split; [constructor|].
    + rewrite monthFilter_at in Hitems. split.
      * apply Sorted_inOrder_newerOrSame.
        -- rewrite sort_Permutation. apply Forall_forall. intros r Hr.
           assert (Hin : item r ∈ filter (inMonthOf t) data).
           { rewrite <- Hitems. by apply list_elem_of_fmap_2. }
           apply list_elem_of_filter in Hin as [Hin _].
           unfold inMonthOf in Hin. unfold validDate.
           by destruct (dateObj (item r)).
        -- apply sort_Sorted, byDateDesc_asym.
      * by rewrite sort_Permutation, Hitems.
  - apply last_None in Hl as ->. eexists. split; [reflexivity|].
    by split; [constructor|].
Qed.

(** The history and the change of a row.  A row is made from the first
    point of the data that carries the row's date text, say at index [i]:
    its trend history is the points of the data from index [i - 6] (from
    the start when [i] is less than 6) to index [i], so it has from 1 to 7
    points and ends with that first point; its value change is the row's
    value minus the value of the point at index [i - 1], and 0 when [i] is
    0.  When no two points of the data have the same date text, that first
    point is the point of the row. *)
Theorem table_row_history (toLocaleString : Date -> jsstring)
    (data : list StockDataPoint) (info : TableInfo) (r : TableRow) :
  currentMonthTable toLocaleString data = Ok info ->
  r ∈ tableData info ->
  exists (i : nat) (q : StockDataPoint),
    data !! i = Some q
    /\ date q = date (item r)
    /\ (forall (j : nat) q', (j < i)%nat -> data !! j = Some q' -> date q' <> date (item r))
    /\ trendHistory r = take (S i - (i - 6)) (drop (i - 6) data)
    /\ last (trendHistory r) = Some q
    /\ (1 <= length (trendHistory r) <= 7)%nat
    /\ valueChange r
       = match i with
         | O => num 0
         | S i' => match data !! i' with
                   | Some prevItem => sub (value (item r)) (value prevItem)
                   | None => num 0
                   end
         end
    /\ (NoDup (map date data) -> q = item r).
Proof.
  intros Hinfo Hr.
  destruct (last data) as [lp|] eqn:Hl;
    [|apply last_None in Hl as ->; injection Hinfo as <-; by apply elem_of_nil in Hr].
  destruct (currentMonthTable_nonempty toLocaleString data lp Hl)
    as (rows & _ & Hitems & Hall & Heq).
  rewrite Heq in Hinfo. injection Hinfo as <-. cbn [tableData] in Hr.
  rewrite sort_Permutation in Hr.
  assert (Hdata : item r ∈ data).
  { assert (Hin : item r ∈ map item rows) by by apply list_elem_of_fmap_2.
    rewrite Hitems in Hin. apply list_elem_of_In, filter_In in Hin as [Hin _].
    by apply list_elem_of_In. }
  rewrite Forall_forall in Hall. specialize (Hall r Hr).
  pose proof (findIndexFrom_elem (fun d => strEq (date d) (date (item r))) 0 data
                (item r) Hdata ltac:(by apply bool_decide_eq_true)) as Hfound.
  destruct (findIndexFrom_found _ 0 data ltac:(lia) Hfound)
    as (i & q & Hi & Hq & Hdate & Hmin).
  apply bool_decide_eq_true in Hdate.
  pose proof (lookup_lt_Some _ _ _ Hq) as Hlen.
  rewrite (augment_at data (item r) i) in Hall by (done || (unfold findIndex; lia)).
  injection Hall as Hall. exists i, q.
  assert (Htrend : trendHistory r = take (S i - (i - 6)) (drop (i - 6) data))
    by by rewrite <- Hall.
  split; [done|]. split; [done|]. split.
  { intros j q' Hj Hq'. specialize (Hmin j q' Hj Hq').
    by apply bool_decide_eq_false in Hmin. }
  split; [done|]. split.
  { rewrite Htrend, last_lookup, length_take, length_drop.
    rewrite lookup_take_lt by lia. rewrite lookup_drop.
    rewrite <- Hq. f_equal. lia. }
  split.
  { rewrite Htrend, length_take, length_drop. lia. }
  split; [by rewrite <- Hall|].
  intros Hnd.
  apply list_elem_of_lookup in Hdata as (k & Hk).
  assert (Hik : i = k).
  { eapply NoDup_lookup; [exact Hnd| |].
    - by rewrite list_lookup_fmap, Hq.
    - by rewrite list_lookup_fmap, Hk, Hdate. }
  subst k. rewrite Hq in Hk. by injection Hk.
Qed.

(** Scenario A: the table has the row of the 29th of February 2024, found at
    index 2 of the data. *)
Lemma table_row_history_witness :
  exists info r,
    currentMonthTable (fun _ => []) scenarioA_points = Ok info
    /\ r ∈ tableData info
    /\ exists (i : nat) (q : StockDataPoint),
         scenarioA_points !! i = Some q
         /\ date q = date (item r)
         /\ (forall (j : nat) q', (j < i)%nat -> scenarioA_points !! j = Some q' ->
                                  date q' <> date (item r))
         /\ trendHistory r = take (S i - (i - 6)) (drop (i - 6) scenarioA_points)
         /\ last (trendHistory r) = Some q
         /\ (1 <= length (trendHistory r) <= 7)%nat
         /\ valueChange r
            = match i with
              | O => num 0
              | S i' => match scenarioA_points !! i' with
                        | Some prevItem => sub (value (item r)) (value prevItem)
                        | None => num 0
                        end
              end
         /\ (NoDup (map date scenarioA_points) -> q = item r).
Proof.
  let v := eval vm_compute in (currentMonthTable (fun _ => []) scenarioA_points) in
  match v with
  | Ok ?info =>
      let rows := eval vm_compute in (tableData info) in
      match rows with
      | ?r :: _ =>
          exists info, r;
          assert (H1 : currentMonthTable (fun _ => []) scenarioA_points = Ok info)
            by (vm_compute; reflexivity);
          assert (H2 : r ∈ tableData info) by (vm_compute; constructor);
          split; [exact H1|]; split; [exact H2|];
          exact (table_row_history (fun _ => []) scenarioA_points info r H1 H2)
      end
  end.
Defined.

(* ===================================================================== *)
(** ** The largest and the smallest value *)
(* ===================================================================== *)

Section NumberOrder.

Lemma SFltb_key (a b : number) :
  isNaN a = false -> isNaN b = false ->
  SFltb a b = true <-> keyLt (orderKey a) (orderKey b).
Proof.
  intros Ha Hb. unfold SFltb, SFcompare, keyLt.
  destruct a as [[]|[]| |[] ma ea], b as [[]|[]| |[] mb eb];
    try discriminate; cbn [orderKey fst snd];
    try (split; [intros; lia | intros; first [reflexivity | lia]]);
    try (split; [discriminate | intros; lia]).
  - change (Pos.compare_cont Eq ma mb) with (ma ?= mb)%positive.
    destruct (Z.compare_spec ea eb), (Pos.compare_spec ma mb); cbn [CompOpp];
      (split; [intros; first [discriminate | lia] | intros; first [reflexivity | lia]]).
  - change (Pos.compare_cont Eq ma mb) with (ma ?= mb)%positive.
    destruct (Z.compare_spec ea eb), (Pos.compare_spec ma mb);
      (split; [intros; first [discriminate | lia] | intros; first [reflexivity | lia]]).
Qed.

Lemma SFltb_irrefl (a : number) : SFltb a a = false.
Proof.
  destruct (isNaN a) eqn:Ha; [by destruct a|].
  destruct (SFltb a a) eqn:H; [|done].
  apply SFltb_key in H; [|done..]. unfold keyLt in H. lia.
Qed.

Lemma SFltb_trans (a b c : number) :
  isNaN b = false -> SFltb a b = true -> SFltb b c = true -> SFltb a c = true.
Proof.
  intros Hb Hab Hbc.
  assert (Ha : isNaN a = false) by by destruct a.
  assert (Hc : isNaN c = false) by (destruct c; try done; by destruct b as [[]|[]| |[]]).
  apply SFltb_key in Hab, Hbc; try done. apply SFltb_key; try done.
  unfold keyLt in *. lia.
Qed.

(** Of two Numbers that are not NaN, one is not above the other. *)
Lemma SFltb_asym (a b : number) : SFltb a b = true -> SFltb b a = false.
Proof.
  intros Hab. destruct (SFltb b a) eqn:Hba; [|done].
  assert (Ha : isNaN a = false) by by destruct a.
  assert (Hb : isNaN b = false) by by destruct b.
  apply SFltb_key in Hab, Hba; try done. unfold keyLt in *. lia.
Qed.

(** A zero compares as the other zero does. *)
Lemma SFltb_zero_l s s' x : SFltb (S754_zero s) x = SFltb (S754_zero s') x.
Proof. by destruct x. Qed.

Lemma SFltb_zero_r s s' x : SFltb x (S754_zero s) = SFltb x (S754_zero s').
Proof. by destruct x. Qed.

Lemma notAbove_trans_lt (v h n : number) :
  isNaN v = false -> isNaN h = false ->
  notAbove v h -> SFltb h n = true -> notAbove v n.
Proof.
  unfold notAbove. intros Hv Hh Hvh Hhn.
  destruct (SFltb n v) eqn:Hnv; [|done].
  by rewrite (SFltb_trans h n v) in Hvh by (done || by destruct n).
Qed.

Lemma notAbove_key (a b : number) :
  isNaN a = false -> isNaN b = false ->
  notAbove a b <-> ~ keyLt (orderKey b) (orderKey a).
Proof.
  intros Ha Hb. unfold notAbove. rewrite <- SFltb_key by done.
  by destruct (SFltb b a).
Qed.

Lemma notAbove_trans (a b c : number) :
  isNaN a = false -> isNaN b = false -> isNaN c = false ->
  notAbove a b -> notAbove b c -> notAbove a c.
Proof.
  intros Ha Hb Hc Hab Hbc.
  apply notAbove_key in Hab, Hbc; try done. apply notAbove_key; try done.
  unfold keyLt in *. lia.
Qed.

Lemma maxStep_cases h n : maxStep h n = h \/ maxStep h n = n.
Proof.
  unfold maxStep. destruct (isPosZero n && isNegZero h); [by right|].
  destruct (SFltb h n); [by right|by left].
Qed.

Lemma maxStep_bounds h n v :
  isNaN v = false -> isNaN h = false -> isNaN n = false ->
  notAbove v h \/ v = n -> notAbove v (maxStep h n).
Proof.
  intros Hv Hh Hn H. unfold maxStep.
  destruct (isPosZero n && isNegZero h) eqn:Hz.
  - apply andb_true_iff in Hz as [Hz1 Hz2].
    destruct n as [[]| | |]; try done. destruct h as [[]| | |]; try done.
    destruct H as [H| ->]; [|apply SFltb_irrefl].
    unfold notAbove in *. by rewrite (SFltb_zero_l false true).
  - destruct (SFltb h n) eqn:Hhn.
    + destruct H as [H| ->]; [|apply SFltb_irrefl].
      by apply (notAbove_trans_lt v h n).
    + destruct H as [H| ->]; [done|]. exact Hhn.
Qed.

Lemma minStep_cases l n : minStep l n = l \/ minStep l n = n.
Proof.
  unfold minStep. destruct (isNegZero n && isPosZero l); [by right|].
  destruct (SFltb n l); [by right|by left].
Qed.

Lemma minStep_bounds l n v :
  isNaN v = false -> isNaN l = false -> isNaN n = false ->
  notAbove l v \/ v = n -> notAbove (minStep l n) v.
Proof.
  intros Hv Hl Hn H. unfold minStep.
  destruct (isNegZero n && isPosZero l) eqn:Hz.
  - apply andb_true_iff in Hz as [Hz1 Hz2].
    destruct n as [[]| | |]; try done. destruct l as [[]| | |]; try done.
    destruct H as [H| ->]; [|apply SFltb_irrefl].
    unfold notAbove in *. by rewrite (SFltb_zero_r true false).
  - destruct (SFltb n l) eqn:Hnl.
    + destruct H as [H| ->]; [|apply SFltb_irrefl].
      unfold notAbove in *. destruct (SFltb v n) eqn:Hvn; [|done].
      by rewrite (SFltb_trans v n l) in H.
    + destruct H as [H| ->]; [done|]. exact Hnl.
Qed.

Lemma existsb_isNaN_false (l : list number) :
  existsb isNaN l = false <-> Forall (fun v => isNaN v = false) l.
Proof.
  induction l as [|x l IH]; simpl.
  - split; [constructor|done].
  - rewrite orb_false_iff, IH. split.
    + intros [? ?]. by constructor.
    + intros H. by apply Forall_cons in H.
Qed.

Lemma foldl_maxStep (l : list number) (h : number) :
  isNaN h = false -> Forall (fun v => isNaN v = false) l ->
  isNaN (foldl maxStep h l) = false
  /\ (foldl maxStep h l = h \/ foldl maxStep h l ∈ l)
  /\ notAbove h (foldl maxStep h l)
  /\ Forall (fun v => notAbove v (foldl maxStep h l)) l.
Proof.
  intros Hh Hl. revert h Hh. induction Hl as [|n l Hn Hl IH]; intros h Hh.
  - simpl. split; [done|]. split; [by left|]. split; [apply SFltb_irrefl|constructor].
  - cbn [foldl].
    assert (Hs : isNaN (maxStep h n) = false)
      by (destruct (maxStep_cases h n) as [-> | ->]; done).
    destruct (IH (maxStep h n) Hs) as (Hnan & Hmem & Hge & Hall).
    split; [done|]. split; [|split].
    + destruct Hmem as [Hmem|Hmem]; [|right; by right].
      rewrite Hmem. destruct (maxStep_cases h n) as [-> | ->]; [by left|right; by left].
    + apply (notAbove_trans h (maxStep h n)); try done.
      apply maxStep_bounds; try done. left. apply SFltb_irrefl.
    + constructor; [|done].
      apply (notAbove_trans n (maxStep h n)); try done.
      apply maxStep_bounds; try done. by right.
Qed.

Lemma foldl_minStep (l : list number) (h : number) :
  isNaN h = false -> Forall (fun v => isNaN v = false) l ->
  isNaN (foldl minStep h l) = false
  /\ (foldl minStep h l = h \/ foldl minStep h l ∈ l)
  /\ notAbove (foldl minStep h l) h
  /\ Forall (fun v => notAbove (foldl minStep h l) v) l.
Proof.
  intros Hh Hl. revert h Hh. induction Hl as [|n l Hn Hl IH]; intros h Hh.
  - simpl. split; [done|]. split; [by left|]. split; [apply SFltb_irrefl|constructor].
  - cbn [foldl].
    assert (Hs : isNaN (minStep h n) = false)
      by (destruct (minStep_cases h n) as [-> | ->]; done).
    destruct (IH (minStep h n) Hs) as (Hnan & Hmem & Hle & Hall).
    split; [done|]. split; [|split].
    + destruct Hmem as [Hmem|Hmem]; [|right; by right].
      rewrite Hmem. destruct (minStep_cases h n) as [-> | ->]; [by left|right; by left].
    + apply (notAbove_trans _ (minStep h n)); try done.
      apply minStep_bounds; try done. left. apply SFltb_irrefl.
    + constructor; [|done].
      apply (notAbove_trans _ (minStep h n)); try done.
      apply minStep_bounds; try done. by right.
Qed.

End NumberOrder.

Section MaxMin.


Lemma mathMin_NaN (l : list number) :
  Exists (fun v => isNaN v = true) l -> mathMin l = NaN.
Proof.
  intros H. unfold mathMin.
  destruct (existsb isNaN l) eqn:E; [done|].
  apply existsb_isNaN_false in E. apply Exists_exists in H as (v & Hv & Hnan).
  rewrite Forall_forall in E. by rewrite (E v Hv) in Hnan.
Qed.

(** The largest of values none of which is NaN: one of them, and none of
    them is above it. *)
Lemma mathMax_greatest (l : list number) :
  l <> [] -> Forall (fun v => isNaN v = false) l ->
  mathMax l ∈ l /\ Forall (fun v => notAbove v (mathMax l)) l.
Proof.
  intros Hne Hl. unfold mathMax.
  rewrite (proj2 (existsb_isNaN_false l) Hl).
  destruct (foldl_maxStep l (S754_infinity true) eq_refl Hl) as (Hnan & Hmem & Hge & Hall).
  split; [|done]. destruct Hmem as [Hmem|Hmem]; [|done].
  destruct l as [|v l]; [done|].
  apply Forall_cons in Hall as [Hv _]. apply Forall_cons in Hl as [Hvn _].
  rewrite Hmem in Hv. unfold notAbove in Hv.
  destruct v as [[]|[]| |[]]; try done. rewrite Hmem. by left.
Qed.

Lemma mathMin_least (l : list number) :
  l <> [] -> Forall (fun v => isNaN v = false) l ->
  mathMin l ∈ l /\ Forall (fun v => notAbove (mathMin l) v) l.
Proof.
  intros Hne Hl. unfold mathMin.
  rewrite (proj2 (existsb_isNaN_false l) Hl).
  destruct (foldl_minStep l (S754_infinity false) eq_refl Hl) as (Hnan & Hmem & Hle & Hall).
  split; [|done]. destruct Hmem as [Hmem|Hmem]; [|done].
  destruct l as [|v l]; [done|].
  apply Forall_cons in Hall as [Hv _]. apply Forall_cons in Hl as [Hvn _].
  rewrite Hmem in Hv. unfold notAbove in Hv.
  destruct v as [[]|[]| |[]]; try done. rewrite Hmem. by left.
Qed.

End MaxMin.





(** The axes of a sparkline.  For points that are not empty and have no
    value NaN, as the trend history of a row of the table, the domain of the
    values goes from the value of a point to the value of a point, and the
    value of every point is within it.  The domain of the indices is
    defined exactly when [hasIndex] holds and some point has an index.  For
    no point at all the domain of the values is from Infinity down to
    -Infinity. *)
Theorem sparkline_domains (data : list StockDataPoint) (hasIndex : bool) :
  data <> [] ->
  Forall (fun p => isNaN (value p) = false) data ->
  (exists p, p ∈ data /\ valMin (sparklineDomains data hasIndex) = value p)
  /\ (exists p, p ∈ data /\ valMax (sparklineDomains data hasIndex) = value p)
  /\ Forall (fun p => notAbove (valMin (sparklineDomains data hasIndex)) (value p)
                      /\ notAbove (value p) (valMax (sparklineDomains data hasIndex)))
       data
  /\ (is_Some (idxMin (sparklineDomains data hasIndex))
      <-> hasIndex = true /\ hasIndexData data = true)
  /\ (is_Some (idxMax (sparklineDomains data hasIndex))
      <-> hasIndex = true /\ hasIndexData data = true)
  /\ valMin (sparklineDomains [] hasIndex) = S754_infinity false
  /\ valMax (sparklineDomains [] hasIndex) = S754_infinity true.
Proof.
  intros Hne Hl.
  assert (Hv : Forall (fun v => isNaN v = false) (map value data))
    by by apply Forall_fmap.
  assert (Hne' : map value data <> []) by by destruct data.
  destruct (mathMax_greatest _ Hne' Hv) as [Hmax Hmaxall].
  destruct (mathMin_least _ Hne' Hv) as [Hmin Hminall].
  assert (Hidx : (0 <? length (omap index data))%nat = hasIndexData data).
  { unfold hasIndexData. clear. induction data as [|p data IH]; [done|].
    cbn [omap existsb list_omap]. by destruct (index p). }
  cbn [sparklineDomains valMin valMax idxMin idxMax].
  split_and!; try done.
  - apply list_elem_of_fmap in Hmin as (q & Hq & Hin). by exists q.
  - apply list_elem_of_fmap in Hmax as (q & Hq & Hin). by exists q.
  - apply Forall_forall. intros q Hq.
    assert (Hvq : value q ∈ map value data) by by apply list_elem_of_fmap_2.
    split; [exact (proj1 (Forall_forall _ _) Hminall (value q) Hvq)
           |exact (proj1 (Forall_forall _ _) Hmaxall (value q) Hvq)].
  - unfold sparklineDomains. cbn [idxMin]. rewrite Hidx.
    destruct hasIndex, (hasIndexData data); cbn [fst]; split;
      first [by intros [? [=]] | by intros [[=] ?] | by intros [? ?] | by eexists | done].
  - unfold sparklineDomains. cbn [idxMax]. rewrite Hidx.
    destruct hasIndex, (hasIndexData data); cbn [snd]; split;
      first [by intros [? [=]] | by intros [[=] ?] | by intros [? ?] | by eexists | done].
Qed.

(** The three points of Scenario A. *)
Lemma sparkline_domains_witness :
  (exists p, p ∈ scenarioA_points /\ valMin (sparklineDomains scenarioA_points false) = value p)
  /\ (exists p, p ∈ scenarioA_points
                /\ valMax (sparklineDomains scenarioA_points false) = value p)
  /\ Forall (fun p => notAbove (valMin (sparklineDomains scenarioA_points false)) (value p)
                      /\ notAbove (value p) (valMax (sparklineDomains scenarioA_points false)))
       scenarioA_points
  /\ (is_Some (idxMin (sparklineDomains scenarioA_points false))
      <-> false = true /\ hasIndexData scenarioA_points = true)
  /\ (is_Some (idxMax (sparklineDomains scenarioA_points false))
      <-> false = true /\ hasIndexData scenarioA_points = true)
  /\ valMin (sparklineDomains [] false) = S754_infinity false
  /\ valMax (sparklineDomains [] false) = S754_infinity true.
Proof.
  apply (sparkline_domains scenarioA_points false).
  - discriminate.
  - let pts := eval vm_compute in scenarioA_points in
    change scenarioA_points with pts.
    repeat constructor.
Defined.

(* ===================================================================== *)
(** ** The month of the header *)
(* ===================================================================== *)

Section LatestMonth.

Lemma bucketOf_addToBucket key p (G : buckets_t) k :
  bucketOf (addToBucket key p G) k
  = if decide (key = k) then bucketOf G k ++ [p] else bucketOf G k.
Proof.
  induction G as [|[k0 b] G IH]; cbn [addToBucket bucketOf].
  - by destruct (decide (key = k)).
  - destruct (decide (k0 = key)) as [->|Hk0]; cbn [bucketOf].
    + by destruct (decide (key = k)).
    + destruct (decide (k0 = k)) as [->|Hk]; [|done].
      by destruct (decide (key = k)) as [->|_].
Qed.

Lemma bucketOf_bucketsFrom (G : buckets_t) data k :
  bucketOf (bucketsFrom G data) k
  = bucketOf G k ++ filter (fun p => monthKeyOf p = k) data.
Proof.
  revert G. induction data as [|p data IH]; intros G.
  - by rewrite app_nil_r.
  - change (bucketsFrom G (p :: data))
      with (bucketsFrom (addToBucket (monthKeyOf p) p G) data).
    rewrite IH, bucketOf_addToBucket, filter_cons.
    destruct (decide (monthKeyOf p = k)); [by rewrite <- app_assoc|done].
Qed.

(** The bucket of a key holds the points of that month, in the order of the
    data. *)
Lemma bucketOf_buckets data k :
  bucketOf (buckets data) k = filter (fun p => monthKeyOf p = k) data.
Proof. unfold buckets. by rewrite bucketOf_bucketsFrom. Qed.

Lemma StronglySorted_filter {A} (R : A -> A -> Prop) (P : A -> Prop)
    `{!forall x, Decision (P x)} (l : list A) :
  StronglySorted R l -> StronglySorted R (filter P l).
Proof.
  induction 1 as [|x l Hl IH Hx]; [constructor|].
  rewrite filter_cons. destruct (decide (P x)); [|done].
  constructor; [done|].
  apply Forall_forall. intros y [_ Hy]%list_elem_of_filter.
  exact (proj1 (Forall_forall _ _) Hx y Hy).
Qed.

Lemma last_filter {A} (P : A -> Prop) `{!forall x, Decision (P x)} (l : list A) z :
  last l = Some z -> P z -> last (filter P l) = Some z.
Proof.
  intros Hl Hz. destruct (last_Some l z) as [(l' & ->) _]; [done|].
  rewrite filter_app, filter_cons_True, filter_nil by done.
  by rewrite last_snoc.
Qed.

Lemma StronglySorted_last {A} (R : A -> A -> Prop) (l : list A) z x :
  StronglySorted R l -> last l = Some z -> x ∈ l -> x = z \/ R x z.
Proof.
  induction 1 as [|y l Hl IH Hy]; intros Hz Hx; [by apply elem_of_nil in Hx|].
  destruct l as [|y' l].
  - injection Hz as <-. apply list_elem_of_singleton in Hx. by left.
  - change (last (y :: y' :: l)) with (last (y' :: l)) in Hz.
    apply elem_of_cons in Hx as [->|Hx]; [|by apply IH].
    right. rewrite Forall_forall in Hy. apply Hy.
    rewrite last_lookup in Hz. by apply list_elem_of_lookup_2 in Hz.
Qed.

Lemma MonthFromTime_mono u t :
  YearFromTime u = YearFromTime t -> Day u <= Day t ->
  MonthFromTime u <= MonthFromTime t.
Proof.
  intros Hy Hd. unfold MonthFromTime, DayWithinYear. rewrite Hy.
  pose proof (InLeapYear_range (YearFromTime t)).
  repeat match goal with
         | |- context [?a <? ?b] => destruct (Z.ltb_spec a b)
         end; lia.
Qed.

(** The key of an earlier date in a year of four digits is the same key or
    a smaller one. *)
Lemma monthKeyOf_le (p q : StockDataPoint) :
  fourDigitYear (dateObj p) -> fourDigitYear (dateObj q) -> dateLe p q ->
  monthKeyOf p = monthKeyOf q \/ Str.ltb (monthKeyOf p) (monthKeyOf q) = true.
Proof.
  intros (u & Eu & Hu) (t & Et & Ht) Hle.
  unfold dateLe in Hle. rewrite Eu, Et in Hle. cbn [getTime] in Hle.
  change (monthKeyOf p) with (formatKey (yearMonth (dateObj p))).
  change (monthKeyOf q) with (formatKey (yearMonth (dateObj q))).
  rewrite Eu, Et. unfold yearMonth. cbn [getFullYear getMonth].
  pose proof (YearFromDay_mono _ _ (Day_mono _ _ Hle)) as Hyear.
  fold (YearFromTime u) in Hyear. fold (YearFromTime t) in Hyear.
  destruct (Z.eq_dec (YearFromTime u) (YearFromTime t)) as [Heq|Hne].
  - pose proof (MonthFromTime_mono u t Heq (Day_mono _ _ Hle)) as Hmonth.
    destruct (Z.eq_dec (MonthFromTime u) (MonthFromTime t)) as [Hm|Hm].
    + left. by rewrite Heq, Hm.
    + right. apply formatKey_lt; try done; try apply MonthFromTime_range.
      right. lia.
  - right. apply formatKey_lt; try done; try apply MonthFromTime_range.
    left. lia.
Qed.

Lemma dateLe_inOrder (a b : StockDataPoint) : dateLe a b -> inOrder byDate a b.
Proof.
  unfold dateLe, inOrder, after, byDate.
  destruct (getTime (dateObj a)), (getTime (dateObj b)); simpl; try done.
  intros H. apply Z.ltb_ge. lia.
Qed.

Lemma Sorted_impl {A} (R Q : A -> A -> Prop) (l : list A) :
  (forall x y, R x y -> Q x y) -> Sorted R l -> Sorted Q l.
Proof.
  intros H. induction 1 as [|x l Hl IH Hx]; constructor; [done|].
  destruct Hx; constructor. by apply H.
Qed.

Lemma latest_month_record (data : list StockDataPoint) (lastPoint : StockDataPoint) :
  Forall (fun p => fourDigitYear (dateObj p)) data ->
  Sorted dateLe data ->
  last data = Some lastPoint ->
  exists r,
    currentMonthMetric (monthlyGrowthFun data) = Some r
    /\ month r = monthKeyOf lastPoint
    /\ endValue r = value lastPoint.
Proof.
  intros Hy Hs Hl.
  assert (Hss : StronglySorted dateLe data)
    by (apply Sorted_StronglySorted; [intros a b c; apply dateLe_trans|done]).
  assert (Hin : lastPoint ∈ data).
  { rewrite last_lookup in Hl. by apply list_elem_of_lookup_2 in Hl. }
  set (keys := sort defaultCompare (map fst (buckets data))).
  assert (Hkeys : forall k, k ∈ keys <-> k ∈ map monthKeyOf data).
  { intros k. unfold keys. by rewrite elem_of_sort, buckets_keys. }
  assert (Hasc : StronglySorted (fun x y => Str.ltb x y = true) keys)
    by apply sort_defaultCompare_ascending, buckets_NoDup.
  assert (Hlast : last keys = Some (monthKeyOf lastPoint)).
  { destruct (last keys) as [k|] eqn:Hk.
    - assert (Hkin : k ∈ keys).
      { rewrite last_lookup in Hk. by apply list_elem_of_lookup_2 in Hk. }
      pose proof (proj1 (Hkeys k) Hkin) as (p & -> & Hp)%list_elem_of_fmap.
      assert (Hmax : monthKeyOf lastPoint ∈ keys)
        by (apply Hkeys; by apply list_elem_of_fmap_2).
      destruct (StronglySorted_last _ _ _ _ Hasc Hk Hmax) as [->|Hlt]; [done|].
      rewrite Forall_forall in Hy.
      destruct (StronglySorted_last _ _ _ _ Hss Hl Hp) as [->|Hle]; [done|].
      destruct (monthKeyOf_le p lastPoint (Hy p Hp) (Hy _ Hin) Hle) as [->|Hlt']; [done|].
      pose proof (ltb_trans _ _ _ Hlt Hlt') as Hbad.
      by rewrite ltb_irrefl in Hbad.
    - apply last_None in Hk.
      assert (Hmax : monthKeyOf lastPoint ∈ keys)
        by (apply Hkeys; by apply list_elem_of_fmap_2).
      rewrite Hk in Hmax. by apply elem_of_nil in Hmax. }
  exists (monthRecord (buckets data) keys (length keys - 1) (monthKeyOf lastPoint)).
  assert (Hlen : length (monthlyGrowthFun data) = length keys)
    by (unfold monthlyGrowthFun; by rewrite length_imap).
  split.
  { unfold currentMonthMetric. rewrite Hlen.
    destruct keys as [|k0 keys'] eqn:Ek; [done|]. rewrite <- Ek in *.
    replace (length keys =? 0)%nat with false
      by (rewrite Ek; reflexivity).
    unfold monthlyGrowthFun. fold keys.
    rewrite list_lookup_imap. rewrite last_lookup in Hlast.
    replace (length keys - 1)%nat with (pred (length keys)) by lia.
    by rewrite Hlast. }
  split; [done|].
  unfold monthRecord, growthRecord. cbn [endValue].
  rewrite bucketOf_buckets.
  rewrite sort_Sorted_id.
  - unfold lastValue.
    by rewrite (last_filter (fun p => monthKeyOf p = monthKeyOf lastPoint) data
                  lastPoint Hl eq_refl).
  - apply StronglySorted_Sorted, StronglySorted_filter.
    eapply StronglySorted_fmap_impl with (f := id) (R := dateLe); [|by rewrite map_id].
    intros x y _ _. apply dateLe_inOrder.
Qed.

End LatestMonth.

(** The month card of the header.  For data sorted by date whose dates are
    all valid and in the years 1000 to 9999, the record [currentMonthMetric]
    returns is the record of the month of the last point of the data, and
    its end value is the value of that point.  For no record at all
    [currentMonthMetric] is [null]. *)
Theorem currentMonthMetric_is_the_latest_month (data : list StockDataPoint)
    (lastPoint : StockDataPoint) :
  Forall (fun p => fourDigitYear (dateObj p)) data ->
  Sorted dateLe data ->
  last data = Some lastPoint ->
  currentMonthMetric [] = None
  /\ exists records r,
       monthlyGrowthOf data = Ok records
       /\ currentMonthMetric records = Some r
       /\ month r = monthKeyOf lastPoint
       /\ endValue r = value lastPoint.
Proof.
  intros Hy Hs Hl. split; [done|].
  destruct (latest_month_record data lastPoint Hy Hs Hl) as (r & Hr).
  exists (monthlyGrowthFun data), r. split; [apply monthlyGrowthOf_fun|done].
Qed.

(** Scenario A: the record of February 2024, ending at 1210. *)
Lemma currentMonthMetric_is_the_latest_month_witness :
  currentMonthMetric [] = None
  /\ exists records r,
       monthlyGrowthOf scenarioA_points = Ok records
       /\ currentMonthMetric records = Some r
       /\ month r = monthKeyOf {| date := lit "2024/02/29"; dateObj := DateAt 1709164800000;
                                  value := num 1210; index := None |}
       /\ endValue r = value {| date := lit "2024/02/29"; dateObj := DateAt 1709164800000;
                                value := num 1210; index := None |}.
Proof.
  apply (currentMonthMetric_is_the_latest_month scenarioA_points
           {| date := lit "2024/02/29"; dateObj := DateAt 1709164800000;
              value := num 1210; index := None |}).
  - let pts := eval vm_compute in scenarioA_points in
    change scenarioA_points with pts.
    repeat constructor; eexists; (split; [reflexivity|]);
      vm_compute; split; discriminate.
  - let pts := eval vm_compute in scenarioA_points in
    change scenarioA_points with pts.
    repeat constructor; vm_compute; discriminate.
  - vm_compute. reflexivity.
Defined.
(** The chart does not depend on the time of the call.  [parseInputDate]
    gives the current time for an empty text, but [chartData] never asks it
    to read an empty text: whatever the current time, the chart shows the
    same points. *)
Theorem chartData_independent_of_now (now now' : Date) (data : list StockDataPoint)
    (st : ChartState) :
  chartData now data st = chartData now' data st.
Proof.
  unfold chartData. destruct (length data =? 0)%nat; [done|].
  destruct (rangeStart st) as [|c s]; [done|].
  destruct (rangeEnd st) as [|c' e]; done.
Qed.

(* ===================================================================== *)
(** ** From the text to the page *)
(* ===================================================================== *)



